(** * pgagroal deque: a shallow embedding of [src/libpgagroal/deque.c]

    The deque is a doubly linked list of heap nodes between two sentinel
    nodes.  The C code is embedded as functions over an explicit heap in a
    small state-and-failure monad: every [malloc]ed struct lives in a typed
    store indexed by addresses, a pointer is an optional address ([None] is
    [NULL]), and dereferencing [NULL] or a freed address is undefined
    behaviour. *)

From Stdlib Require Import ZArith Lia Ascii String.
From stdpp Require Import gmap strings list fin_maps.

Local Open Scope Z_scope.

(** ** Data model *)

(** An address is a [positive]; a pointer is an [option positive]. *)
Definition NULL : option positive := None.

(** [enum value_type] is declared in value.h; this file names only
    [ValueInt32] and [ValueJSON], the other enumerators are kept by number. *)
Inductive value_type : Type :=
| ValueInt32
| ValueJSON
| ValueOther (k : nat).

(** Modelled from the spec: [struct value] of value.h, the opaque typed
    payload holder.  It records the type and the raw scalar it was created
    with. *)
Record value : Type := mk_value { v_type : value_type; v_data : Z }.

(** [struct deque_node]: [data] points to a value cell, [tag] to a string. *)
Record deque_node : Type := mk_node {
  n_data : option positive;
  n_tag : option positive;
  n_prev : option positive;
  n_next : option positive
}.

(** State of a [pthread_rwlock_t] as one thread sees it. *)
Inductive rwlock : Type :=
| LockUninit
| LockFree
| LockRead (others : nat)
| LockWrite.

(** [struct deque]; [size] is a [uint32_t]. *)
Record deque : Type := mk_deque {
  dq_size : Z;
  dq_thread_safe : bool;
  dq_mutex : rwlock;
  dq_start : option positive;
  dq_end : option positive
}.

(** [struct deque_iterator]. *)
Record deque_iterator : Type := mk_iter {
  it_deque : option positive;
  it_cur : option positive;
  it_tag : option positive;
  it_value : option positive
}.

(** The heap: one store per struct type, and the store of C strings. *)
Record heap : Type := mk_heap {
  nodes : gmap positive deque_node;
  values : gmap positive value;
  strs : gmap positive string;
  deques : gmap positive deque;
  iters : gmap positive deque_iterator
}.

Definition empty_heap : heap := mk_heap ∅ ∅ ∅ ∅ ∅.

Definition with_nodes (f : gmap positive deque_node → gmap positive deque_node) (h : heap) : heap :=
  mk_heap (f (nodes h)) (values h) (strs h) (deques h) (iters h).
Definition with_values (f : gmap positive value → gmap positive value) (h : heap) : heap :=
  mk_heap (nodes h) (f (values h)) (strs h) (deques h) (iters h).
Definition with_strs (f : gmap positive string → gmap positive string) (h : heap) : heap :=
  mk_heap (nodes h) (values h) (f (strs h)) (deques h) (iters h).
Definition with_deques (f : gmap positive deque → gmap positive deque) (h : heap) : heap :=
  mk_heap (nodes h) (values h) (strs h) (f (deques h)) (iters h).
Definition with_iters (f : gmap positive deque_iterator → gmap positive deque_iterator) (h : heap) : heap :=
  mk_heap (nodes h) (values h) (strs h) (deques h) (f (iters h)).

(** Field assignments. *)
Definition set_data (v : option positive) (n : deque_node) : deque_node :=
  mk_node v (n_tag n) (n_prev n) (n_next n).
Definition set_tag (v : option positive) (n : deque_node) : deque_node :=
  mk_node (n_data n) v (n_prev n) (n_next n).
Definition set_prev (v : option positive) (n : deque_node) : deque_node :=
  mk_node (n_data n) (n_tag n) v (n_next n).
Definition set_next (v : option positive) (n : deque_node) : deque_node :=
  mk_node (n_data n) (n_tag n) (n_prev n) v.

Definition set_size (v : Z) (d : deque) : deque :=
  mk_deque v (dq_thread_safe d) (dq_mutex d) (dq_start d) (dq_end d).
Definition set_thread_safe (v : bool) (d : deque) : deque :=
  mk_deque (dq_size d) v (dq_mutex d) (dq_start d) (dq_end d).
Definition set_mutex (v : rwlock) (d : deque) : deque :=
  mk_deque (dq_size d) (dq_thread_safe d) v (dq_start d) (dq_end d).
Definition set_start (v : option positive) (d : deque) : deque :=
  mk_deque (dq_size d) (dq_thread_safe d) (dq_mutex d) v (dq_end d).
Definition set_end (v : option positive) (d : deque) : deque :=
  mk_deque (dq_size d) (dq_thread_safe d) (dq_mutex d) (dq_start d) v.

Definition set_it_deque (v : option positive) (i : deque_iterator) : deque_iterator :=
  mk_iter v (it_cur i) (it_tag i) (it_value i).
Definition set_it_cur (v : option positive) (i : deque_iterator) : deque_iterator :=
  mk_iter (it_deque i) v (it_tag i) (it_value i).
Definition set_it_tag (v : option positive) (i : deque_iterator) : deque_iterator :=
  mk_iter (it_deque i) (it_cur i) v (it_value i).
Definition set_it_value (v : option positive) (i : deque_iterator) : deque_iterator :=
  mk_iter (it_deque i) (it_cur i) (it_tag i) v.

(** [uint32_t] arithmetic wraps modulo 2^32. *)
Definition wrap32 (z : Z) : Z := z mod 4294967296.

(** ** The monad of C computations *)

(** A call returns a value and a new heap, or has undefined behaviour
    (a [NULL] or dangling dereference, a misused lock), or never returns
    (a loop that does not end, a lock that is never granted). *)
Inductive result (A : Type) : Type :=
| Ok (a : A) (h : heap)
| Undefined
| Diverges.
Arguments Ok {A} a h.
Arguments Undefined {A}.
Arguments Diverges {A}.

Definition M (A : Type) : Type := heap → result A.

Definition ret {A} (a : A) : M A := λ h, Ok a h.
Definition bind {A B} (m : M A) (k : A → M B) : M B :=
  λ h, match m h with
       | Ok a h' => k a h'
       | Undefined => Undefined
       | Diverges => Diverges
       end.
Definition undefined {A} : M A := λ _, Undefined.
Definition diverge {A} : M A := λ _, Diverges.

Declare Scope c_scope.
Delimit Scope c_scope with C.
Notation "x <- m ;; k" := (bind m (λ x, k))
  (at level 100, m at next level, right associativity) : c_scope.
Notation "m ;; k" := (bind m (λ _, k))
  (at level 100, right associativity) : c_scope.
Local Open Scope c_scope.

(** *** Loads, stores, allocation and release *)

Definition load_node {A} (f : deque_node → A) (p : option positive) : M A :=
  λ h, match p with
       | Some a => match nodes h !! a with Some n => Ok (f n) h | None => Undefined end
       | None => Undefined
       end.
Definition store_node (f : deque_node → deque_node) (p : option positive) : M unit :=
  λ h, match p with
       | Some a => match nodes h !! a with
                   | Some _ => Ok tt (with_nodes (alter f a) h)
                   | None => Undefined
                   end
       | None => Undefined
       end.

Definition load_deque {A} (f : deque → A) (p : option positive) : M A :=
  λ h, match p with
       | Some a => match deques h !! a with Some d => Ok (f d) h | None => Undefined end
       | None => Undefined
       end.
Definition store_deque (f : deque → deque) (p : option positive) : M unit :=
  λ h, match p with
       | Some a => match deques h !! a with
                   | Some _ => Ok tt (with_deques (alter f a) h)
                   | None => Undefined
                   end
       | None => Undefined
       end.

Definition load_iter {A} (f : deque_iterator → A) (p : option positive) : M A :=
  λ h, match p with
       | Some a => match iters h !! a with Some i => Ok (f i) h | None => Undefined end
       | None => Undefined
       end.
Definition store_iter (f : deque_iterator → deque_iterator) (p : option positive) : M unit :=
  λ h, match p with
       | Some a => match iters h !! a with
                   | Some _ => Ok tt (with_iters (alter f a) h)
                   | None => Undefined
                   end
       | None => Undefined
       end.

Definition load_value {A} (f : value → A) (p : option positive) : M A :=
  λ h, match p with
       | Some a => match values h !! a with Some v => Ok (f v) h | None => Undefined end
       | None => Undefined
       end.
Definition load_str (p : option positive) : M string :=
  λ h, match p with
       | Some a => match strs h !! a with Some s => Ok s h | None => Undefined end
       | None => Undefined
       end.

(** [malloc] returns an address that is not in use. *)
Definition malloc_node (n : deque_node) : M (option positive) :=
  λ h, let a := fresh (dom (nodes h)) in Ok (Some a) (with_nodes (insert a n) h).
Definition malloc_value (v : value) : M (option positive) :=
  λ h, let a := fresh (dom (values h)) in Ok (Some a) (with_values (insert a v) h).
Definition malloc_str (s : string) : M (option positive) :=
  λ h, let a := fresh (dom (strs h)) in Ok (Some a) (with_strs (insert a s) h).
Definition malloc_deque (d : deque) : M (option positive) :=
  λ h, let a := fresh (dom (deques h)) in Ok (Some a) (with_deques (insert a d) h).
Definition malloc_iter (i : deque_iterator) : M (option positive) :=
  λ h, let a := fresh (dom (iters h)) in Ok (Some a) (with_iters (insert a i) h).

(** [free(NULL)] does nothing; freeing an address that is not allocated is
    undefined. *)
Definition free_node (p : option positive) : M unit :=
  λ h, match p with
       | None => Ok tt h
       | Some a => match nodes h !! a with
                   | Some _ => Ok tt (with_nodes (delete a) h)
                   | None => Undefined
                   end
       end.
Definition free_value (p : option positive) : M unit :=
  λ h, match p with
       | None => Ok tt h
       | Some a => match values h !! a with
                   | Some _ => Ok tt (with_values (delete a) h)
                   | None => Undefined
                   end
       end.
Definition free_str (p : option positive) : M unit :=
  λ h, match p with
       | None => Ok tt h
       | Some a => match strs h !! a with
                   | Some _ => Ok tt (with_strs (delete a) h)
                   | None => Undefined
                   end
       end.
Definition free_deque (p : option positive) : M unit :=
  λ h, match p with
       | None => Ok tt h
       | Some a => match deques h !! a with
                   | Some _ => Ok tt (with_deques (delete a) h)
                   | None => Undefined
                   end
       end.
Definition free_iter (p : option positive) : M unit :=
  λ h, match p with
       | None => Ok tt h
       | Some a => match iters h !! a with
                   | Some _ => Ok tt (with_iters (delete a) h)
                   | None => Undefined
                   end
       end.

(** Pointer comparison [p == q]. *)
Definition ptr_eqb (p q : option positive) : bool := bool_decide (p = q).

(** ** External collaborators *)

(** Modelled from the spec: [pgagroal_value_create] of value.c, "create" of
    the value cell contract.  It allocates the cell that holds the payload. *)
Definition pgagroal_value_create (type : value_type) (data : Z) : M (option positive) :=
  malloc_value (mk_value type data).

(** Modelled from the spec: [pgagroal_value_data] of value.c, "extract-raw"
    of the value cell contract. *)
Definition pgagroal_value_data (val : option positive) : M Z :=
  load_value v_data val.

(** Modelled from the spec: [pgagroal_value_destroy] of value.c, "destroy"
    of the value cell contract. *)
Definition pgagroal_value_destroy (val : option positive) : M unit :=
  free_value val.

(** Modelled from the spec: [pgagroal_compare_string] of utils.c, "tag
    equality" of two C strings, either of which may be [NULL]. *)
Definition pgagroal_compare_string (str1 str2 : option string) : bool :=
  bool_decide (str1 = str2).

(** Modelled from the spec: [pgagroal_append] of utils.c, the concatenation
    helper.  [orig] may be [NULL]; a [NULL] suffix leaves it as it is. *)
Definition pgagroal_append (orig s : option string) : option string :=
  match s with
  | None => orig
  | Some s' => Some (default EmptyString orig +:+ s')
  end.

(** Modelled from the spec: [pgagroal_indent] of utils.c, the indentation
    helper: [indent] spaces, then the tag when there is one. *)
Definition pgagroal_indent (str tag : option string) (indent : Z) : option string :=
  pgagroal_append
    (Nat.iter (Z.to_nat indent) (λ s, pgagroal_append s (Some " "%string)) str)
    tag.

(** [strlen(tag) == 0]. *)
Definition strlen_is_zero (s : string) : bool := bool_decide (s = EmptyString).

(** The C string a [char*] points to, [None] for [NULL]. *)
Definition read_cstr (p : option positive) : M (option string) :=
  match p with
  | None => ret None
  | Some _ => s <- load_str p ;; ret (Some s)
  end.

(** [int] addition; signed overflow is undefined. *)
Definition int_add (a b : Z) : M Z :=
  if bool_decide (-2147483648 ≤ a + b ≤ 2147483647) then ret (a + b) else undefined.

(** ** Locks *)

Definition pthread_rwlock_init (deque : option positive) : M unit :=
  store_deque (set_mutex LockFree) deque.

Definition pthread_rwlock_rdlock (deque : option positive) : M unit :=
  mu <- load_deque dq_mutex deque ;;
  match mu with
  | LockFree => store_deque (set_mutex (LockRead 0)) deque
  | LockRead n => store_deque (set_mutex (LockRead (S n))) deque
  | LockWrite => diverge
  | LockUninit => undefined
  end.

Definition pthread_rwlock_wrlock (deque : option positive) : M unit :=
  mu <- load_deque dq_mutex deque ;;
  match mu with
  | LockFree => store_deque (set_mutex LockWrite) deque
  | LockRead _ | LockWrite => diverge
  | LockUninit => undefined
  end.

Definition pthread_rwlock_unlock (deque : option positive) : M unit :=
  mu <- load_deque dq_mutex deque ;;
  match mu with
  | LockRead 0 => store_deque (set_mutex LockFree) deque
  | LockRead (S n) => store_deque (set_mutex (LockRead n)) deque
  | LockWrite => store_deque (set_mutex LockFree) deque
  | LockFree | LockUninit => undefined
  end.

Definition pthread_rwlock_destroy (deque : option positive) : M unit :=
  mu <- load_deque dq_mutex deque ;;
  match mu with
  | LockFree => store_deque (set_mutex LockUninit) deque
  | LockRead _ | LockWrite | LockUninit => undefined
  end.

Definition deque_read_lock (deque : option positive) : M unit :=
  match deque with
  | None => ret tt
  | Some _ =>
      ts <- load_deque dq_thread_safe deque ;;
      if negb ts then ret tt else pthread_rwlock_rdlock deque
  end.

Definition deque_write_lock (deque : option positive) : M unit :=
  match deque with
  | None => ret tt
  | Some _ =>
      ts <- load_deque dq_thread_safe deque ;;
      if negb ts then ret tt else pthread_rwlock_wrlock deque
  end.

Definition deque_unlock (deque : option positive) : M unit :=
  match deque with
  | None => ret tt
  | Some _ =>
      ts <- load_deque dq_thread_safe deque ;;
      if negb ts then ret tt else pthread_rwlock_unlock deque
  end.

(** ** Nodes *)

(** [deque_node_create]: the node is zeroed, gets a fresh value cell and a
    copy of the tag when there is one. *)
Definition deque_node_create (data : Z) (type : value_type) (tag : option string)
  : M (option positive) :=
  n <- malloc_node (mk_node NULL NULL NULL NULL) ;;
  v <- pgagroal_value_create type data ;;
  store_node (set_data v) n ;;
  match tag with
  | Some s =>
      t <- malloc_str s ;;
      store_node (set_tag t) n
  | None => store_node (set_tag NULL) n
  end ;;
  ret n.

Definition deque_node_destroy (node : option positive) : M unit :=
  match node with
  | None => ret tt
  | Some _ =>
      v <- load_node n_data node ;;
      pgagroal_value_destroy v ;;
      t <- load_node n_tag node ;;
      free_str t ;;
      free_node node
  end.

(** ** Deque core *)

Definition pgagroal_deque_create (thread_safe : bool) : M (Z * option positive) :=
  q <- malloc_deque (mk_deque 0 false LockUninit NULL NULL) ;;
  store_deque (set_size 0) q ;;
  store_deque (set_thread_safe thread_safe) q ;;
  (if thread_safe then pthread_rwlock_init q else ret tt) ;;
  s <- deque_node_create 0 ValueInt32 None ;;
  store_deque (set_start s) q ;;
  e <- deque_node_create 0 ValueInt32 None ;;
  store_deque (set_end e) q ;;
  qs <- load_deque dq_start q ;;
  qe <- load_deque dq_end q ;;
  store_node (set_next qe) qs ;;
  qe <- load_deque dq_end q ;;
  qs <- load_deque dq_start q ;;
  store_node (set_prev qs) qe ;;
  ret (0, q).

Definition deque_offer (deque : option positive) (tag : option string) (data : Z)
    (type : value_type) : M unit :=
  n <- deque_node_create data type tag ;;
  deque_write_lock deque ;;
  sz <- load_deque dq_size deque ;;
  store_deque (set_size (wrap32 (sz + 1))) deque ;;
  e <- load_deque dq_end deque ;;
  last <- load_node n_prev e ;;
  store_node (set_next n) last ;;
  store_node (set_prev last) n ;;
  e <- load_deque dq_end deque ;;
  store_node (set_next e) n ;;
  e <- load_deque dq_end deque ;;
  store_node (set_prev n) e ;;
  deque_unlock deque.

Definition pgagroal_deque_add (deque : option positive) (tag : option string) (data : Z)
    (type : value_type) : M Z :=
  deque_offer deque tag data type ;;
  ret 0.

Definition pgagroal_deque_size (deque : option positive) : M Z :=
  match deque with
  | None => ret 0
  | Some _ =>
      deque_read_lock deque ;;
      size <- load_deque dq_size deque ;;
      deque_unlock deque ;;
      ret size
  end.

Definition pgagroal_deque_empty (deque : option positive) : M bool :=
  sz <- pgagroal_deque_size deque ;;
  ret (sz =? 0).

(** [pgagroal_deque_poll(deque, tag)]: [want_tag] says whether the [tag]
    argument is not [NULL]; the second component of the result is what was
    written to [*tag], [None] when nothing was written. *)
Definition pgagroal_deque_poll (deque : option positive) (want_tag : bool)
  : M (Z * option (option positive)) :=
  match deque with
  | None => ret (0, None)
  | Some _ =>
      sz <- pgagroal_deque_size deque ;;
      if sz =? 0 then ret (0, None) else
      deque_write_lock deque ;;
      s <- load_deque dq_start deque ;;
      head <- load_node n_next s ;;
      e <- load_deque dq_end deque ;;
      if ptr_eqb head e then deque_unlock deque ;; ret (0, None) else
      hn <- load_node n_next head ;;
      s <- load_deque dq_start deque ;;
      store_node (set_next hn) s ;;
      hn <- load_node n_next head ;;
      s <- load_deque dq_start deque ;;
      store_node (set_prev s) hn ;;
      sz <- load_deque dq_size deque ;;
      store_deque (set_size (wrap32 (sz - 1))) deque ;;
      val <- load_node n_data head ;;
      out <- (if want_tag then t <- load_node n_tag head ;; ret (Some t) else ret None) ;;
      free_node head ;;
      data <- pgagroal_value_data val ;;
      free_value val ;;
      deque_unlock deque ;;
      ret (data, out)
  end.

(** [pgagroal_deque_peek(deque, tag)], with [*tag] as in
    [pgagroal_deque_poll]. *)
Definition pgagroal_deque_peek (deque : option positive) (want_tag : bool)
  : M (Z * option (option positive)) :=
  match deque with
  | None => ret (0, None)
  | Some _ =>
      sz <- pgagroal_deque_size deque ;;
      if sz =? 0 then ret (0, None) else
      deque_read_lock deque ;;
      s <- load_deque dq_start deque ;;
      head <- load_node n_next s ;;
      e <- load_deque dq_end deque ;;
      if ptr_eqb head e then deque_unlock deque ;; ret (0, None) else
      val <- load_node n_data head ;;
      out <- (if want_tag then t <- load_node n_tag head ;; ret (Some t) else ret None) ;;
      deque_unlock deque ;;
      data <- pgagroal_value_data val ;;
      ret (data, out)
  end.

Definition deque_next (deque node : option positive) : M (option positive) :=
  match deque with
  | None => ret NULL
  | Some _ =>
      sz <- load_deque dq_size deque ;;
      if sz =? 0 then ret NULL else
      match node with
      | None => ret NULL
      | Some _ =>
          nx <- load_node n_next node ;;
          e <- load_deque dq_end deque ;;
          if ptr_eqb nx e then ret NULL else
          next <- load_node n_next node ;;
          ret next
      end
  end.

(** The [while (n != NULL)] loop of [deque_find].  The loop only reads the
    heap, and each turn moves to another node: a walk of more turns than
    there are nodes goes round a cycle for ever. *)
Fixpoint deque_find_loop (fuel : nat) (deque : option positive) (tag : option string)
    (n : option positive) : M (option positive) :=
  match n with
  | None => ret NULL
  | Some _ =>
      match fuel with
      | O => diverge
      | S fuel' =>
          nt <- load_node n_tag n ;;
          s <- read_cstr nt ;;
          if pgagroal_compare_string tag s then ret n else
          n' <- deque_next deque n ;;
          deque_find_loop fuel' deque tag n'
      end
  end.

Definition deque_find (deque : option positive) (tag : option string) : M (option positive) :=
  match tag with
  | None => ret NULL
  | Some t =>
      if strlen_is_zero t then ret NULL else
      match deque with
      | None => ret NULL
      | Some _ =>
          sz <- load_deque dq_size deque ;;
          if sz =? 0 then ret NULL else
          s <- load_deque dq_start deque ;;
          n <- deque_next deque s ;;
          λ h, deque_find_loop (S (size (nodes h))) deque tag n h
      end
  end.

Definition pgagroal_deque_get (deque : option positive) (tag : option string) : M Z :=
  deque_read_lock deque ;;
  n <- deque_find deque tag ;;
  match n with
  | None => deque_unlock deque ;; ret 0
  | Some _ =>
      d <- load_node n_data n ;;
      r <- pgagroal_value_data d ;;
      deque_unlock deque ;;
      ret r
  end.

(** The [while (n != NULL)] loop of [pgagroal_deque_destroy]; it frees a
    node at each turn. *)
Fixpoint deque_destroy_loop (fuel : nat) (n : option positive) : M unit :=
  match n with
  | None => ret tt
  | Some _ =>
      match fuel with
      | O => diverge
      | S fuel' =>
          next <- load_node n_next n ;;
          deque_node_destroy n ;;
          deque_destroy_loop fuel' next
      end
  end.

Definition pgagroal_deque_destroy (deque : option positive) : M unit :=
  match deque with
  | None => ret tt
  | Some _ =>
      n <- load_deque dq_start deque ;;
      (λ h, deque_destroy_loop (S (size (nodes h))) n h) ;;
      ts <- load_deque dq_thread_safe deque ;;
      (if ts : bool then pthread_rwlock_destroy deque else ret tt) ;;
      free_deque deque
  end.

(** [deque_remove]: unlinks and destroys a real node, returns its
    predecessor. *)
Definition deque_remove (deque node : option positive) : M (option positive) :=
  match deque, node with
  | None, _ | _, None => ret NULL
  | Some _, Some _ =>
      s <- load_deque dq_start deque ;;
      if ptr_eqb node s then ret NULL else
      e <- load_deque dq_end deque ;;
      if ptr_eqb node e then ret NULL else
      prev <- load_node n_prev node ;;
      next <- load_node n_next node ;;
      store_node (set_next next) prev ;;
      store_node (set_prev prev) next ;;
      deque_node_destroy node ;;
      sz <- load_deque dq_size deque ;;
      store_deque (set_size (wrap32 (sz - 1))) deque ;;
      ret prev
  end.

(** ** Iterator *)

(** [pgagroal_deque_iterator_create(deque, iter)]: the second component is
    what was written to [*iter], [None] when nothing was written. *)
Definition pgagroal_deque_iterator_create (deque : option positive)
  : M (Z * option (option positive)) :=
  match deque with
  | None => ret (1, None)
  | Some _ =>
      i <- malloc_iter (mk_iter NULL NULL NULL NULL) ;;
      store_iter (set_it_deque deque) i ;;
      s <- load_deque dq_start deque ;;
      store_iter (set_it_cur s) i ;;
      store_iter (set_it_tag NULL) i ;;
      store_iter (set_it_value NULL) i ;;
      ret (0, Some i)
  end.

Definition pgagroal_deque_iterator_remove (iter : option positive) : M unit :=
  match iter with
  | None => ret tt
  | Some _ =>
      cur <- load_iter it_cur iter ;;
      match cur with
      | None => ret tt
      | Some _ =>
          dq <- load_iter it_deque iter ;;
          match dq with
          | None => ret tt
          | Some _ =>
              s <- load_deque dq_start dq ;;
              if ptr_eqb cur s then ret tt else
              e <- load_deque dq_end dq ;;
              if ptr_eqb cur e then ret tt else
              p <- deque_remove dq cur ;;
              store_iter (set_it_cur p) iter ;;
              cur <- load_iter it_cur iter ;;
              dq <- load_iter it_deque iter ;;
              s <- load_deque dq_start dq ;;
              if ptr_eqb cur s then
                store_iter (set_it_value NULL) iter ;;
                store_iter (set_it_tag NULL) iter
              else
                v <- load_node n_data cur ;;
                store_iter (set_it_value v) iter ;;
                t <- load_node n_tag cur ;;
                store_iter (set_it_tag t) iter
          end
      end
  end.

Definition pgagroal_deque_iterator_destroy (iter : option positive) : M unit :=
  match iter with
  | None => ret tt
  | Some _ => free_iter iter
  end.

Definition pgagroal_deque_iterator_next (iter : option positive) : M bool :=
  match iter with
  | None => ret false
  | Some _ =>
      dq <- load_iter it_deque iter ;;
      cur <- load_iter it_cur iter ;;
      nx <- deque_next dq cur ;;
      store_iter (set_it_cur nx) iter ;;
      cur <- load_iter it_cur iter ;;
      match cur with
      | None => ret false
      | Some _ =>
          v <- load_node n_data cur ;;
          store_iter (set_it_value v) iter ;;
          t <- load_node n_tag cur ;;
          store_iter (set_it_tag t) iter ;;
          ret true
      end
  end.

(** ** Serialization *)

Definition newline : string := String "010"%char EmptyString.

Section serialization.
(** Macros of pgagroal.h and the renderer of value.c, which this file
    only uses. *)
Variable FORMAT_JSON : Z.
Variable FORMAT_TEXT : Z.
Variable INDENT_PER_LEVEL : Z.
Variable BULLET_POINT : string.
(** [pgagroal_value_to_string(value, format, tag, indent)], "to-string"
    of the value cell contract, as a function of the cell's contents. *)
Variable value_to_string : value → Z → option string → Z → option string.

Definition pgagroal_value_to_string (val : option positive) (format : Z)
    (tag : option string) (indent : Z) : M (option string) :=
  v <- load_value id val ;;
  ret (value_to_string v format tag indent).

(** The [while (cur != NULL)] loop of [to_json_string]. *)
Fixpoint to_json_string_loop (fuel : nat) (deque : option positive) (indent : Z)
    (cur : option positive) (str_ret : option string) : M (option string) :=
  match cur with
  | None => ret str_ret
  | Some _ =>
      match fuel with
      | O => diverge
      | S fuel' =>
          nx <- load_node n_next cur ;;
          e <- load_deque dq_end deque ;;
          let has_next := negb (ptr_eqb nx e) in
          ct <- load_node n_tag cur ;;
          t <- match ct with
               | Some _ =>
                   s <- read_cstr ct ;;
                   ret (pgagroal_append (pgagroal_append None s) (Some ": "%string))
               | None => ret None
               end ;;
          d <- load_node n_data cur ;;
          ind <- int_add indent INDENT_PER_LEVEL ;;
          str <- pgagroal_value_to_string d FORMAT_JSON t ind ;;
          let r := pgagroal_append str_ret str in
          let r := pgagroal_append r
                     (Some (if has_next then ("," +:+ newline)%string else newline)) in
          cur' <- deque_next deque cur ;;
          to_json_string_loop fuel' deque indent cur' r
      end
  end.

Definition to_json_string (deque : option positive) (tag : option string) (indent : Z)
  : M (option string) :=
  let r := pgagroal_indent None tag indent in
  match deque with
  | None => ret (pgagroal_append r (Some "[]"%string))
  | Some _ =>
      em <- pgagroal_deque_empty deque ;;
      if em : bool then ret (pgagroal_append r (Some "[]"%string)) else
      deque_read_lock deque ;;
      let r := pgagroal_append r (Some ("[" +:+ newline)%string) in
      s <- load_deque dq_start deque ;;
      cur <- deque_next deque s ;;
      r <- (λ h, to_json_string_loop (S (size (nodes h))) deque indent cur r h) ;;
      let r := pgagroal_indent r None indent in
      let r := pgagroal_append r (Some "]"%string) in
      deque_unlock deque ;;
      ret r
  end.

(** The [while (cur != NULL)] loop of [to_text_string]; [cnt] and
    [next_indent] are the loop's local variables. *)
Fixpoint to_text_string_loop (fuel : nat) (deque : option positive)
    (tag : option string) (indent : Z) (cur : option positive)
    (cnt next_indent : Z) (str_ret : option string) : M (option string) :=
  match cur with
  | None => ret str_ret
  | Some _ =>
      match fuel with
      | O => diverge
      | S fuel' =>
          nx <- load_node n_next cur ;;
          e <- load_deque dq_end deque ;;
          let has_next := negb (ptr_eqb nx e) in
          d <- load_node n_data cur ;;
          str <- pgagroal_value_to_string d FORMAT_TEXT (Some BULLET_POINT) next_indent ;;
          cn <-
            (if cnt =? 0 then
               cnt1 <- int_add cnt 1 ;;
               if pgagroal_compare_string tag (Some BULLET_POINT)
               then ni <- int_add indent INDENT_PER_LEVEL ;; ret (cnt1, ni)
               else ret (cnt1, next_indent)
             else ret (cnt, next_indent)) ;;
          let cnt' := fst cn in
          let next_indent' := snd cn in
          d <- load_node n_data cur ;;
          ty <- load_value v_type d ;;
          let r := match ty with
                   | ValueJSON => pgagroal_indent str_ret (Some BULLET_POINT) next_indent'
                   | _ => str_ret
                   end in
          let r := pgagroal_append r str in
          let r := pgagroal_append r (Some (if has_next then newline else EmptyString)) in
          cur' <- deque_next deque cur ;;
          to_text_string_loop fuel' deque tag indent cur' cnt' next_indent' r
      end
  end.

Definition to_text_string (deque : option positive) (tag : option string) (indent : Z)
  : M (option string) :=
  let next_indent :=
    if pgagroal_compare_string tag (Some BULLET_POINT) then 0 else indent in
  rn <-
    match tag with
    | Some t =>
        if negb (pgagroal_compare_string tag (Some BULLET_POINT)) then
          ni <- int_add next_indent INDENT_PER_LEVEL ;;
          ret (pgagroal_indent None tag indent, ni)
        else ret (None, next_indent)
    | None => ret (None, next_indent)
    end ;;
  let r := fst rn in
  let next_indent := snd rn in
  match deque with
  | None => ret (pgagroal_append r (Some "[]"%string))
  | Some _ =>
      em <- pgagroal_deque_empty deque ;;
      if em : bool then ret (pgagroal_append r (Some "[]"%string)) else
      deque_read_lock deque ;;
      s <- load_deque dq_start deque ;;
      cur <- deque_next deque s ;;
      r <- (λ h, to_text_string_loop (S (size (nodes h))) deque tag indent cur 0
                   next_indent r h) ;;
      deque_unlock deque ;;
      ret r
  end.

Definition pgagroal_deque_to_string (deque : option positive) (format : Z)
    (tag : option string) (indent : Z) : M (option string) :=
  if format =? FORMAT_JSON then to_json_string deque tag indent
  else if format =? FORMAT_TEXT then to_text_string deque tag indent
  else ret None.

End serialization.

(** ** Listing a deque in the log *)

Section listing.
Variable FORMAT_JSON : Z.
Variable FORMAT_TEXT : Z.
Variable INDENT_PER_LEVEL : Z.
Variable BULLET_POINT : string.
Variable value_to_string : value → Z → option string → Z → option string.
(** [pgagroal_log_is_enabled(PGAGROAL_LOGGING_LEVEL_DEBUG5)], a setting of
    the logger. *)
Variable debug5_enabled : bool.

(** [pgagroal_deque_list]: the rendering is built, passed to
    [pgagroal_log_trace] and freed.  The result is the string that the logger
    was given, [None] when the logger is not called. *)
Definition pgagroal_deque_list (deque : option positive) : M (option (option string)) :=
  if debug5_enabled then
    str <- pgagroal_deque_to_string FORMAT_JSON FORMAT_TEXT INDENT_PER_LEVEL BULLET_POINT
             value_to_string deque FORMAT_JSON None 0 ;;
    ret (Some str)
  else ret None.

End listing.

(** ** Abstraction of a deque in the heap *)

(** The addresses that make up one element: its node, its value cell and
    its tag string. *)
Record cell : Type := mk_cell {
  c_node : positive;
  c_val : positive;
  c_tag : option positive
}.

(** What [pgagroal_deque_add] was called with. *)
Record item : Type := mk_item {
  i_tag : option string;
  i_data : Z;
  i_type : value_type
}.

(** [a->next == b] and [b->prev == a]. *)
Definition link (N : gmap positive deque_node) (a b : positive) : Prop :=
  n_next <$> N !! a = Some (Some b) ∧ n_prev <$> N !! b = Some (Some a).

(** Every node of the list is linked to the one that follows it. *)
Fixpoint linked (N : gmap positive deque_node) (l : list positive) : Prop :=
  match l with
  | a :: l' =>
      match l' with
      | b :: _ => link N a b ∧ linked N l'
      | [] => True
      end
  | [] => True
  end.

(** The string behind a [char*]: [Some None] for [NULL], [None] when the
    pointer dangles. *)
Definition cstr (h : heap) (p : option positive) : option (option string) :=
  match p with
  | None => Some None
  | Some a => Some <$> strs h !! a
  end.

Definition cell_holds (h : heap) (c : cell) (x : item) : Prop :=
  n_data <$> nodes h !! c_node c = Some (Some (c_val c)) ∧
  n_tag <$> nodes h !! c_node c = Some (c_tag c) ∧
  values h !! c_val c = Some (mk_value (i_type x) (i_data x)) ∧
  cstr h (c_tag c) = Some (i_tag x).

(** The deque at [q] has the sentinels [s] and [e], the size field [sz]
    (a [uint32_t]), and holds the elements [xs], in this order, in the
    cells [cs]. *)
Record deque_rep (h : heap) (q : positive) (ts : bool) (s e : positive) (sz : Z)
    (cs : list cell) (xs : list item) : Prop := mk_deque_rep {
  rep_deque : ∃ mu, deques h !! q = Some (mk_deque sz ts mu (Some s) (Some e)) ∧
                    (ts = true → mu = LockFree);
  rep_size : 0 ≤ sz < 4294967296;
  rep_nodup : NoDup (s :: (c_node <$> cs) ++ [e]);
  rep_linked : linked (nodes h) (s :: (c_node <$> cs) ++ [e]);
  rep_vals : NoDup (c_val <$> cs);
  rep_tags : NoDup (omap c_tag cs);
  rep_cells : Forall2 (cell_holds h) cs xs
}.

(** The size field counts the elements. *)
Definition deque_inv (h : heap) (q : positive) (ts : bool) (s e : positive)
    (cs : list cell) (xs : list item) : Prop :=
  deque_rep h q ts s e (Z.of_nat (length xs)) cs xs ∧ Z.of_nat (length xs) < 4294967296.

Definition deque_wf (h : heap) (q : positive) : Prop :=
  ∃ ts s e cs xs, deque_inv h q ts s e cs xs.

(** The invariant of the data model, in its words: the sentinels point to
    each other exactly when [size] is 0, and the chain between them has
    exactly [size] nodes. *)
Definition structural_invariant (h : heap) (q : positive) : Prop :=
  ∃ d s e,
    deques h !! q = Some d ∧ dq_start d = Some s ∧ dq_end d = Some e ∧
    ((n_next <$> nodes h !! s = Some (Some e) ∧ n_prev <$> nodes h !! e = Some (Some s))
     ↔ dq_size d = 0) ∧
    ∃ l, NoDup (s :: l ++ [e]) ∧ linked (nodes h) (s :: l ++ [e]) ∧
         Z.of_nat (length l) = dq_size d.

(** ** Ownership *)

(** The cell that [deque_node_create] allocates in [h] for an element with
    the tag [tag]. *)
Definition new_cell (h : heap) (tag : option string) : cell :=
  mk_cell (fresh (dom (nodes h))) (fresh (dom (values h)))
    (match tag with Some _ => Some (fresh (dom (strs h))) | None => None end).

(** The sentinels as cells: each has a value cell and no tag. *)
Definition all_cells (s e sv ev : positive) (cs : list cell) : list cell :=
  mk_cell s sv None :: cs ++ [mk_cell e ev None].

(** What [deque_node_create] gave the two sentinels and nothing has changed
    since: each points to a live value cell of its own and has no tag, and
    the [next] field of the back sentinel is still [NULL]. *)
Definition sentinels_own (h : heap) (s e sv ev : positive) (cs : list cell) : Prop :=
  n_data <$> nodes h !! s = Some (Some sv) ∧ n_tag <$> nodes h !! s = Some None ∧
  n_data <$> nodes h !! e = Some (Some ev) ∧ n_tag <$> nodes h !! e = Some None ∧
  n_next <$> nodes h !! e = Some None ∧
  is_Some (values h !! sv) ∧ is_Some (values h !! ev) ∧
  NoDup (sv :: (c_val <$> cs) ++ [ev]).

(** The deque at [q] with everything it owns: the chain of [deque_rep] and
    the value cells of the sentinels. *)
Definition deque_owned (h : heap) (q : positive) (ts : bool) (s e sv ev : positive)
    (sz : Z) (cs : list cell) (xs : list item) : Prop :=
  deque_rep h q ts s e sz cs xs ∧ sentinels_own h s e sv ev cs.

(** Every cell of [l] is a live node that points to its value cell, to its
    tag and to the node of the cell after it, [NULL] after the last. *)
Fixpoint chain_owned (h : heap) (l : list cell) : Prop :=
  match l with
  | [] => True
  | c :: l' =>
      n_data <$> nodes h !! c_node c = Some (Some (c_val c)) ∧
      n_tag <$> nodes h !! c_node c = Some (c_tag c) ∧
      n_next <$> nodes h !! c_node c = Some (c_node <$> head l') ∧
      is_Some (values h !! c_val c) ∧
      is_Some (cstr h (c_tag c)) ∧
      chain_owned h l'
  end.

(** The heap [h] without the deque at [q]: its nodes, their value cells and
    tags, and the deque record are gone, the rest is as in [h]. *)
Definition released (h : heap) (q s e sv ev : positive) (cs : list cell) : heap :=
  mk_heap (foldr delete (nodes h) (c_node <$> all_cells s e sv ev cs))
          (foldr delete (values h) (c_val <$> all_cells s e sv ev cs))
          (foldr delete (strs h) (omap c_tag cs))
          (delete q (deques h))
          (iters h).

(** The two heaps agree on everything but the iterators. *)
Definition same_but_iters (h1 h2 : heap) : Prop :=
  nodes h1 = nodes h2 ∧ values h1 = values h2 ∧ strs h1 = strs h2 ∧ deques h1 = deques h2.

(** ** The lock as other threads leave it *)

(** The heap [h] with the lock of the deque at [q] in the state [mu]: what
    this thread finds when other threads hold the lock. *)
Definition with_lock (mu : rwlock) (q : positive) (h : heap) : heap :=
  with_deques (alter (set_mutex mu) q) h.

(** ** Sequences of calls *)

(** The calls [add(x1); ...; add(xn)]. *)
Fixpoint add_all (deque : option positive) (xs : list item) : M unit :=
  match xs with
  | [] => ret tt
  | x :: xs' =>
      pgagroal_deque_add deque (i_tag x) (i_data x) (i_type x) ;;
      add_all deque xs'
  end.

(** [n] calls of [poll], each with a non-NULL [tag] argument. *)
Fixpoint poll_n (deque : option positive) (n : nat)
  : M (list (Z * option (option positive))) :=
  match n with
  | O => ret []
  | S n' =>
      r <- pgagroal_deque_poll deque true ;;
      rs <- poll_n deque n' ;;
      ret (r :: rs)
  end.

(** [n] calls of [pgagroal_deque_iterator_next] in a row. *)
Fixpoint iterator_next_n (iter : option positive) (n : nat) : M (list bool) :=
  match n with
  | O => ret []
  | S n' =>
      b <- pgagroal_deque_iterator_next iter ;;
      bs <- iterator_next_n iter n' ;;
      ret (b :: bs)
  end.

(** 2^32 - 1 adds of the payload 1: as many as [size] can count. *)
Definition max_items : list item :=
  replicate (Z.to_nat 4294967295) (mk_item None 1 ValueInt32).

(** 2^32 adds of the payload 1: one more than [size] can count. *)
Definition wrap_items : list item :=
  replicate (Z.to_nat 4294967296) (mk_item None 1 ValueInt32).

(** 2^32 adds of the payload 1 under the tag [a]. *)
Definition wrap_tagged_items : list item :=
  replicate (Z.to_nat 4294967296) (mk_item (Some "a"%string) 1 ValueInt32).

(** 2^32 + 1 adds: the payload 11, then 2^32 times the payload 1. *)
Definition over_items : list item := mk_item None 11 ValueInt32 :: wrap_items.

(** The caller's loop
    [while (pgagroal_deque_iterator_next(iter)) { ... iter->tag ... iter->value ... }]:
    the tag and value pointers the iterator exposes at each turn. *)
Fixpoint iterator_collect (fuel : nat) (iter : option positive)
  : M (list (option positive * option positive)) :=
  match fuel with
  | O => diverge
  | S fuel' =>
      b <- pgagroal_deque_iterator_next iter ;;
      if b : bool then
        t <- load_iter it_tag iter ;;
        v <- load_iter it_value iter ;;
        rest <- iterator_collect fuel' iter ;;
        ret ((t, v) :: rest)
      else ret []
  end.

(** The caller's loop
    [while (pgagroal_deque_iterator_next(iter))
       if (P(iter->tag, iter->value)) pgagroal_deque_iterator_remove(iter);]
    for a test [P] of the exposed tag string and value cell. *)
Fixpoint iterator_remove_if (P : option string → value → bool) (fuel : nat)
    (iter : option positive) : M unit :=
  match fuel with
  | O => diverge
  | S fuel' =>
      b <- pgagroal_deque_iterator_next iter ;;
      if b : bool then
        t <- load_iter it_tag iter ;;
        s <- read_cstr t ;;
        v <- load_iter it_value iter ;;
        vv <- load_value id v ;;
        (if P s vv then pgagroal_deque_iterator_remove iter else ret tt) ;;
        iterator_remove_if P fuel' iter
      else ret tt
  end.

(** The elements that [iterator_remove_if P] leaves in the deque. *)
Definition keep_item (P : option string → value → bool) (x : item) : bool :=
  negb (P (i_tag x) (mk_value (i_type x) (i_data x))).

(** The calls a producer or a consumer makes. *)
Inductive op : Type :=
| OpAdd (x : item)
| OpPoll
| OpPeek
| OpGet (tag : option string)
| OpSize
| OpEmpty.

(** What a call returns: a number, a truth value, or a payload with what was
    written to [*tag]. *)
Inductive answer : Type :=
| AInt (z : Z)
| ABool (b : bool)
| AData (z : Z) (tag : option (option positive)).

Definition run_op (deque : option positive) (o : op) : M answer :=
  match o with
  | OpAdd x =>
      r <- pgagroal_deque_add deque (i_tag x) (i_data x) (i_type x) ;; ret (AInt r)
  | OpPoll => r <- pgagroal_deque_poll deque true ;; ret (AData (fst r) (snd r))
  | OpPeek => r <- pgagroal_deque_peek deque true ;; ret (AData (fst r) (snd r))
  | OpGet tag => r <- pgagroal_deque_get deque tag ;; ret (AInt r)
  | OpSize => r <- pgagroal_deque_size deque ;; ret (AInt r)
  | OpEmpty => r <- pgagroal_deque_empty deque ;; ret (ABool r)
  end.

Fixpoint run_ops (deque : option positive) (os : list op) : M (list answer) :=
  match os with
  | [] => ret []
  | o :: os' =>
      a <- run_op deque o ;;
      rest <- run_ops deque os' ;;
      ret (a :: rest)
  end.

(** ** Lookup by tag in the spec's words *)

(** What the spec says [get] returns: the payload of the first element, front
    to back, whose tag equals the argument, and 0 when no element matches or
    the tag is empty (or [NULL]). *)
Definition get_spec (tag : option string) (xs : list item) : Z :=
  match tag with
  | None => 0
  | Some t =>
      if bool_decide (t = EmptyString) then 0 else
      match List.find (λ x, bool_decide (i_tag x = Some t)) xs with
      | Some x => i_data x
      | None => 0
      end
  end.

(** ** The JSON rendering in the spec's words *)

(** [indent] spaces. *)
Definition spaces (indent : Z) : string :=
  Nat.iter (Z.to_nat indent) (λ s, s +:+ " ")%string EmptyString.

(** The label of an element: its tag, a colon and a space. *)
Definition json_label (tag : option string) : option string :=
  match tag with
  | Some t => Some (t +:+ ": ")%string
  | None => None
  end.

Section json_spec.
Variable FORMAT_JSON : Z.
Variable INDENT_PER_LEVEL : Z.
Variable value_to_string : value → Z → option string → Z → option string.

(** One element, rendered by the value cell one level deeper, with its label
    when it has a tag. *)
Definition json_element (indent : Z) (x : item) : string :=
  default EmptyString
    (value_to_string (mk_value (i_type x) (i_data x)) FORMAT_JSON
       (json_label (i_tag x)) (indent + INDENT_PER_LEVEL)).

(** The elements in insertion order, a comma and a newline between two of
    them, a newline after the last. *)
Fixpoint json_elements (indent : Z) (xs : list item) : string :=
  match xs with
  | [] => EmptyString
  | x :: xs' =>
      (json_element indent x
       +:+ (match xs' with [] => newline | _ :: _ => "," +:+ newline end)
       +:+ json_elements indent xs')%string
  end.

(** The array: the context tag after its indentation, then [[]] for no
    element, and the bracketed elements otherwise. *)
Definition json_spec (tag : option string) (indent : Z) (xs : list item) : string :=
  (default EmptyString (pgagroal_indent None tag indent)
   +:+ match xs with
       | [] => "[]"
       | _ :: _ => "[" +:+ newline +:+ json_elements indent xs +:+ spaces indent +:+ "]"
       end)%string.

End json_spec.

(** A renderer for examples: indentation, label, then the payload as one
    digit. *)
Definition digit_to_string (v : value) (format : Z) (tag : option string) (indent : Z)
  : option string :=
  pgagroal_append (pgagroal_indent None tag indent)
    (Some (String (ascii_of_nat (48 + Z.to_nat (v_data v))) EmptyString)).

(** ** The text rendering, element by element *)

Section text_spec.
Variable FORMAT_TEXT : Z.
Variable INDENT_PER_LEVEL : Z.
Variable BULLET_POINT : string.
Variable value_to_string : value → Z → option string → Z → option string.








End text_spec.

(** ** The deque as a queue *)

(** The same calls on a list used as a first-in first-out queue: what each
    call is expected to return, with tags as strings. *)
Inductive expected : Type :=
| EInt (z : Z)
| EBool (b : bool)
| EData (z : Z) (tag : option (option string)).

Definition queue_op (xs : list item) (o : op) : list item * expected :=
  match o with
  | OpAdd x => (xs ++ [x], EInt 0)
  | OpPoll =>
      match xs with
      | [] => ([], EData 0 None)
      | x :: xs' => (xs', EData (i_data x) (Some (i_tag x)))
      end
  | OpPeek =>
      match xs with
      | [] => ([], EData 0 None)
      | x :: _ => (xs, EData (i_data x) (Some (i_tag x)))
      end
  | OpGet tag => (xs, EInt (get_spec tag xs))
  | OpSize => (xs, EInt (Z.of_nat (length xs)))
  | OpEmpty => (xs, EBool (Z.of_nat (length xs) =? 0))
  end.

Fixpoint queue_ops (xs : list item) (os : list op) : list item * list expected :=
  match os with
  | [] => (xs, [])
  | o :: os' =>
      let r := queue_op xs o in
      let rest := queue_ops (fst r) os' in
      (fst rest, snd r :: snd rest)
  end.

(** The number of adds among the calls. *)
Fixpoint count_adds (os : list op) : nat :=
  match os with
  | [] => O
  | OpAdd _ :: os' => S (count_adds os')
  | _ :: os' => count_adds os'
  end.

(** An answer agrees with the expected one when the numbers are equal and a
    tag pointer that was handed out points to the expected string. *)
Definition agrees (h : heap) (a : answer) (e : expected) : Prop :=
  match a, e with
  | AInt z, EInt z' => z = z'
  | ABool b, EBool b' => b = b'
  | AData z None, EData z' None => z = z'
  | AData z (Some p), EData z' (Some t) => z = z' ∧ cstr h p = Some t
  | _, _ => False
  end.

(** ** Symbolic execution *)

Lemma bind_Ok {A B} (m : M A) (k : A → M B) h a h1 r :
  m h = Ok a h1 → k a h1 = r → bind m k h = r.
Proof. intros Hm Hk. unfold bind. rewrite Hm. exact Hk. Qed.

Lemma bind_assoc {A B C} (m : M A) (k1 : A → M B) (k2 : B → M C) h :
  bind (bind m k1) k2 h = bind m (λ x, bind (k1 x) k2) h.
Proof. unfold bind. by destruct (m h). Qed.

Lemma ret_Ok {A} (a : A) h : ret a h = Ok a h.
Proof. reflexivity. Qed.

Lemma load_node_Ok {A} (f : deque_node → A) a h n :
  nodes h !! a = Some n → load_node f (Some a) h = Ok (f n) h.
Proof. intros H. unfold load_node. by rewrite H. Qed.

Lemma store_node_Ok (f : deque_node → deque_node) a h n :
  nodes h !! a = Some n → store_node f (Some a) h = Ok tt (with_nodes (alter f a) h).
Proof. intros H. unfold store_node. by rewrite H. Qed.

Lemma load_deque_Ok {A} (f : deque → A) a h d :
  deques h !! a = Some d → load_deque f (Some a) h = Ok (f d) h.
Proof. intros H. unfold load_deque. by rewrite H. Qed.

Lemma store_deque_Ok (f : deque → deque) a h d :
  deques h !! a = Some d → store_deque f (Some a) h = Ok tt (with_deques (alter f a) h).
Proof. intros H. unfold store_deque. by rewrite H. Qed.

Lemma load_iter_Ok {A} (f : deque_iterator → A) a h i :
  iters h !! a = Some i → load_iter f (Some a) h = Ok (f i) h.
Proof. intros H. unfold load_iter. by rewrite H. Qed.

Lemma store_iter_Ok (f : deque_iterator → deque_iterator) a h i :
  iters h !! a = Some i → store_iter f (Some a) h = Ok tt (with_iters (alter f a) h).
Proof. intros H. unfold store_iter. by rewrite H. Qed.

Lemma load_value_Ok {A} (f : value → A) a h v :
  values h !! a = Some v → load_value f (Some a) h = Ok (f v) h.
Proof. intros H. unfold load_value. by rewrite H. Qed.

Lemma load_str_Ok a h s :
  strs h !! a = Some s → load_str (Some a) h = Ok s h.
Proof. intros H. unfold load_str. by rewrite H. Qed.

Lemma free_node_Ok a h n :
  nodes h !! a = Some n → free_node (Some a) h = Ok tt (with_nodes (delete a) h).
Proof. intros H. unfold free_node. by rewrite H. Qed.

Lemma free_value_Ok a h v :
  values h !! a = Some v → free_value (Some a) h = Ok tt (with_values (delete a) h).
Proof. intros H. unfold free_value. by rewrite H. Qed.

Lemma free_str_Ok a h s :
  strs h !! a = Some s → free_str (Some a) h = Ok tt (with_strs (delete a) h).
Proof. intros H. unfold free_str. by rewrite H. Qed.

Lemma ptr_eqb_refl p : ptr_eqb p p = true.
Proof. unfold ptr_eqb. by apply bool_decide_eq_true. Qed.

Lemma ptr_eqb_ne (a b : positive) : a ≠ b → ptr_eqb (Some a) (Some b) = false.
Proof. intros H. unfold ptr_eqb. apply bool_decide_eq_false. congruence. Qed.

Ltac heap_simpl :=
  cbn [nodes values strs deques iters
       with_nodes with_values with_strs with_deques with_iters].

Ltac rec_simpl :=
  cbn [n_data n_tag n_prev n_next set_data set_tag set_prev set_next
       dq_size dq_thread_safe dq_mutex dq_start dq_end
       set_size set_thread_safe set_mutex set_start set_end
       it_deque it_cur it_tag it_value
       set_it_deque set_it_cur set_it_tag set_it_value
       v_type v_data c_node c_val c_tag i_tag i_data i_type
       fst snd negb NULL].

(** Lookups in a heap that was updated at known addresses. *)
Ltac lk :=
  repeat first
    [ rewrite lookup_alter_eq
    | rewrite lookup_alter_ne by congruence
    | rewrite lookup_insert_eq
    | rewrite lookup_insert_ne by congruence
    | rewrite lookup_delete_eq
    | rewrite lookup_delete_ne by congruence ].

Ltac base :=
  repeat match goal with
         | H : ?m !! ?a = _ |- context [?m !! ?a] => rewrite H
         end.

Ltac solve_lookup :=
  heap_simpl; lk; base; rec_simpl; cbn [fmap option_fmap option_map]; rec_simpl;
  reflexivity.

(** One statement of the C code. *)
Ltac step :=
  lazymatch goal with
  | |- bind (load_node _ (Some _)) _ _ = _ =>
      eapply bind_Ok; [eapply load_node_Ok; solve_lookup | rec_simpl]
  | |- bind (store_node _ (Some _)) _ _ = _ =>
      eapply bind_Ok; [eapply store_node_Ok; solve_lookup | rec_simpl]
  | |- bind (load_deque _ (Some _)) _ _ = _ =>
      eapply bind_Ok; [eapply load_deque_Ok; solve_lookup | rec_simpl]
  | |- bind (store_deque _ (Some _)) _ _ = _ =>
      eapply bind_Ok; [eapply store_deque_Ok; solve_lookup | rec_simpl]
  | |- bind (load_iter _ (Some _)) _ _ = _ =>
      eapply bind_Ok; [eapply load_iter_Ok; solve_lookup | rec_simpl]
  | |- bind (store_iter _ (Some _)) _ _ = _ =>
      eapply bind_Ok; [eapply store_iter_Ok; solve_lookup | rec_simpl]
  | |- bind (load_value _ (Some _)) _ _ = _ =>
      eapply bind_Ok; [eapply load_value_Ok; solve_lookup | rec_simpl]
  | |- bind (load_str (Some _)) _ _ = _ =>
      eapply bind_Ok; [eapply load_str_Ok; solve_lookup | rec_simpl]
  | |- bind (free_node (Some _)) _ _ = _ =>
      eapply bind_Ok; [eapply free_node_Ok; solve_lookup | rec_simpl]
  | |- bind (free_value (Some _)) _ _ = _ =>
      eapply bind_Ok; [eapply free_value_Ok; solve_lookup | rec_simpl]
  | |- bind (free_str (Some _)) _ _ = _ =>
      eapply bind_Ok; [eapply free_str_Ok; solve_lookup | rec_simpl]
  | |- bind (ret _) _ _ = _ =>
      eapply bind_Ok; [apply ret_Ok | rec_simpl]
  | |- bind (bind _ _) _ _ = _ => rewrite bind_assoc
  end.

(** Calls that are unfolded in place. *)
Ltac lock_step :=
  lazymatch goal with
  | |- bind (deque_read_lock (Some _)) _ _ = _ =>
      unfold deque_read_lock, pthread_rwlock_rdlock
  | |- bind (deque_write_lock (Some _)) _ _ = _ =>
      unfold deque_write_lock, pthread_rwlock_wrlock
  | |- bind (deque_unlock (Some _)) _ _ = _ =>
      unfold deque_unlock, pthread_rwlock_unlock
  | |- deque_unlock (Some _) _ = _ =>
      unfold deque_unlock, pthread_rwlock_unlock
  | |- bind (pgagroal_value_data _) _ _ = _ => unfold pgagroal_value_data
  | |- bind (pgagroal_value_destroy _) _ _ = _ => unfold pgagroal_value_destroy
  | |- pgagroal_value_data _ _ = _ => unfold pgagroal_value_data
  end.

(** The last statement. *)
Ltac finish :=
  lazymatch goal with
  | |- store_deque _ (Some _) _ = _ => eapply store_deque_Ok; solve_lookup
  | |- store_iter _ (Some _) _ = _ => eapply store_iter_Ok; solve_lookup
  | |- store_node _ (Some _) _ = _ => eapply store_node_Ok; solve_lookup
  | |- load_value _ (Some _) _ = _ => eapply load_value_Ok; solve_lookup
  | |- free_node (Some _) _ = _ => eapply free_node_Ok; solve_lookup
  | |- ret _ _ = _ => reflexivity
  end.

Ltac steps := repeat first [step | lock_step]; try finish.

(** ** Node creation *)

Lemma fresh_lookup {A} (m : gmap positive A) : m !! fresh (dom m) = None.
Proof. apply not_elem_of_dom. apply is_fresh. Qed.

Lemma deque_node_create_Ok data type tag h :
  let n := fresh (dom (nodes h)) in
  let v := fresh (dom (values h)) in
  let t := fresh (dom (strs h)) in
  deque_node_create data type tag h =
    Ok (Some n)
       (mk_heap (<[n := mk_node (Some v) (if tag is Some _ then Some t else None) None None]> (nodes h))
                (<[v := mk_value type data]> (values h))
                (match tag with Some s => <[t := s]> (strs h) | None => strs h end)
                (deques h) (iters h)).
Proof.
  intros n v t. unfold deque_node_create, pgagroal_value_create.
  eapply bind_Ok; [reflexivity|]. fold n. cbn beta.
  eapply bind_Ok; [reflexivity|]. heap_simpl. fold v. cbn beta.
  step. destruct tag as [s|].
  - rewrite bind_assoc. eapply bind_Ok; [reflexivity|]. heap_simpl. fold t.
    step. unfold ret. f_equal. unfold with_nodes; cbn. f_equal.
    apply map_eq. intros x. destruct (decide (x = n)) as [->|Hx]; lk; done.
  - step. unfold ret. f_equal. unfold with_nodes; cbn. f_equal.
    apply map_eq. intros x. destruct (decide (x = n)) as [->|Hx]; lk; done.
Qed.

(** ** Linked lists of nodes *)

Lemma linked_cons N a l :
  linked N (a :: l) ↔ (∀ b, head l = Some b → link N a b) ∧ linked N l.
Proof.
  destruct l as [|b l]; cbn.
  - split; [intros _; split; [intros ? [=]|done]|done].
  - split.
    + intros [H1 H2]. split; [by intros ? [= <-]|done].
    + intros [H1 H2]. split; [by apply H1|done].
Qed.

Lemma linked_app N l1 l2 :
  linked N (l1 ++ l2) ↔
  linked N l1 ∧ linked N l2 ∧
  (∀ p q, last l1 = Some p → head l2 = Some q → link N p q).
Proof.
  induction l1 as [|a l1 IH].
  - cbn. split; [intros H; split_and!; [done|done|intros ?? [=]]|by intros (_&?&_)].
  - rewrite <-app_comm_cons. rewrite !linked_cons, IH. split.
    + intros (Ha & H1 & H2 & H3). split_and!; try done.
      * intros b Hb. apply Ha. destruct l1; [done|by cbn in *].
      * intros p q Hp Hq. destruct l1 as [|b l1].
        -- cbn in Hp. injection Hp as <-. by apply Ha.
        -- rewrite last_cons_cons in Hp. by apply H3.
    + intros ((Ha & H1) & H2 & H3). split_and!; try done.
      * intros b Hb. destruct l1 as [|c l1].
        -- cbn in Hb. by apply H3.
        -- cbn in Hb. by apply Ha.
      * intros p q Hp Hq. apply H3; [|done]. destruct l1; [done|by rewrite last_cons_cons].
Qed.

Lemma linked_frame N N' l :
  NoDup l →
  (∀ x, x ∈ l → last l ≠ Some x → n_next <$> N' !! x = n_next <$> N !! x) →
  (∀ y, y ∈ l → head l ≠ Some y → n_prev <$> N' !! y = n_prev <$> N !! y) →
  linked N l → linked N' l.
Proof.
  induction l as [|a l IH]; [done|].
  intros Hnd Hn Hp. rewrite !linked_cons. intros [Ha Hl].
  apply NoDup_cons in Hnd as [Hal Hnd]. split.
  - intros b Hb. destruct (Ha b Hb) as [H1 H2].
    assert (b ∈ l) as Hbl by (destruct l; [done|]; cbn in Hb; injection Hb as ->; left).
    split.
    + rewrite Hn; [done|left|]. intros Hlast. apply Hal.
      destruct l as [|c l]; [done|]. rewrite last_cons_cons in Hlast.
      by apply last_Some_elem_of.
    + rewrite Hp; [done|by right|]. cbn. intros [= ->]. done.
  - apply IH; [done| | |done].
    + intros x Hx Hlast. apply Hn; [by right|].
      destruct l as [|c l]; [by apply elem_of_nil in Hx|]. by rewrite last_cons_cons.
    + intros y Hy Hhead. apply Hp; [by right|]. cbn. intros [= ->]. done.
Qed.

Lemma linked_lookup_next N l1 a b l2 :
  linked N (l1 ++ a :: b :: l2) → n_next <$> N !! a = Some (Some b).
Proof.
  rewrite linked_app. intros (_ & H & _). cbn in H. by destruct H as [[? _] _].
Qed.

Lemma linked_lookup_prev N l1 a b l2 :
  linked N (l1 ++ a :: b :: l2) → n_prev <$> N !! b = Some (Some a).
Proof.
  rewrite linked_app. intros (_ & H & _). cbn in H. by destruct H as [[_ ?] _].
Qed.

Lemma create_Ok ts h :
  ∃ q s e h',
    pgagroal_deque_create ts h = Ok (0, Some q) h' ∧
    deque_inv h' q ts s e [] [] ∧
    deques h !! q = None.
Proof.
  unfold pgagroal_deque_create.
  set (q := fresh (dom (deques h))).
  assert (deques h !! q = None) as Hq by apply fresh_lookup.
  set (s := fresh (dom (nodes h))).
  set (vs := fresh (dom (values h))).
  remember (fresh (dom (<[s := mk_node (Some vs) None None None]> (nodes h)))) as e eqn:Ee.
  assert (<[s := mk_node (Some vs) None None None]> (nodes h) !! e = None) as He
    by (subst e; apply fresh_lookup).
  assert (s ≠ e) as Hse.
  { intros <-. by rewrite lookup_insert_eq in He. }
  exists q, s, e. eexists. split; [|split; [|done]].
  - eapply bind_Ok; [reflexivity|]. fold q. cbn beta.
    step. step.
    eapply bind_Ok.
    { instantiate (2 := tt).
      instantiate (1 := with_deques (alter (set_mutex (if ts then LockFree else LockUninit)) q) _).
      destruct ts.
      - unfold pthread_rwlock_init. eapply store_deque_Ok. solve_lookup.
      - unfold ret. f_equal. unfold with_deques. cbn. f_equal.
        apply map_eq. intros x. destruct (decide (x = q)) as [->|]; lk; done. }
    cbn beta.
    eapply bind_Ok; [apply deque_node_create_Ok|]. heap_simpl. fold s vs. cbn beta.
    step.
    eapply bind_Ok; [apply deque_node_create_Ok|]. heap_simpl. rewrite <-Ee. cbn beta.
    do 7 step. reflexivity.
  - split; [|cbn; lia]. split; cbn [fmap list_fmap app omap list_omap length Z.of_nat].
    + exists (if ts then LockFree else LockUninit). split; [solve_lookup|].
      by intros ->.
    + lia.
    + apply NoDup_cons. split; [by apply not_elem_of_cons; split; [|apply not_elem_of_nil]|].
      apply NoDup_singleton.
    + cbn. split; [|done]. split; solve_lookup.
    + apply NoDup_nil_2.
    + apply NoDup_nil_2.
    + constructor.
Qed.

Lemma fmap_Some_inv {A B} (f : A → B) (o : option A) b :
  f <$> o = Some b → ∃ a, o = Some a ∧ f a = b.
Proof. destruct o; cbn; [intros [= <-]; eauto|done]. Qed.

Lemma linked_alloc N l x :
  linked N l → (2 ≤ length l)%nat → x ∈ l → is_Some (N !! x).
Proof.
  induction l as [|a l IH]; [by intros _ _ ?%elem_of_nil|].
  destruct l as [|b l]; [cbn; lia|].
  intros [[Ha Hb] Hl] _ Hx.
  apply elem_of_cons in Hx as [->|Hx].
  { apply fmap_Some_inv in Ha as (?&->&_). eauto. }
  destruct l as [|c l].
  - apply list_elem_of_singleton in Hx as ->.
    apply fmap_Some_inv in Hb as (?&->&_). eauto.
  - apply IH; [done|cbn; lia|done].
Qed.

Lemma cell_holds_frame h h' c x :
  n_data <$> nodes h' !! c_node c = n_data <$> nodes h !! c_node c →
  n_tag <$> nodes h' !! c_node c = n_tag <$> nodes h !! c_node c →
  values h' !! c_val c = values h !! c_val c →
  cstr h' (c_tag c) = cstr h (c_tag c) →
  cell_holds h c x → cell_holds h' c x.
Proof.
  intros H1 H2 H3 H4 (?&?&?&?). unfold cell_holds. by rewrite H1, H2, H3, H4.
Qed.

Lemma cells_frame h h' cs xs :
  (∀ c, c ∈ cs →
     n_data <$> nodes h' !! c_node c = n_data <$> nodes h !! c_node c ∧
     n_tag <$> nodes h' !! c_node c = n_tag <$> nodes h !! c_node c ∧
     values h' !! c_val c = values h !! c_val c ∧
     cstr h' (c_tag c) = cstr h (c_tag c)) →
  Forall2 (cell_holds h) cs xs → Forall2 (cell_holds h') cs xs.
Proof.
  intros Hfr HF. induction HF as [|c x cs xs Hc HF IH]; [constructor|].
  constructor.
  - destruct (Hfr c) as (?&?&?&?); [left|]. by eapply cell_holds_frame.
  - apply IH. intros c' Hc'. apply Hfr. by right.
Qed.

Lemma cells_vals_alloc h cs xs v :
  Forall2 (cell_holds h) cs xs → v ∈ c_val <$> cs → is_Some (values h !! v).
Proof.
  intros HF. induction HF as [|c x cs xs Hc HF IH]; cbn.
  - by intros ?%elem_of_nil.
  - intros [->|?]%elem_of_cons; [|by apply IH].
    destruct Hc as (_&_&?&_). eauto.
Qed.

Lemma cells_tags_alloc h cs xs t :
  Forall2 (cell_holds h) cs xs → t ∈ omap c_tag cs → is_Some (strs h !! t).
Proof.
  intros HF. induction HF as [|c x cs xs Hc HF IH]; cbn.
  - by intros ?%elem_of_nil.
  - destruct Hc as (_&_&_&Hc). destruct (c_tag c) as [t'|] eqn:Et; [|by apply IH].
    intros [->|?]%elem_of_cons; [|by apply IH].
    cbn in Hc. apply fmap_Some_inv in Hc as (?&->&_). eauto.
Qed.

Lemma cells_length h cs xs : Forall2 (cell_holds h) cs xs → length cs = length xs.
Proof. apply Forall2_length. Qed.

(** The chain of a deque: facts used by every operation. *)
Lemma rep_chain_alloc h q ts s e sz cs xs x :
  deque_rep h q ts s e sz cs xs →
  x ∈ s :: (c_node <$> cs) ++ [e] → is_Some (nodes h !! x).
Proof.
  intros H Hx. eapply linked_alloc; [apply H| |done].
  cbn. rewrite length_app. cbn. lia.
Qed.

Lemma rep_last h q ts s e sz cs xs :
  deque_rep h q ts s e sz cs xs →
  ∃ P l, s :: (c_node <$> cs) = P ++ [l] ∧
         n_next <$> nodes h !! l = Some (Some e) ∧
         n_prev <$> nodes h !! e = Some (Some l).
Proof.
  intros H.
  destruct (last (s :: (c_node <$> cs))) as [l|] eqn:El.
  2:{ apply last_None in El. done. }
  apply last_Some in El as [P EP]. exists P, l. split; [done|].
  pose proof (rep_linked _ _ _ _ _ _ _ _ H) as HL.
  rewrite app_comm_cons, EP, <-app_assoc in HL. cbn in HL.
  split; [by eapply (linked_lookup_next _ P l e [])|by eapply (linked_lookup_prev _ P l e [])].
Qed.

Lemma not_elem_of_list_singleton {A} (x y : A) : x ≠ y → x ∉ [y].
Proof. intros H ?%list_elem_of_singleton. done. Qed.

Lemma wrap32_range z : 0 ≤ wrap32 z < 4294967296.
Proof. unfold wrap32. apply Z.mod_pos_bound. lia. Qed.

Lemma offer_exact h q ts s e sz cs xs tag data type :
  deque_rep h q ts s e sz cs xs →
  ∃ l mu h',
    last (s :: (c_node <$> cs)) = Some l ∧
    deques h !! q = Some (mk_deque sz ts mu (Some s) (Some e)) ∧
    deque_offer (Some q) tag data type h = Ok tt h' ∧
    deque_rep h' q ts s e (wrap32 (sz + 1)) (cs ++ [new_cell h tag])
      (xs ++ [mk_item tag data type]) ∧
    nodes h' = alter (set_prev (Some (c_node (new_cell h tag)))) e
                 (alter (set_next (Some e)) (c_node (new_cell h tag))
                    (alter (set_prev (Some l)) (c_node (new_cell h tag))
                       (alter (set_next (Some (c_node (new_cell h tag)))) l
                          (<[c_node (new_cell h tag) :=
                               mk_node (Some (c_val (new_cell h tag)))
                                 (c_tag (new_cell h tag)) None None]> (nodes h))))) ∧
    values h' = <[c_val (new_cell h tag) := mk_value type data]> (values h) ∧
    strs h' = match tag, c_tag (new_cell h tag) with
              | Some s0, Some t => <[t := s0]> (strs h)
              | _, _ => strs h
              end ∧
    deques h' = <[q := mk_deque (wrap32 (sz + 1)) ts mu (Some s) (Some e)]> (deques h) ∧
    iters h' = iters h.
Proof.
  intros Hrep.
  destruct (rep_last _ _ _ _ _ _ _ _ Hrep) as (P & l & EP & Hln & Hep).
  destruct (rep_deque _ _ _ _ _ _ _ _ Hrep) as (mu & Hd & Hmu).
  unfold new_cell. rec_simpl.
  set (n := fresh (dom (nodes h))).
  assert (nodes h !! n = None) as Hn by apply fresh_lookup.
  set (v := fresh (dom (values h))).
  assert (values h !! v = None) as Hv by apply fresh_lookup.
  set (t := fresh (dom (strs h))).
  assert (strs h !! t = None) as Ht by apply fresh_lookup.
  apply fmap_Some_inv in Hln as ([ld lt lp ln] & Hl & Hln). cbn in Hln. subst ln.
  apply fmap_Some_inv in Hep as ([ed et ep en] & He & Hep). cbn in Hep. subst ep.
  assert (n ≠ l) as Hnl by (intros <-; congruence).
  assert (n ≠ e) as Hne by (intros <-; congruence).
  pose proof (rep_nodup _ _ _ _ _ _ _ _ Hrep) as Hnd.
  rewrite app_comm_cons, EP in Hnd.
  assert (l ≠ e) as Hle.
  { apply NoDup_app in Hnd as (_ & Hnd & _).
    intros <-. apply (Hnd l); [apply elem_of_app; right; left|left]. }
  assert (∀ x, x ∈ P ++ [l] → n ≠ x) as Hfresh.
  { intros x Hx <-. rewrite <-EP in Hx.
    destruct (rep_chain_alloc _ _ _ _ _ _ _ _ n Hrep) as [? ?]; [|congruence].
    rewrite app_comm_cons. apply elem_of_app. by left. }
  exists l, mu.
  assert (∀ h',
    nodes h' = alter (set_prev (Some n)) e (alter (set_next (Some e)) n
                 (alter (set_prev (Some l)) n (alter (set_next (Some n)) l
                   (<[n := mk_node (Some v) (if tag is Some _ then Some t else None) None None]>
                      (nodes h))))) →
    values h' = <[v := mk_value type data]> (values h) →
    strs h' = match tag with Some s0 => <[t:=s0]> (strs h) | None => strs h end →
    (∃ mu', deques h' !! q = Some (mk_deque (wrap32 (sz + 1)) ts mu' (Some s) (Some e)) ∧
            (ts = true → mu' = LockFree)) →
    deque_rep h' q ts s e (wrap32 (sz + 1))
      (cs ++ [mk_cell n v (if tag is Some _ then Some t else None)])
      (xs ++ [mk_item tag data type])) as Hgoal.
  { intros h' HN HV HS HD. split.
    - done.
    - apply wrap32_range.
    - rewrite fmap_app, fmap_cons, fmap_nil. cbn [c_node].
      rewrite <-app_assoc, app_comm_cons, EP. cbn [app].
      apply NoDup_app in Hnd as (HP & Hdis & _).
      apply NoDup_app. split; [done|]. split.
      + intros x Hx. rewrite !not_elem_of_cons. split_and!.
        * by apply not_eq_sym, Hfresh.
        * intros ->. by apply (Hdis e); [|left].
        * apply not_elem_of_nil.
      + apply NoDup_cons. split; [|apply NoDup_singleton].
        by apply not_elem_of_list_singleton.
    - rewrite fmap_app, fmap_cons, fmap_nil. cbn [c_node].
      rewrite <-app_assoc, app_comm_cons, EP. cbn [app].
      pose proof (rep_linked _ _ _ _ _ _ _ _ Hrep) as HL.
      rewrite app_comm_cons, EP in HL.
      apply linked_app in HL as (HL & _ & _).
      apply linked_app. split_and!.
      + apply NoDup_app in Hnd as (HP & Hdis & _).
        eapply linked_frame; [done| | |exact HL].
        * intros x Hx Hlast. rewrite last_snoc in Hlast.
          assert (x ≠ l) by congruence.
          assert (x ≠ e) by (intros ->; by apply (Hdis e); [|left]).
          pose proof (Hfresh x Hx). rewrite HN. by lk.
        * intros y Hy _.
          assert (y ≠ e) by (intros ->; by apply (Hdis e); [|left]).
          pose proof (Hfresh y Hy). rewrite HN. lk.
          destruct (decide (l = y)) as [->|]; lk; [|done].
          by destruct (nodes h !! y).
      + cbn. split; [|done]. rewrite HN. split; solve_lookup.
      + intros p p' Hp Hp'. rewrite last_snoc in Hp. cbn in Hp'.
        injection Hp as <-. injection Hp' as <-. rewrite HN. split; solve_lookup.
    - rewrite fmap_app. cbn. apply NoDup_app. split; [apply Hrep|]. split.
      + intros x Hx. apply not_elem_of_list_singleton. intros ->.
        destruct (cells_vals_alloc _ _ _ _ (rep_cells _ _ _ _ _ _ _ _ Hrep) Hx). congruence.
      + apply NoDup_singleton.
    - rewrite omap_app. apply NoDup_app. split; [apply Hrep|]. split.
      + intros x Hx. cbn. destruct tag; cbn; [|apply not_elem_of_nil].
        apply not_elem_of_list_singleton. intros ->.
        destruct (cells_tags_alloc _ _ _ _ (rep_cells _ _ _ _ _ _ _ _ Hrep) Hx). congruence.
      + cbn. destruct tag; cbn; [apply NoDup_singleton|apply NoDup_nil_2].
    - apply Forall2_app.
      + eapply cells_frame; [|apply Hrep]. intros c Hc.
        assert (c_node c ∈ P ++ [l]) as Hcn.
        { rewrite <-EP. right. by apply list_elem_of_fmap_2. }
        pose proof (Hfresh _ Hcn).
        assert (c_node c ≠ e).
        { apply NoDup_app in Hnd as (_ & Hdis & _).
          intros Heq. apply (Hdis _ Hcn). rewrite Heq. left. }
        split_and!.
        * rewrite HN. lk. destruct (decide (l = c_node c)) as [->|]; lk; [|done].
          by destruct (nodes h !! c_node c).
        * rewrite HN. lk. destruct (decide (l = c_node c)) as [->|]; lk; [|done].
          by destruct (nodes h !! c_node c).
        * rewrite HV. apply lookup_insert_ne. intros Heq.
          destruct (cells_vals_alloc _ _ _ (c_val c) (rep_cells _ _ _ _ _ _ _ _ Hrep))
            as [? Hx]; [by apply list_elem_of_fmap_2|]. rewrite <-Heq in Hx. congruence.
        * destruct (c_tag c) as [tc|] eqn:Etc; [|done]. cbn. rewrite HS.
          destruct tag; [|done]. rewrite lookup_insert_ne; [done|]. intros <-.
          destruct (cells_tags_alloc _ _ _ t (rep_cells _ _ _ _ _ _ _ _ Hrep));
            [apply list_elem_of_omap; eauto|congruence].
      + constructor; [|constructor]. unfold cell_holds. rec_simpl. rewrite HN, HV.
        split_and!; try solve_lookup.
        destruct tag; cbn [cstr]; [rewrite HS; by rewrite lookup_insert_eq|done]. }
  assert (last (s :: (c_node <$> cs)) = Some l) as Hlast by (rewrite EP; apply last_snoc).
  destruct ts; [pose proof (Hmu eq_refl) as ->|]; eexists;
    (split; [exact Hlast|]); (split; [exact Hd|]); (split; [|split; [|split; [|split; [|split; [|split]]]]]).
  - unfold deque_offer.
    eapply bind_Ok; [apply deque_node_create_Ok|]. heap_simpl. fold n v t. cbn beta.
    steps.
  - apply Hgoal; try reflexivity. exists LockFree. split; [solve_lookup|done].
  - reflexivity.
  - reflexivity.
  - heap_simpl. by destruct tag.
  - heap_simpl. apply map_eq. intros k. destruct (decide (k = q)) as [->|]; lk; base; done.
  - reflexivity.
  - unfold deque_offer.
    eapply bind_Ok; [apply deque_node_create_Ok|]. heap_simpl. fold n v t. cbn beta.
    steps.
  - apply Hgoal; try reflexivity. exists mu. split; [solve_lookup|done].
  - reflexivity.
  - reflexivity.
  - heap_simpl. by destruct tag.
  - heap_simpl. apply map_eq. intros k. destruct (decide (k = q)) as [->|]; lk; base; done.
  - reflexivity.
Qed.

Lemma offer_rep h q ts s e sz cs xs tag data type :
  deque_rep h q ts s e sz cs xs →
  ∃ c h',
    deque_offer (Some q) tag data type h = Ok tt h' ∧
    deque_rep h' q ts s e (wrap32 (sz + 1)) (cs ++ [c])
      (xs ++ [mk_item tag data type]) ∧
    iters h' = iters h.
Proof.
  intros Hrep.
  destruct (offer_exact _ _ _ _ _ _ _ _ tag data type Hrep)
    as (l & mu & h' & _ & _ & Hex & Hrep' & _ & _ & _ & _ & HI).
  by exists (new_cell h tag), h'.
Qed.

(** ** Unlinking a node *)

Lemma rep_neighbours h q ts s e sz cs1 c cs2 xs :
  deque_rep h q ts s e sz (cs1 ++ c :: cs2) xs →
  ∃ P p S nx,
    s :: (c_node <$> cs1) = P ++ [p] ∧ (c_node <$> cs2) ++ [e] = nx :: S ∧
    n_prev <$> nodes h !! c_node c = Some (Some p) ∧
    n_next <$> nodes h !! c_node c = Some (Some nx) ∧
    n_next <$> nodes h !! p = Some (Some (c_node c)) ∧
    n_prev <$> nodes h !! nx = Some (Some (c_node c)) ∧
    NoDup ((P ++ [p]) ++ c_node c :: nx :: S) ∧
    linked (nodes h) (P ++ [p]) ∧ linked (nodes h) (nx :: S).
Proof.
  intros H.
  destruct (last (s :: (c_node <$> cs1))) as [p|] eqn:Ep.
  2:{ by apply last_None in Ep. }
  apply last_Some in Ep as [P EP].
  destruct (head ((c_node <$> cs2) ++ [e])) as [nx|] eqn:Enx.
  2:{ apply head_None in Enx. by destruct (c_node <$> cs2). }
  apply head_Some in Enx as [S ES].
  exists P, p, S, nx.
  pose proof (rep_linked _ _ _ _ _ _ _ _ H) as HL.
  pose proof (rep_nodup _ _ _ _ _ _ _ _ H) as HN.
  rewrite fmap_app, fmap_cons, <-app_assoc, <-app_comm_cons, app_comm_cons in HL, HN.
  rewrite EP, ES in HL, HN. rewrite <-app_assoc in HL.
  split_and!; try done.
  - apply (linked_lookup_prev _ P p (c_node c) (nx :: S)). exact HL.
  - apply (linked_lookup_next _ (P ++ [p]) (c_node c) nx S). by rewrite <-app_assoc.
  - apply (linked_lookup_next _ P p (c_node c) (nx :: S)). exact HL.
  - apply (linked_lookup_prev _ (P ++ [p]) (c_node c) nx S). by rewrite <-app_assoc.
  - rewrite app_assoc in HL. apply linked_app in HL. apply HL.
  - rewrite app_assoc in HL. apply linked_app in HL as (_ & HL & _).
    change (c_node c :: nx :: S) with ([c_node c] ++ nx :: S) in HL.
    apply linked_app in HL. apply HL.
Qed.

Lemma unlink_rep h h' q ts s e sz sz' cs1 c cs2 xs P p S nx :
  deque_rep h q ts s e sz (cs1 ++ c :: cs2) xs →
  s :: (c_node <$> cs1) = P ++ [p] → (c_node <$> cs2) ++ [e] = nx :: S →
  nodes h' = delete (c_node c)
               (alter (set_prev (Some p)) nx (alter (set_next (Some nx)) p (nodes h))) →
  values h' = delete (c_val c) (values h) →
  (∀ t, t ∈ omap c_tag (cs1 ++ cs2) → strs h' !! t = strs h !! t) →
  (∃ mu', deques h' !! q = Some (mk_deque sz' ts mu' (Some s) (Some e)) ∧
          (ts = true → mu' = LockFree)) →
  0 ≤ sz' < 4294967296 →
  ∃ xs1 x xs2,
    xs = xs1 ++ x :: xs2 ∧ length xs1 = length cs1 ∧ cell_holds h c x ∧
    deque_rep h' q ts s e sz' (cs1 ++ cs2) (xs1 ++ xs2).
Proof.
  intros Hrep EP ES HN HV HS HD Hsz'.
  destruct (rep_neighbours _ _ _ _ _ _ _ _ _ _ Hrep)
    as (P' & p' & S' & nx' & EP' & ES' & Hap & Han & Hpn & Hnp & Hnd & HLP & HLS).
  rewrite EP in EP'. apply app_inj_tail in EP' as [<- <-].
  rewrite ES in ES'. injection ES' as <- <-.
  pose proof (rep_cells _ _ _ _ _ _ _ _ Hrep) as HF.
  apply Forall2_app_inv_l in HF as (xs1 & xs2' & HF1 & HF2 & ->).
  apply Forall2_cons_inv_l in HF2 as (x & xs2 & Hc & HF2 & ->).
  exists xs1, x, xs2. split_and!; [done|symmetry; by eapply Forall2_length|done|].
  set (a := c_node c) in *.
  apply NoDup_app in Hnd as (Hnd1 & Hnd2 & Hnd3).
  apply NoDup_cons in Hnd3 as [Hnd3 Hnd4].
  assert (∀ x, x ∈ P ++ [p] → x ≠ a ∧ x ≠ nx) as HPd.
  { intros y Hy. specialize (Hnd2 y Hy). rewrite !not_elem_of_cons in Hnd2.
    by destruct Hnd2 as (?&?&?). }
  assert (p ≠ a ∧ p ≠ nx) as (Hpa & Hpnx).
  { apply HPd. apply elem_of_app. right. left. }
  assert (∀ x, x ∈ nx :: S → x ≠ a ∧ x ≠ p) as HSd.
  { intros y Hy. split.
    - intros ->. done.
    - intros ->. apply (Hnd2 p); [apply elem_of_app; right; left|by right]. }
  assert (nx ≠ a) as Hna by (apply HSd; left).
  split.
  - done.
  - done.
  - rewrite fmap_app, <-app_assoc, app_comm_cons, EP, ES.
    apply NoDup_app. split_and!; [done| |done].
    intros y Hy Hy'. apply (Hnd2 y Hy). by right.
  - rewrite fmap_app, <-app_assoc, app_comm_cons, EP, ES.
    apply linked_app. split_and!.
    + eapply linked_frame; [done| | |exact HLP].
      * intros y Hy Hlast. rewrite last_snoc in Hlast.
        destruct (HPd y Hy). rewrite HN. lk. done.
      * intros y Hy _. destruct (HPd y Hy). rewrite HN. lk.
        destruct (decide (p = y)) as [->|]; lk; [|done].
        by destruct (nodes h !! y).
    + eapply linked_frame; [done| | |exact HLS].
      * intros y Hy _. destruct (HSd y Hy). rewrite HN. lk.
        destruct (decide (nx = y)) as [->|]; lk; [|done].
        by destruct (nodes h !! y).
      * intros y Hy Hhead. cbn in Hhead. destruct (HSd y Hy).
        rewrite HN. lk. done.
    + intros y z Hy Hz. rewrite last_snoc in Hy. cbn in Hz.
      injection Hy as <-. injection Hz as <-. rewrite HN.
      apply fmap_Some_inv in Hpn as (np & Hp & _).
      apply fmap_Some_inv in Hnp as (nnx & Hnx & _).
      split; solve_lookup.
  - pose proof (rep_vals _ _ _ _ _ _ _ _ Hrep) as H1.
    rewrite fmap_app, fmap_cons in H1. rewrite fmap_app.
    apply NoDup_app in H1 as (H1 & H2 & H3). apply NoDup_cons in H3 as [_ H3].
    apply NoDup_app. split_and!; [done| |done].
    intros y Hy Hy'. apply (H2 y Hy). by right.
  - pose proof (rep_tags _ _ _ _ _ _ _ _ Hrep) as H1.
    rewrite omap_app in H1. rewrite omap_app. cbn in H1.
    apply NoDup_app in H1 as (H1 & H2 & H3).
    apply NoDup_app. split_and!; [done| |].
    + intros y Hy Hy'. apply (H2 y Hy). destruct (c_tag c); [by right|done].
    + destruct (c_tag c); [by apply NoDup_cons in H3 as [_ H3]|done].
  - assert (∀ c', c' ∈ cs1 ++ cs2 →
              c_node c' ≠ a ∧ c_val c' ≠ c_val c) as Hdis.
    { intros c' Hc'. split.
      - pose proof (rep_nodup _ _ _ _ _ _ _ _ Hrep) as H1.
        apply NoDup_cons in H1 as [_ H1]. apply NoDup_app in H1 as [H1 _].
        rewrite fmap_app, fmap_cons in H1.
        apply NoDup_app in H1 as (_ & H2 & H3). apply NoDup_cons in H3 as [H3 _].
        apply elem_of_app in Hc' as [Hc'|Hc'].
        + intros Heq. apply (H2 (c_node c')); [by apply list_elem_of_fmap_2|].
          rewrite Heq. left.
        + intros Heq. apply H3. fold a. rewrite <-Heq. by apply list_elem_of_fmap_2.
      - pose proof (rep_vals _ _ _ _ _ _ _ _ Hrep) as H1.
        rewrite fmap_app, fmap_cons in H1.
        apply NoDup_app in H1 as (_ & H2 & H3). apply NoDup_cons in H3 as [H3 _].
        apply elem_of_app in Hc' as [Hc'|Hc'].
        + intros Heq. apply (H2 (c_val c')); [by apply list_elem_of_fmap_2|].
          rewrite Heq. left.
        + intros Heq. apply H3. rewrite <-Heq. by apply list_elem_of_fmap_2. }
    eapply cells_frame; [|by apply Forall2_app].
    intros c' Hc'. destruct (Hdis c' Hc') as [Hd1 Hd2]. split_and!.
    + rewrite HN. lk.
      destruct (decide (nx = c_node c')) as [->|]; lk;
        [by destruct (nodes h !! c_node c')|].
      destruct (decide (p = c_node c')) as [->|]; lk;
        [by destruct (nodes h !! c_node c')|done].
    + rewrite HN. lk.
      destruct (decide (nx = c_node c')) as [->|]; lk;
        [by destruct (nodes h !! c_node c')|].
      destruct (decide (p = c_node c')) as [->|]; lk;
        [by destruct (nodes h !! c_node c')|done].
    + rewrite HV. by lk.
    + destruct (c_tag c') as [t|] eqn:Et; [|done]. cbn. rewrite HS; [done|].
      apply list_elem_of_omap. eauto.
Qed.

(** ** Size and poll *)

Lemma lock_roundtrip h q d (f g : deque → deque) :
  deques h !! q = Some d → f (g d) = d →
  with_deques (alter f q) (with_deques (alter g q) h) = h.
Proof.
  intros Hd Hfg. destruct h as [N V S D I]. unfold with_deques. cbn in *. f_equal.
  apply map_eq. intros x. destruct (decide (x = q)) as [->|]; lk; [|done].
  rewrite Hd. cbn. by rewrite Hfg.
Qed.

Lemma size_Ok h q sz ts mu s e :
  deques h !! q = Some (mk_deque sz ts mu s e) → (ts = true → mu = LockFree) →
  pgagroal_deque_size (Some q) h = Ok sz h.
Proof.
  intros Hd Hmu. unfold pgagroal_deque_size.
  destruct ts; [rewrite (Hmu eq_refl) in Hd|]; steps; unfold ret; f_equal.
  by eapply lock_roundtrip.
Qed.

Lemma poll_empty h q ts mu s e wt :
  deques h !! q = Some (mk_deque 0 ts mu s e) → (ts = true → mu = LockFree) →
  pgagroal_deque_poll (Some q) wt h = Ok (0, None) h.
Proof.
  intros Hd Hmu. unfold pgagroal_deque_poll.
  eapply bind_Ok; [by eapply size_Ok|]. reflexivity.
Qed.

Lemma poll_exact h q ts s e sz c cs xs wt :
  deque_rep h q ts s e sz (c :: cs) xs → sz ≠ 0 →
  ∃ x xs' nx mu h',
    xs = x :: xs' ∧ head ((c_node <$> cs) ++ [e]) = Some nx ∧
    deques h !! q = Some (mk_deque sz ts mu (Some s) (Some e)) ∧
    pgagroal_deque_poll (Some q) wt h =
      Ok (i_data x, if wt then Some (c_tag c) else None) h' ∧
    deque_rep h' q ts s e (wrap32 (sz - 1)) cs xs' ∧
    cstr h' (c_tag c) = Some (i_tag x) ∧
    nodes h' = delete (c_node c)
                 (alter (set_prev (Some s)) nx (alter (set_next (Some nx)) s (nodes h))) ∧
    values h' = delete (c_val c) (values h) ∧
    strs h' = strs h ∧
    deques h' = <[q := mk_deque (wrap32 (sz - 1)) ts mu (Some s) (Some e)]> (deques h) ∧
    iters h' = iters h.
Proof.
  intros Hrep Hsz.
  destruct (rep_neighbours _ _ _ _ _ _ [] c cs _ Hrep)
    as (P & p & S & nx & EP & ES & Hap & Han & Hpn & Hnp & Hnd & HLP & HLS).
  destruct P as [|? [|]]; try done. cbn in EP. injection EP as <-.
  destruct (rep_deque _ _ _ _ _ _ _ _ Hrep) as (mu & Hd & Hmu).
  pose proof (rep_cells _ _ _ _ _ _ _ _ Hrep) as HF.
  apply Forall2_cons_inv_l in HF as (x & xs' & Hc & _ & ->).
  destruct Hc as (Hcd & Hct & Hcv & Hcs).
  set (a := c_node c) in *.
  apply NoDup_app in Hnd as (_ & Hnd2 & Hnd3).
  assert (s ≠ a ∧ s ≠ nx) as [Hsa Hsnx].
  { specialize (Hnd2 s). rewrite !not_elem_of_cons in Hnd2.
    destruct Hnd2 as (?&?&_); [left|done]. }
  assert (a ≠ nx).
  { apply NoDup_cons in Hnd3 as [Hnd3 _]. rewrite not_elem_of_cons in Hnd3.
    by destruct Hnd3. }
  assert (a ≠ e).
  { pose proof (rep_nodup _ _ _ _ _ _ _ _ Hrep) as H1.
    apply NoDup_cons in H1 as [_ H1]. cbn in H1. apply NoDup_cons in H1 as [H1 _].
    intros Heq. apply H1. rewrite <-Heq. apply elem_of_app. right. left. }
  apply fmap_Some_inv in Hpn as ([sd st sp sn] & Hs & Hpn). cbn in Hpn. subst sn.
  destruct (nodes h !! a) as [[ad at_ ap an]|] eqn:Ha; [|done].
  cbn in Hap, Han, Hcd, Hct. simplify_eq.
  apply fmap_Some_inv in Hnp as ([nd nt np nn] & Hnx & Hnp). cbn in Hnp. subst np.
  exists x, xs', nx, mu.
  assert (∀ h',
    nodes h' = delete a (alter (set_prev (Some s)) nx
                 (alter (set_next (Some nx)) s (nodes h))) →
    values h' = delete (c_val c) (values h) →
    strs h' = strs h →
    (∃ mu', deques h' !! q = Some (mk_deque (wrap32 (sz - 1)) ts mu' (Some s) (Some e)) ∧
            (ts = true → mu' = LockFree)) →
    deque_rep h' q ts s e (wrap32 (sz - 1)) cs xs' ∧
    cstr h' (c_tag c) = Some (i_tag x)) as Hgoal.
  { intros h' HN HV HS HD. split.
    - destruct (unlink_rep h h' q ts s e sz (wrap32 (sz - 1)) [] c cs (x :: xs')
                  [] s S nx Hrep eq_refl ES HN HV) as (xs1 & x1 & xs2 & E & El & _ & Hr).
      + intros t _. by rewrite HS.
      + done.
      + apply wrap32_range.
      + destruct xs1; [|done]. cbn in E. by injection E as <- <-.
    - destruct (c_tag c); [|done]. cbn in *. by rewrite HS. }
  assert ((sz =? 0) = false) as Hszb by (by apply Z.eqb_neq).
  assert (head ((c_node <$> cs) ++ [e]) = Some nx) as Hhead by (by rewrite ES).
  destruct ts; [pose proof (Hmu eq_refl) as ->|]; destruct wt; eexists;
    (split; [done|]); (split; [exact Hhead|]); (split; [exact Hd|]);
    (split;
     [unfold pgagroal_deque_poll;
      eapply bind_Ok; [by eapply size_Ok|]; rewrite Hszb; steps;
      rewrite ptr_eqb_ne by done; steps
     |]);
    (lazymatch goal with
     | |- deque_rep ?h' _ _ _ _ _ _ _ ∧ _ =>
         destruct (Hgoal h') as [H1 H2];
         [reflexivity|reflexivity|reflexivity|eexists; split; [solve_lookup|done]|]
     end);
    (split; [exact H1|]); (split; [exact H2|]);
    (split; [reflexivity|]); (split; [reflexivity|]); (split; [reflexivity|]);
    (split; [|reflexivity]);
    heap_simpl; apply map_eq; intros k; destruct (decide (k = q)) as [->|]; lk; base; done.
Qed.

Lemma poll_rep h q ts s e sz c cs xs wt :
  deque_rep h q ts s e sz (c :: cs) xs → sz ≠ 0 →
  ∃ x xs' h',
    xs = x :: xs' ∧
    pgagroal_deque_poll (Some q) wt h =
      Ok (i_data x, if wt then Some (c_tag c) else None) h' ∧
    deque_rep h' q ts s e (wrap32 (sz - 1)) cs xs' ∧
    cstr h' (c_tag c) = Some (i_tag x) ∧
    strs h' = strs h ∧ iters h' = iters h.
Proof.
  intros Hrep Hsz.
  destruct (poll_exact _ _ _ _ _ _ _ _ _ wt Hrep Hsz)
    as (x & xs' & nx & mu & h' & -> & _ & _ & Hex & Hrep' & Htag & _ & _ & HS & _ & HI).
  by exists x, xs', h'.
Qed.

(** ** Sequences of adds and polls *)

Lemma wrap32_small z : 0 ≤ z < 4294967296 → wrap32 z = z.
Proof. intros H. unfold wrap32. by apply Z.mod_small. Qed.

Lemma wrap32_add_l a b : wrap32 (wrap32 a + b) = wrap32 (a + b).
Proof. unfold wrap32. apply Zplus_mod_idemp_l. Qed.

Lemma add_rep h q ts s e sz cs xs tag data type :
  deque_rep h q ts s e sz cs xs →
  ∃ c h',
    pgagroal_deque_add (Some q) tag data type h = Ok 0 h' ∧
    deque_rep h' q ts s e (wrap32 (sz + 1)) (cs ++ [c])
      (xs ++ [mk_item tag data type]) ∧
    iters h' = iters h.
Proof.
  intros Hrep. destruct (offer_rep _ _ _ _ _ _ _ _ tag data type Hrep)
    as (c & h' & Hex & Hrep' & Hit).
  exists c, h'. split; [|done]. unfold pgagroal_deque_add.
  eapply bind_Ok; [exact Hex|reflexivity].
Qed.

Lemma add_all_rep ys : ∀ h q ts s e sz cs xs,
  deque_rep h q ts s e sz cs xs →
  ∃ cs' h',
    add_all (Some q) ys h = Ok tt h' ∧
    deque_rep h' q ts s e (wrap32 (sz + Z.of_nat (length ys))) (cs ++ cs') (xs ++ ys) ∧
    iters h' = iters h.
Proof.
  induction ys as [|[tag data type] ys IH]; intros h q ts s e sz cs xs Hrep.
  - exists [], h. split; [done|]. rewrite !app_nil_r. cbn [length Z.of_nat].
    rewrite Z.add_0_r, wrap32_small by apply Hrep. done.
  - destruct (add_rep _ _ _ _ _ _ _ _ tag data type Hrep) as (c & h1 & Hex & Hrep1 & Hit1).
    destruct (IH _ _ _ _ _ _ _ _ Hrep1) as (cs' & h2 & Hex2 & Hrep2 & Hit2).
    exists (c :: cs'), h2. split_and!.
    + cbn [add_all i_tag i_data i_type]. eapply bind_Ok; [exact Hex|exact Hex2].
    + rewrite wrap32_add_l in Hrep2. rewrite <-!app_assoc in Hrep2. cbn [app] in Hrep2.
      replace (sz + Z.of_nat (length (mk_item tag data type :: ys)))
        with (sz + 1 + Z.of_nat (length ys)) by (cbn [length]; lia).
      exact Hrep2.
    + congruence.
Qed.

Lemma poll_n_rep n : ∀ h q ts s e cs xs,
  deque_rep h q ts s e (Z.of_nat (length xs)) cs xs →
  (n ≤ length xs)%nat →
  ∃ rs h',
    poll_n (Some q) n h = Ok rs h' ∧
    fst <$> rs = i_data <$> take n xs ∧
    Forall2 (λ r x, ∃ t, snd r = Some t ∧ cstr h' t = Some (i_tag x)) rs (take n xs) ∧
    deque_rep h' q ts s e (Z.of_nat (length xs) - Z.of_nat n) (drop n cs) (drop n xs) ∧
    strs h' = strs h ∧ iters h' = iters h.
Proof.
  induction n as [|n IH]; intros h q ts s e cs xs Hrep Hn.
  - exists [], h. split; [done|]. split; [done|]. split; [constructor|].
    split; [|done]. cbn [drop Z.of_nat]. rewrite Z.sub_0_r. done.
  - pose proof (rep_size _ _ _ _ _ _ _ _ Hrep) as Hsz.
    pose proof (cells_length _ _ _ (rep_cells _ _ _ _ _ _ _ _ Hrep)) as Hlen.
    destruct cs as [|c cs]; [cbn in Hlen; lia|].
    destruct (poll_rep _ _ _ _ _ _ _ _ _ true Hrep)
      as (x & xs' & h1 & -> & Hex & Hrep1 & Htag & Hs1 & Hi1); [lia|].
    cbn [length] in *.
    rewrite wrap32_small in Hrep1 by lia.
    replace (Z.of_nat (S (length xs')) - 1) with (Z.of_nat (length xs')) in Hrep1 by lia.
    destruct (IH _ _ _ _ _ _ _ Hrep1) as (rs & h2 & Hex2 & Hd & Ht & Hrep2 & Hs2 & Hi2);
      [lia|].
    exists ((i_data x, Some (c_tag c)) :: rs), h2.
    split; [|split; [|split; [|split; [|split]]]].
    + cbn [poll_n]. eapply bind_Ok; [exact Hex|].
      eapply bind_Ok; [exact Hex2|reflexivity].
    + cbn. by rewrite Hd.
    + cbn [take]. constructor; [|done]. exists (c_tag c). split; [done|].
      destruct (c_tag c); [|done]. cbn in *. by rewrite Hs2.
    + cbn [drop]. replace (Z.of_nat (S (length xs')) - Z.of_nat (S n))
        with (Z.of_nat (length xs') - Z.of_nat n) by lia. done.
    + congruence.
    + congruence.
Qed.

Lemma create_adds ts h0 xs :
  ∃ q s e cs h1 h2,
    pgagroal_deque_create ts h0 = Ok (0, Some q) h1 ∧
    add_all (Some q) xs h1 = Ok tt h2 ∧
    deque_rep h2 q ts s e (wrap32 (Z.of_nat (length xs))) cs xs.
Proof.
  destruct (create_Ok ts h0) as (q & s & e & h1 & Hc & [Hrep _] & _).
  destruct (add_all_rep xs _ _ _ _ _ _ _ _ Hrep) as (cs & h2 & Ha & Hrep2 & _).
  exists q, s, e, cs, h1, h2. split; [done|]. split; [done|].
  cbn [length Z.of_nat app] in Hrep2. by rewrite Z.add_0_l in Hrep2.
Qed.

(** C1: N adds followed by N polls on a fresh deque, N below 2^32: the i-th
    poll returns the payload and the tag of the i-th add. *)
Theorem C1_fifo_order (ts : bool) (h0 : heap) (xs : list item) :
  Z.of_nat (length xs) < 4294967296 →
  ∃ q h1 h2 rs h3,
    pgagroal_deque_create ts h0 = Ok (0, Some q) h1 ∧
    add_all (Some q) xs h1 = Ok tt h2 ∧
    poll_n (Some q) (length xs) h2 = Ok rs h3 ∧
    fst <$> rs = i_data <$> xs ∧
    Forall2 (λ r x, ∃ t, snd r = Some t ∧ cstr h3 t = Some (i_tag x)) rs xs.
Proof.
  intros Hlen.
  destruct (create_adds ts h0 xs) as (q & s & e & cs & h1 & h2 & Hc & Ha & Hrep).
  rewrite wrap32_small in Hrep by lia.
  destruct (poll_n_rep (length xs) _ _ _ _ _ _ _ Hrep)
    as (rs & h3 & Hp & Hd & Ht & _); [lia|].
  rewrite firstn_all in Hd, Ht.
  exists q, h1, h2, rs, h3. done.
Qed.

Lemma C1_fifo_order_witness :
  ∃ q h1 h2 rs h3,
    pgagroal_deque_create true empty_heap = Ok (0, Some q) h1 ∧
    add_all (Some q) [mk_item (Some "a"%string) 7 ValueInt32; mk_item None 9 ValueJSON] h1
      = Ok tt h2 ∧
    poll_n (Some q) 2 h2 = Ok rs h3 ∧
    fst <$> rs = [7; 9] ∧
    Forall2 (λ r x, ∃ t, snd r = Some t ∧ cstr h3 t = Some (i_tag x)) rs
      [mk_item (Some "a"%string) 7 ValueInt32; mk_item None 9 ValueJSON].
Proof.
  apply (C1_fifo_order true empty_heap
           [mk_item (Some "a"%string) 7 ValueInt32; mk_item None 9 ValueJSON]).
  cbn. lia.
Defined.

(** C3: after N adds and M polls, M ≤ N < 2^32, [size] is N-M and [empty]
    is the test [size == 0]. *)
Theorem C3_size_after_adds_polls (ts : bool) (h0 : heap) (xs : list item) (m : nat) :
  Z.of_nat (length xs) < 4294967296 → (m ≤ length xs)%nat →
  ∃ q h1 h2 rs h3,
    pgagroal_deque_create ts h0 = Ok (0, Some q) h1 ∧
    add_all (Some q) xs h1 = Ok tt h2 ∧
    poll_n (Some q) m h2 = Ok rs h3 ∧
    pgagroal_deque_size (Some q) h3 = Ok (Z.of_nat (length xs) - Z.of_nat m) h3 ∧
    pgagroal_deque_empty (Some q) h3 =
      Ok (Z.of_nat (length xs) - Z.of_nat m =? 0) h3.
Proof.
  intros Hlen Hm.
  destruct (create_adds ts h0 xs) as (q & s & e & cs & h1 & h2 & Hc & Ha & Hrep).
  rewrite wrap32_small in Hrep by lia.
  destruct (poll_n_rep m _ _ _ _ _ _ _ Hrep Hm)
    as (rs & h3 & Hp & _ & _ & Hrep3 & _).
  destruct (rep_deque _ _ _ _ _ _ _ _ Hrep3) as (mu & Hd & Hmu).
  exists q, h1, h2, rs, h3. split_and!; try done.
  - by eapply size_Ok.
  - unfold pgagroal_deque_empty. eapply bind_Ok; [by eapply size_Ok|reflexivity].
Qed.

Lemma C3_size_after_adds_polls_witness :
  ∃ q h1 h2 rs h3,
    pgagroal_deque_create false empty_heap = Ok (0, Some q) h1 ∧
    add_all (Some q) [mk_item None 1 ValueInt32; mk_item None 2 ValueInt32] h1 = Ok tt h2 ∧
    poll_n (Some q) 1 h2 = Ok rs h3 ∧
    pgagroal_deque_size (Some q) h3 = Ok (2 - 1) h3 ∧
    pgagroal_deque_empty (Some q) h3 = Ok (2 - 1 =? 0) h3.
Proof.
  apply (C3_size_after_adds_polls false empty_heap
           [mk_item None 1 ValueInt32; mk_item None 2 ValueInt32] 1%nat).
  - cbn. lia.
  - cbn. lia.
Defined.

Lemma wrap_items_length : Z.of_nat (length wrap_items) = 4294967296.
Proof. unfold wrap_items. rewrite length_replicate. apply Z2Nat.id. lia. Qed.
Lemma replicate_succ {A} (n : nat) (x : A) : replicate (S n) x = x :: replicate n x.
Proof. reflexivity. Qed.

Lemma two32_succ : Z.to_nat 4294967296 = S (Z.to_nat 4294967295).
Proof. exact (Z2Nat.inj_succ 4294967295 (Pos2Z.is_nonneg _)). Qed.

Lemma wrap_items_cons :
  wrap_items = mk_item None 1 ValueInt32 ::
               replicate (Z.to_nat 4294967295) (mk_item None 1 ValueInt32).
Proof.
  exact (eq_trans
           (f_equal (λ n, replicate n (mk_item None 1 ValueInt32)) two32_succ)
           (replicate_succ _ _)).
Qed.
Lemma create_wrap_items :
  ∃ q s e cs h1 h2,
    pgagroal_deque_create false empty_heap = Ok (0, Some q) h1 ∧
    add_all (Some q) wrap_items h1 = Ok tt h2 ∧
    deque_rep h2 q false s e 0 cs wrap_items.
Proof.
  destruct (create_adds false empty_heap wrap_items)
    as (q & s & e & cs & h1 & h2 & Hc & Ha & Hrep).
  rewrite wrap_items_length in Hrep. change (wrap32 4294967296) with 0 in Hrep.
  exists q, s, e, cs, h1, h2. split; [exact Hc|]. split; [exact Ha|exact Hrep].
Qed.

Lemma poll_n_empty_head q h ts mu s e n rs h3 :
  deques h !! q = Some (mk_deque 0 ts mu s e) → (ts = true → mu = LockFree) →
  poll_n (Some q) (S n) h = Ok rs h3 → head (fst <$> rs) = Some 0.
Proof.
  intros Hd Hmu. cbn [poll_n]. unfold bind at 1.
  rewrite (poll_empty h q ts mu s e true Hd Hmu). unfold bind.
  destruct (poll_n _ _ h) as [rs' h'| |]; [|discriminate|discriminate].
  by intros [= <- <-].
Qed.

Lemma wrap_items_length_succ : length wrap_items = S (Z.to_nat 4294967295).
Proof.
  exact (eq_trans (f_equal length wrap_items_cons)
           (eq_trans (length_cons _ _) (f_equal S (length_replicate _ _)))).
Qed.

Lemma wrap_items_head : head (i_data <$> wrap_items) = Some 1.
Proof. exact (f_equal (λ l, head (i_data <$> l)) wrap_items_cons). Qed.

(** C1 fails at N = 2^32: the size field has wrapped to 0, so the first poll
    returns 0 and not the 1 that the first add passed. *)
Lemma C1_counterexample :
  ∃ q h1 h2,
    pgagroal_deque_create false empty_heap = Ok (0, Some q) h1 ∧
    add_all (Some q) wrap_items h1 = Ok tt h2 ∧
    head (i_data <$> wrap_items) = Some 1 ∧
    pgagroal_deque_poll (Some q) true h2 = Ok (0, None) h2 ∧
    ∀ rs h3, poll_n (Some q) (length wrap_items) h2 = Ok rs h3 →
             fst <$> rs ≠ i_data <$> wrap_items.
Proof.
  destruct create_wrap_items as (q & s & e & cs & h1 & h2 & Hc & Ha & Hrep).
  destruct (rep_deque _ _ _ _ _ _ _ _ Hrep) as (mu & Hd & Hmu).
  pose proof (poll_empty h2 q false mu (Some s) (Some e) true Hd Hmu) as Hp.
  exists q, h1, h2. split; [exact Hc|]. split; [exact Ha|].
  split; [exact wrap_items_head|]. split; [exact Hp|].
  intros rs h3 Hn Heq.
  rewrite wrap_items_length_succ in Hn.
  apply (poll_n_empty_head _ _ _ _ _ _ _ _ _ Hd Hmu) in Hn.
  rewrite Heq, wrap_items_head in Hn. discriminate Hn.
Qed.

(** C3 fails at N = 2^32 and M = 1: the size field has wrapped to 0, the
    poll removes nothing and [size] is still 0, not 2^32 - 1. *)
Lemma C3_counterexample :
  ∃ q h1 h2,
    pgagroal_deque_create false empty_heap = Ok (0, Some q) h1 ∧
    add_all (Some q) wrap_items h1 = Ok tt h2 ∧
    poll_n (Some q) 1 h2 = Ok [(0, None)] h2 ∧
    pgagroal_deque_size (Some q) h2 = Ok 0 h2 ∧
    Z.of_nat (length wrap_items) - Z.of_nat 1 = 4294967295.
Proof.
  destruct create_wrap_items as (q & s & e & cs & h1 & h2 & Hc & Ha & Hrep).
  destruct (rep_deque _ _ _ _ _ _ _ _ Hrep) as (mu & Hd & Hmu).
  pose proof (poll_empty h2 q false mu (Some s) (Some e) true Hd Hmu) as Hp.
  exists q, h1, h2. split; [exact Hc|]. split; [exact Ha|]. split; [|split].
  - cbn [poll_n]. eapply bind_Ok; [exact Hp|]. reflexivity.
  - eapply size_Ok; [exact Hd|exact Hmu].
  - rewrite wrap_items_length. reflexivity.
Qed.


(** ** Walking the chain *)

Lemma deque_next_empty h q d node :
  deques h !! q = Some d → dq_size d = 0 →
  deque_next (Some q) node h = Ok None h.
Proof.
  intros Hd Hsz. unfold deque_next. step. by rewrite Hsz.
Qed.

Lemma deque_next_Ok h q d a na :
  deques h !! q = Some d → dq_size d ≠ 0 → nodes h !! a = Some na →
  deque_next (Some q) (Some a) h =
    Ok (if ptr_eqb (n_next na) (dq_end d) then None else n_next na) h.
Proof.
  intros Hd Hsz Ha. unfold deque_next. step.
  destruct (Z.eqb_spec (dq_size d) 0) as [|_]; [done|].
  step. step. destruct (ptr_eqb _ _); [done|]. step. done.
Qed.

Lemma read_cstr_Ok h p o : cstr h p = Some o → read_cstr p h = Ok o h.
Proof.
  destruct p as [a|]; cbn.
  - intros (str & Hs & <-)%fmap_Some_inv. unfold read_cstr. step. done.
  - by intros [= <-].
Qed.

Lemma rep_fuel h q ts s e sz cs xs :
  deque_rep h q ts s e sz cs xs → (length cs < size (nodes h))%nat.
Proof.
  intros Hrep.
  pose proof (rep_nodup _ _ _ _ _ _ _ _ Hrep) as Hnd.
  assert (list_to_set (s :: (c_node <$> cs) ++ [e]) ⊆ dom (nodes h)) as Hsub.
  { intros x Hx%elem_of_list_to_set. apply elem_of_dom.
    by eapply rep_chain_alloc. }
  apply subseteq_size in Hsub. rewrite size_list_to_set in Hsub by done.
  rewrite size_dom in Hsub. cbn in Hsub.
  rewrite length_app, length_fmap in Hsub. cbn in Hsub. lia.
Qed.

(** The successor of an element in the chain, as [deque_next] sees it. *)
Lemma rep_next h q ts s e sz cs1 c cs2 xs :
  deque_rep h q ts s e sz (cs1 ++ c :: cs2) xs →
  ∃ na, nodes h !! c_node c = Some na ∧
        (if ptr_eqb (n_next na) (Some e) then None else n_next na)
        = c_node <$> head cs2.
Proof.
  intros Hrep.
  destruct (rep_neighbours _ _ _ _ _ _ _ _ _ _ Hrep)
    as (P & p & S & nx & EP & ES & Hap & Han & Hpn & Hnp & Hnd & HLP & HLS).
  apply fmap_Some_inv in Han as (na & Ha & Han). exists na. split; [done|].
  rewrite Han. destruct cs2 as [|c2 cs2]; cbn in *.
  - injection ES as <- <-. by rewrite ptr_eqb_refl.
  - injection ES as <- <-. rewrite ptr_eqb_ne; [done|].
    apply NoDup_app in Hnd as (_ & _ & Hnd). apply NoDup_cons in Hnd as [_ Hnd].
    apply NoDup_cons in Hnd as [Hnd _]. intros Heq. apply Hnd. rewrite Heq.
    apply elem_of_app. right. left.
Qed.

Lemma rep_first h q ts s e sz cs xs :
  deque_rep h q ts s e sz cs xs →
  ∃ ns, nodes h !! s = Some ns ∧
        (if ptr_eqb (n_next ns) (Some e) then None else n_next ns)
        = c_node <$> head cs.
Proof.
  intros Hrep.
  pose proof (rep_linked _ _ _ _ _ _ _ _ Hrep) as HL.
  pose proof (rep_nodup _ _ _ _ _ _ _ _ Hrep) as Hnd.
  destruct cs as [|c cs]; cbn in *.
  - destruct HL as [[Hn _] _]. apply fmap_Some_inv in Hn as (ns & Hs & Hn).
    exists ns. split; [done|]. by rewrite Hn, ptr_eqb_refl.
  - destruct HL as [[Hn _] _]. apply fmap_Some_inv in Hn as (ns & Hs & Hn).
    exists ns. split; [done|]. rewrite Hn, ptr_eqb_ne; [done|].
    apply NoDup_cons in Hnd as [_ Hnd]. apply NoDup_cons in Hnd as [Hnd _].
    intros Heq. apply Hnd. rewrite Heq. apply elem_of_app. right. left.
Qed.

(** ** Lookup by tag *)

Lemma find_loop_Ok t h0 h q ts s e sz cs xs d :
  deque_rep h0 q ts s e sz cs xs →
  nodes h = nodes h0 → strs h = strs h0 →
  deques h !! q = Some d → dq_size d ≠ 0 → dq_end d = Some e →
  ∀ cs2 cs1 xs2 fuel,
    cs = cs1 ++ cs2 → Forall2 (cell_holds h0) cs2 xs2 →
    (length cs2 ≤ fuel)%nat →
    ∃ r, deque_find_loop fuel (Some q) (Some t) (c_node <$> head cs2) h = Ok r h ∧
         match List.find (λ x, bool_decide (i_tag x = Some t)) xs2 with
         | Some x => ∃ c, r = Some (c_node c) ∧ cell_holds h0 c x
         | None => r = None
         end.
Proof.
  intros Hrep HN HS Hd Hsz He.
  induction cs2 as [|c cs2 IH]; intros cs1 xs2 fuel Ecs HF Hfuel.
  - apply Forall2_nil_inv_l in HF as ->. exists None. split; [|done].
    by destruct fuel.
  - apply Forall2_cons_inv_l in HF as (x & xs2' & Hc & HF & ->).
    destruct fuel as [|fuel]; [cbn in Hfuel; lia|].
    subst cs.
    destruct (rep_next _ _ _ _ _ _ _ _ _ _ Hrep) as (na & Ha & Hnext).
    destruct Hc as (Hcd & Hct & Hcv & Hcs).
    cbn [head fmap option_fmap option_map deque_find_loop List.find].
    rewrite <-HN in Ha. unfold cstr in Hcs. rewrite <-HS in Hcs. fold (cstr h (c_tag c)) in Hcs.
    assert (n_tag na = c_tag c) as Etag.
    { rewrite <-HN in Hct. rewrite Ha in Hct. cbn in Hct. congruence. }
    unfold pgagroal_compare_string.
    destruct (decide (i_tag x = Some t)) as [Ex|Ex].
    + rewrite (bool_decide_eq_true_2 _ Ex).
      exists (Some (c_node c)). split.
      * step. rewrite Etag. eapply bind_Ok; [by apply read_cstr_Ok|].
        rewrite bool_decide_eq_true_2 by done. reflexivity.
      * exists c. split; [done|]. unfold cell_holds. rewrite HN in Ha.
        unfold cstr in *. rewrite HS in Hcs. done.
    + rewrite (bool_decide_eq_false_2 _ Ex).
      destruct (IH (cs1 ++ [c]) xs2' fuel) as (r & Hr & Hres).
      { by rewrite <-app_assoc. }
      { done. }
      { cbn in Hfuel. lia. }
      exists r. split; [|done].
      step. rewrite Etag. eapply bind_Ok; [by apply read_cstr_Ok|].
      rewrite bool_decide_eq_false_2 by congruence.
      eapply bind_Ok; [by eapply deque_next_Ok|]. rewrite He, Hnext. exact Hr.
Qed.

Lemma find_Ok tag h0 h q ts s e cs xs d :
  deque_rep h0 q ts s e (Z.of_nat (length xs)) cs xs →
  nodes h = nodes h0 → strs h = strs h0 →
  deques h !! q = Some d → dq_size d = Z.of_nat (length xs) →
  dq_start d = Some s → dq_end d = Some e →
  ∃ r, deque_find (Some q) tag h = Ok r h ∧
       match r with
       | None => get_spec tag xs = 0
       | Some a => ∃ c x, a = c_node c ∧ cell_holds h0 c x ∧ get_spec tag xs = i_data x
       end.
Proof.
  intros Hrep HN HS Hd Hsz Hst He. unfold deque_find, get_spec.
  destruct tag as [t|]; [|by exists None].
  unfold strlen_is_zero. destruct (bool_decide (t = EmptyString)); [by exists None|].
  destruct xs as [|x0 xs0] eqn:Exs.
  { exists None. split; [|done]. step. by rewrite Hsz. }
  rewrite <-Exs in *.
  assert (dq_size d ≠ 0) as Hnz by (rewrite Hsz, Exs; cbn; lia).
  destruct (rep_first _ _ _ _ _ _ _ _ Hrep) as (ns & Hs & Hfirst).
  rewrite <-HN in Hs.
  destruct (find_loop_Ok t h0 h q ts s e _ cs xs d Hrep HN HS Hd Hnz He
              cs [] xs (S (size (nodes h)))) as (r & Hr & Hres).
  { done. }
  { apply Hrep. }
  { rewrite HN. pose proof (rep_fuel _ _ _ _ _ _ _ _ Hrep). lia. }
  exists r. split.
  - step. destruct (Z.eqb_spec (dq_size d) 0) as [|_]; [done|].
    step. rewrite Hst. eapply bind_Ok; [by eapply deque_next_Ok|].
    rewrite He, Hfirst. exact Hr.
  - destruct (List.find _ xs) as [x|].
    + destruct Hres as (c & -> & Hc). by exists c, x.
    + by subst r.
Qed.

Lemma get_Ok h q ts s e cs xs tag :
  deque_inv h q ts s e cs xs →
  pgagroal_deque_get (Some q) tag h = Ok (get_spec tag xs) h.
Proof.
  intros [Hrep Hlen].
  destruct (rep_deque _ _ _ _ _ _ _ _ Hrep) as (mu & Hd & Hmu).
  unfold pgagroal_deque_get.
  destruct ts; [rewrite (Hmu eq_refl) in Hd|].
  - steps.
    match goal with |- bind _ _ ?h1 = _ =>
      destruct (find_Ok tag h h1 q true s e cs xs
                  (mk_deque (Z.of_nat (length xs)) true (LockRead 0) (Some s) (Some e)) Hrep)
        as (r & Hr & Hres); [done|done|solve_lookup|done|done|done|]
    end.
    eapply bind_Ok; [exact Hr|].
    destruct r as [a|].
    + destruct Hres as (c & x & -> & (Hcd & Hct & Hcv & Hcs) & ->).
      apply fmap_Some_inv in Hcd as (na & Ha & Hcd).
      steps. rewrite Hcd. steps. unfold ret. f_equal. by eapply lock_roundtrip.
    + rewrite Hres. steps. unfold ret. f_equal. by eapply lock_roundtrip.
  - steps.
    destruct (find_Ok tag h h q false s e cs xs _ Hrep eq_refl eq_refl Hd)
      as (r & Hr & Hres); [done|done|done|].
    eapply bind_Ok; [exact Hr|].
    destruct r as [a|].
    + destruct Hres as (c & x & -> & (Hcd & Hct & Hcv & Hcs) & ->).
      apply fmap_Some_inv in Hcd as (na & Ha & Hcd).
      steps. rewrite Hcd. steps.
    + rewrite Hres. steps.
Qed.

Lemma find_first_tag t xs1 x xs2 :
  i_tag x = Some t → (∀ y, y ∈ xs1 → i_tag y ≠ Some t) →
  List.find (λ y, bool_decide (i_tag y = Some t)) (xs1 ++ x :: xs2) = Some x.
Proof.
  intros Hx. induction xs1 as [|y xs1 IH]; intros Hbefore; cbn.
  - by rewrite bool_decide_eq_true_2.
  - rewrite bool_decide_eq_false_2 by (apply Hbefore; left).
    apply IH. intros z Hz. apply Hbefore. by right.
Qed.

Lemma find_none_tag t xs :
  (∀ x, x ∈ xs → i_tag x ≠ Some t) →
  List.find (λ x, bool_decide (i_tag x = Some t)) xs = None.
Proof.
  induction xs as [|x xs IH]; [done|]. intros H. cbn.
  rewrite bool_decide_eq_false_2 by (apply H; left).
  apply IH. intros y Hy. apply H. by right.
Qed.

(** C4: on a deque whose size field counts its elements (fewer than 2^32 of
    them), [get] scans front to back and returns the payload of the first
    element whose tag equals the argument; it returns 0 when no element
    matches, when the deque is empty and when the tag is empty; the heap is
    left as it was. *)
Theorem C4_get_first_match (h : heap) (q : positive) (ts : bool) (s e : positive)
    (cs : list cell) (xs : list item) (t : string) :
  deque_inv h q ts s e cs xs →
  (∀ xs1 x xs2,
     t ≠ EmptyString → xs = xs1 ++ x :: xs2 →
     i_tag x = Some t → (∀ y, y ∈ xs1 → i_tag y ≠ Some t) →
     pgagroal_deque_get (Some q) (Some t) h = Ok (i_data x) h) ∧
  ((∀ y, y ∈ xs → i_tag y ≠ Some t) →
   pgagroal_deque_get (Some q) (Some t) h = Ok 0 h) ∧
  (xs = [] → pgagroal_deque_get (Some q) (Some t) h = Ok 0 h) ∧
  pgagroal_deque_get (Some q) (Some EmptyString) h = Ok 0 h ∧
  pgagroal_deque_get (Some q) (Some t) h = Ok (get_spec (Some t) xs) h.
Proof.
  intros Hinv. split_and!.
  - intros xs1 x xs2 Hne -> Hx Hbefore.
    rewrite (get_Ok _ _ _ _ _ _ _ (Some t) Hinv). unfold get_spec.
    rewrite bool_decide_eq_false_2 by done.
    by rewrite (find_first_tag t xs1 x xs2 Hx Hbefore).
  - intros Hnone. rewrite (get_Ok _ _ _ _ _ _ _ (Some t) Hinv). unfold get_spec.
    rewrite (find_none_tag t xs Hnone). by destruct (bool_decide _).
  - intros ->. rewrite (get_Ok _ _ _ _ _ _ _ (Some t) Hinv). unfold get_spec.
    by destruct (bool_decide _).
  - by rewrite (get_Ok _ _ _ _ _ _ _ (Some EmptyString) Hinv).
  - exact (get_Ok _ _ _ _ _ _ _ (Some t) Hinv).
Qed.

Lemma C4_get_first_match_witness :
  ∃ q h1 h2,
    pgagroal_deque_create false empty_heap = Ok (0, Some q) h1 ∧
    add_all (Some q)
      [mk_item (Some "a"%string) 1 ValueInt32; mk_item (Some "b"%string) 2 ValueInt32;
       mk_item (Some "b"%string) 3 ValueInt32] h1 = Ok tt h2 ∧
    pgagroal_deque_get (Some q) (Some "b"%string) h2 = Ok 2 h2.
Proof.
  destruct (create_adds false empty_heap
              [mk_item (Some "a"%string) 1 ValueInt32; mk_item (Some "b"%string) 2 ValueInt32;
               mk_item (Some "b"%string) 3 ValueInt32])
    as (q & s & e & cs & h1 & h2 & Hc & Ha & Hrep).
  exists q, h1, h2. split; [exact Hc|]. split; [exact Ha|].
  assert (deque_inv h2 q false s e cs
            [mk_item (Some "a"%string) 1 ValueInt32;
             mk_item (Some "b"%string) 2 ValueInt32;
             mk_item (Some "b"%string) 3 ValueInt32]) as Hinv
    by (split; [exact Hrep|cbn; lia]).
  apply (proj1 (C4_get_first_match h2 q false s e cs _ "b"%string Hinv)
           [mk_item (Some "a"%string) 1 ValueInt32]
           (mk_item (Some "b"%string) 2 ValueInt32)
           [mk_item (Some "b"%string) 3 ValueInt32]).
  - discriminate.
  - reflexivity.
  - reflexivity.
  - intros y Hy. apply list_elem_of_singleton in Hy. subst y. discriminate.
Defined.

(** *** Lookup past the range of the size field *)

Lemma wrap_tagged_items_length : Z.of_nat (length wrap_tagged_items) = 4294967296.
Proof. unfold wrap_tagged_items. rewrite length_replicate. apply Z2Nat.id. lia. Qed.

Lemma wrap_tagged_items_cons :
  wrap_tagged_items = mk_item (Some "a"%string) 1 ValueInt32 ::
                      replicate (Z.to_nat 4294967295) (mk_item (Some "a"%string) 1 ValueInt32).
Proof.
  exact (eq_trans
           (f_equal (λ n, replicate n (mk_item (Some "a"%string) 1 ValueInt32)) two32_succ)
           (replicate_succ _ _)).
Qed.

Lemma create_wrap_tagged_items :
  ∃ q s e cs h1 h2,
    pgagroal_deque_create false empty_heap = Ok (0, Some q) h1 ∧
    add_all (Some q) wrap_tagged_items h1 = Ok tt h2 ∧
    deque_rep h2 q false s e 0 cs wrap_tagged_items.
Proof.
  destruct (create_adds false empty_heap wrap_tagged_items)
    as (q & s & e & cs & h1 & h2 & Hc & Ha & Hrep).
  rewrite wrap_tagged_items_length in Hrep. change (wrap32 4294967296) with 0 in Hrep.
  exists q, s, e, cs, h1, h2. split; [exact Hc|]. split; [exact Ha|exact Hrep].
Qed.

(** [get] on a deque whose size field is 0: [deque_find] returns [NULL]
    without looking at the chain. *)
Lemma get_size0 h q ts mu s e tag :
  deques h !! q = Some (mk_deque 0 ts mu s e) → (ts = true → mu = LockFree) →
  pgagroal_deque_get (Some q) tag h = Ok 0 h.
Proof.
  intros Hd Hmu. unfold pgagroal_deque_get, deque_find.
  destruct ts; [rewrite (Hmu eq_refl) in Hd|].
  - steps. destruct tag as [t|]; [destruct (strlen_is_zero t)|]; steps;
      cbn [Z.eqb]; steps; unfold ret; f_equal; by eapply lock_roundtrip.
  - steps. destruct tag as [t|]; [destruct (strlen_is_zero t)|]; steps;
      cbn [Z.eqb]; steps.
Qed.

Lemma get_spec_head t x l :
  t ≠ EmptyString → i_tag x = Some t → get_spec (Some t) (x :: l) = i_data x.
Proof.
  intros Ht Hx. unfold get_spec. rewrite bool_decide_eq_false_2 by done.
  cbn [List.find]. by rewrite bool_decide_eq_true_2.
Qed.

(** C4 fails after 2^32 adds: every element has the tag [a] and the payload
    1, the earliest of them included, but the size field has wrapped to 0 and
    [get] returns 0 without looking at the chain. *)
Lemma C4_counterexample :
  ∃ q h1 h2,
    pgagroal_deque_create false empty_heap = Ok (0, Some q) h1 ∧
    add_all (Some q) wrap_tagged_items h1 = Ok tt h2 ∧
    head wrap_tagged_items = Some (mk_item (Some "a"%string) 1 ValueInt32) ∧
    get_spec (Some "a"%string) wrap_tagged_items = 1 ∧
    pgagroal_deque_get (Some q) (Some "a"%string) h2 = Ok 0 h2.
Proof.
  destruct create_wrap_tagged_items as (q & s & e & cs & h1 & h2 & Hc & Ha & Hrep).
  destruct (rep_deque _ _ _ _ _ _ _ _ Hrep) as (mu & Hd & Hmu).
  exists q, h1, h2. split; [exact Hc|]. split; [exact Ha|].
  split; [exact (f_equal head wrap_tagged_items_cons)|]. split.
  - rewrite wrap_tagged_items_cons. by apply get_spec_head.
  - by eapply get_size0.
Qed.

(** ** Peek *)

Lemma peek_Ok h q ts s e sz c cs x xs wt :
  deque_rep h q ts s e sz (c :: cs) (x :: xs) → sz ≠ 0 →
  pgagroal_deque_peek (Some q) wt h =
    Ok (i_data x, if wt then Some (c_tag c) else None) h.
Proof.
  intros Hrep Hsz.
  destruct (rep_first _ _ _ _ _ _ _ _ Hrep) as (ns & Hs & Hfirst).
  destruct (rep_deque _ _ _ _ _ _ _ _ Hrep) as (mu & Hd & Hmu).
  pose proof (rep_cells _ _ _ _ _ _ _ _ Hrep) as HF.
  apply Forall2_cons_inv_l in HF as (x' & xs' & Hc & _ & [= <- <-]).
  destruct Hc as (Hcd & Hct & Hcv & Hcs).
  apply fmap_Some_inv in Hcd as ([ad at_ ap an] & Ha & Hcd). cbn in Hcd, Hct.
  rewrite Ha in Hct. cbn in Hct. simplify_eq.
  assert (n_next ns = Some (c_node c)) as Hn.
  { cbn in Hfirst. destruct (ptr_eqb (n_next ns) (Some e)); [done|]. done. }
  assert (c_node c ≠ e) as Hce.
  { pose proof (rep_nodup _ _ _ _ _ _ _ _ Hrep) as H1.
    apply NoDup_cons in H1 as [_ H1]. cbn in H1. apply NoDup_cons in H1 as [H1 _].
    intros Heq. apply H1. rewrite <-Heq. apply elem_of_app. right. left. }
  destruct ns as [sd st sp sn]. cbn in Hn. subst sn.
  assert ((sz =? 0) = false) as Hszb by (by apply Z.eqb_neq).
  unfold pgagroal_deque_peek.
  eapply bind_Ok; [by eapply size_Ok|]. rewrite Hszb.
  destruct ts; [rewrite (Hmu eq_refl) in Hd|]; destruct wt;
    steps; rewrite ptr_eqb_ne by done; steps;
    try (unfold ret; f_equal; by eapply lock_roundtrip).
Qed.

(** C8: on a deque that is not empty, [peek] returns what [poll] would
    return and leaves the heap as it was; the tag it hands out is the head
    node's own tag pointer, which still belongs to the node. *)
Theorem C8_peek_nondestructive (h : heap) (q : positive) (ts : bool) (s e : positive)
    (cs : list cell) (xs : list item) (want_tag : bool) :
  deque_inv h q ts s e cs xs → xs ≠ [] →
  ∃ c x r h',
    head cs = Some c ∧ head xs = Some x ∧
    r = (i_data x, if want_tag then Some (c_tag c) else None) ∧
    pgagroal_deque_peek (Some q) want_tag h = Ok r h ∧
    pgagroal_deque_poll (Some q) want_tag h = Ok r h' ∧
    n_tag <$> nodes h !! c_node c = Some (c_tag c) ∧
    cstr h (c_tag c) = Some (i_tag x).
Proof.
  intros [Hrep Hlen] Hne.
  pose proof (rep_cells _ _ _ _ _ _ _ _ Hrep) as HF.
  destruct xs as [|x xs]; [done|].
  apply Forall2_cons_inv_r in HF as (c & cs' & Hc & HF & ->).
  destruct (poll_rep _ _ _ _ _ _ _ _ _ want_tag Hrep)
    as (x' & xs' & h' & [= <- <-] & Hpoll & _); [cbn; lia|].
  exists c, x, (i_data x, if want_tag then Some (c_tag c) else None), h'.
  split; [done|]. split; [done|]. split; [done|]. split.
  { eapply peek_Ok; [exact Hrep|cbn; lia]. }
  split; [exact Hpoll|]. destruct Hc as (_ & ? & _ & ?). done.
Qed.

Lemma C8_peek_nondestructive_witness :
  ∃ q h1 h2 c r h',
    pgagroal_deque_create true empty_heap = Ok (0, Some q) h1 ∧
    add_all (Some q)
      [mk_item (Some "k"%string) 5 ValueInt32; mk_item None 6 ValueInt32] h1 = Ok tt h2 ∧
    r = (5, Some (c_tag c)) ∧
    pgagroal_deque_peek (Some q) true h2 = Ok r h2 ∧
    pgagroal_deque_poll (Some q) true h2 = Ok r h' ∧
    cstr h2 (c_tag c) = Some (Some "k"%string).
Proof.
  destruct (create_adds true empty_heap
              [mk_item (Some "k"%string) 5 ValueInt32; mk_item None 6 ValueInt32])
    as (q & s & e & cs & h1 & h2 & Hc & Ha & Hrep).
  destruct (C8_peek_nondestructive h2 q true s e cs
              [mk_item (Some "k"%string) 5 ValueInt32; mk_item None 6 ValueInt32] true)
    as (c & x & r & h' & _ & Hx & Hr & Hpeek & Hpoll & _ & Htag).
  { split; [exact Hrep|cbn; lia]. }
  { discriminate. }
  injection Hx as <-.
  exists q, h1, h2, c, r, h'. done.
Defined.

(** ** Iterator *)

Lemma with_iters_alter h it i (f : deque_iterator → deque_iterator) :
  iters h !! it = Some i →
  with_iters (alter f it) h = with_iters (insert it (f i)) h.
Proof.
  intros Hi. destruct h as [N V S D I]. unfold with_iters. cbn in *. f_equal.
  apply map_eq. intros k. destruct (decide (k = it)) as [->|]; lk; [|done].
  by rewrite Hi.
Qed.

Lemma with_iters_insert_insert h it i i' :
  with_iters (insert it i') (with_iters (insert it i) h) = with_iters (insert it i') h.
Proof.
  destruct h as [N V S D I]. unfold with_iters. cbn. f_equal. apply insert_insert_eq.
Qed.

Lemma with_iters_insert_id h it i :
  iters h !! it = Some i → with_iters (insert it i) h = h.
Proof.
  intros Hi. destruct h as [N V S D I]. unfold with_iters. cbn in *. f_equal.
  by apply insert_id.
Qed.

(** [iterator_next] on a deque whose size field is not 0, when the cursor is
    on [a] and [rest] follows [a]. *)
Lemma iterator_next_rep h q ts s e sz cs xs it tg vl a rest :
  deque_rep h q ts s e sz cs xs → sz ≠ 0 →
  iters h !! it = Some (mk_iter (Some q) (Some a) tg vl) →
  (a = s ∧ rest = cs) ∨ (∃ cs1 c, cs = cs1 ++ c :: rest ∧ a = c_node c) →
  pgagroal_deque_iterator_next (Some it) h =
    match rest with
    | [] => Ok false (with_iters (insert it (mk_iter (Some q) None tg vl)) h)
    | c' :: _ =>
        Ok true (with_iters
                   (insert it (mk_iter (Some q) (Some (c_node c')) (c_tag c')
                                 (Some (c_val c')))) h)
    end.
Proof.
  intros Hrep Hsz Hit Hpos.
  destruct (rep_deque _ _ _ _ _ _ _ _ Hrep) as (mu & Hd & Hmu).
  assert (∃ na, nodes h !! a = Some na ∧
                (if ptr_eqb (n_next na) (Some e) then None else n_next na)
                = c_node <$> head rest) as (na & Ha & Hnext).
  { destruct Hpos as [[-> ->]|(cs1 & c & -> & ->)].
    - by apply (rep_first _ _ _ _ _ _ _ _ Hrep).
    - by apply (rep_next _ _ _ _ _ _ _ _ _ _ Hrep). }
  assert (∀ c', c' ∈ rest → c' ∈ cs) as Hin.
  { intros c' Hc'. destruct Hpos as [[_ ->]|(cs1 & c & -> & _)]; [done|].
    apply elem_of_app. right. by right. }
  unfold pgagroal_deque_iterator_next. step. step.
  eapply bind_Ok; [by eapply deque_next_Ok|]. cbn [dq_end].
  rewrite Hnext. rec_simpl.
  destruct rest as [|c' rest']; cbn [head fmap option_fmap option_map].
  - steps. unfold ret. f_equal. rewrite (with_iters_alter _ _ _ _ Hit). done.
  - assert (c' ∈ cs) as Hc' by (apply Hin; left).
    apply list_elem_of_lookup_1 in Hc' as [k Hk].
    destruct (Forall2_lookup_l _ _ _ _ _ (rep_cells _ _ _ _ _ _ _ _ Hrep) Hk)
      as (x' & _ & (Hcd & Hct & _)).
    apply fmap_Some_inv in Hcd as ([cd ct cp cn] & Hn' & Hcd).
    rewrite Hn' in Hct. cbn in Hcd, Hct. simplify_eq.
    steps. unfold ret. f_equal.
    clear -Hit. destruct h as [N V S D I]. unfold with_iters.
    cbn [nodes values strs deques iters] in *. f_equal.
    apply map_eq. intros k. destruct (decide (k = it)) as [->|]; lk; base; done.
Qed.

(** [iterator_next] on a deque whose size field is 0: [deque_next] returns
    [NULL] without looking at the chain. *)
Lemma iterator_next_size0 h q d it cur tg vl :
  deques h !! q = Some d → dq_size d = 0 →
  iters h !! it = Some (mk_iter (Some q) cur tg vl) →
  pgagroal_deque_iterator_next (Some it) h
  = Ok false (with_iters (insert it (mk_iter (Some q) None tg vl)) h).
Proof.
  intros Hd Hsz Hit. unfold pgagroal_deque_iterator_next. step. step.
  eapply bind_Ok; [by eapply deque_next_empty|].
  steps. unfold ret. f_equal. rewrite (with_iters_alter _ _ _ _ Hit). done.
Qed.

(** [iterator_next] when the cursor is on [a] and [rest] follows [a]. *)
Lemma iterator_next_Ok h q ts s e cs xs it tg vl a rest :
  deque_inv h q ts s e cs xs →
  iters h !! it = Some (mk_iter (Some q) (Some a) tg vl) →
  (a = s ∧ rest = cs) ∨ (∃ cs1 c, cs = cs1 ++ c :: rest ∧ a = c_node c) →
  pgagroal_deque_iterator_next (Some it) h =
    match rest with
    | [] => Ok false (with_iters (insert it (mk_iter (Some q) None tg vl)) h)
    | c' :: _ =>
        Ok true (with_iters
                   (insert it (mk_iter (Some q) (Some (c_node c')) (c_tag c')
                                 (Some (c_val c')))) h)
    end.
Proof.
  intros [Hrep Hlen] Hit Hpos.
  pose proof (cells_length _ _ _ (rep_cells _ _ _ _ _ _ _ _ Hrep)) as Hcl.
  destruct cs as [|c0 cs0] eqn:Ecs.
  - destruct xs; [|done].
    assert (rest = []) as ->.
    { destruct Hpos as [[_ ->]|(cs1 & c & E & _)]; [done|]. by destruct cs1. }
    destruct (rep_deque _ _ _ _ _ _ _ _ Hrep) as (mu & Hd & Hmu).
    by eapply iterator_next_size0.
  - rewrite <-Ecs in *. eapply iterator_next_rep; [exact Hrep| |exact Hit|exact Hpos].
    rewrite <-Hcl, Ecs. cbn. lia.
Qed.

Lemma free_str_NULL h : free_str None h = Ok tt h.
Proof. reflexivity. Qed.

Ltac ptr_step :=
  lazymatch goal with
  | |- (if ptr_eqb (Some ?a) (Some ?a) then _ else _) _ = _ => rewrite ptr_eqb_refl
  | |- (if ptr_eqb (Some ?a) (Some ?b) then _ else _) _ = _ =>
      rewrite (ptr_eqb_ne a b) by congruence
  | |- bind (if ptr_eqb (Some ?a) (Some ?a) then _ else _) _ _ = _ =>
      rewrite ptr_eqb_refl
  | |- bind (if ptr_eqb (Some ?a) (Some ?b) then _ else _) _ _ = _ =>
      rewrite (ptr_eqb_ne a b) by congruence
  | |- bind (deque_remove (Some _) (Some _)) _ _ = _ => unfold deque_remove
  | |- bind (deque_node_destroy (Some _)) _ _ = _ => unfold deque_node_destroy
  | |- bind (free_str None) _ _ = _ => eapply bind_Ok; [apply free_str_NULL|]
  end.

Ltac steps' := repeat first [step | lock_step | ptr_step]; try finish.

(** [iterator_remove] with the cursor on the element [c], whatever the size
    field holds: the node is unlinked and freed and the size field is
    decremented modulo 2^32. *)
Lemma iterator_remove_gen h q ts s e sz cs1 c cs2 xs it tg vl :
  deque_rep h q ts s e sz (cs1 ++ c :: cs2) xs →
  iters h !! it = Some (mk_iter (Some q) (Some (c_node c)) tg vl) →
  ∃ xs1 x xs2 p nx h',
    xs = xs1 ++ x :: xs2 ∧ length xs1 = length cs1 ∧
    last (s :: (c_node <$> cs1)) = Some p ∧
    head ((c_node <$> cs2) ++ [e]) = Some nx ∧
    pgagroal_deque_iterator_remove (Some it) h = Ok tt h' ∧
    deque_rep h' q ts s e (wrap32 (sz - 1)) (cs1 ++ cs2) (xs1 ++ xs2) ∧
    nodes h' = delete (c_node c)
                 (alter (set_prev (Some p)) nx (alter (set_next (Some nx)) p (nodes h))) ∧
    values h' = delete (c_val c) (values h) ∧
    strs h' = match c_tag c with Some t => delete t (strs h) | None => strs h end ∧
    deques h' = alter (set_size (wrap32 (sz - 1))) q (deques h) ∧
    iters h' =
      <[it := match last cs1 with
              | None => mk_iter (Some q) (Some s) None None
              | Some cp => mk_iter (Some q) (Some (c_node cp)) (c_tag cp) (Some (c_val cp))
              end]> (iters h).
Proof.
  intros Hrep Hit.
  destruct (rep_neighbours _ _ _ _ _ _ _ _ _ _ Hrep)
    as (P & p & S & nx & EP & ES & Hap & Han & Hpn & Hnp & Hnd & HLP & HLS).
  destruct (rep_deque _ _ _ _ _ _ _ _ Hrep) as (mu & Hd & Hmu).
  pose proof (rep_cells _ _ _ _ _ _ _ _ Hrep) as HF.
  pose proof (rep_nodup _ _ _ _ _ _ _ _ Hrep) as Hnd0.
  pose proof (Forall2_length _ _ _ HF) as Hl0.
  apply Forall2_app_inv_l in HF as (xs1 & xs2' & HF1 & HF2 & ->).
  apply Forall2_cons_inv_l in HF2 as (x & xs2 & Hc & HF2 & ->).
  exists xs1, x, xs2, p, nx.
  assert (length xs1 = length cs1) as Hl1 by (symmetry; by eapply Forall2_length).
  assert (last (s :: (c_node <$> cs1)) = Some p) as Hlastp by (rewrite EP; apply last_snoc).
  assert (head ((c_node <$> cs2) ++ [e]) = Some nx) as Hheadnx by (by rewrite ES).
  destruct Hc as (Hcd & Hct & Hcv & Hcs).
  set (a := c_node c) in *.
  assert (a ≠ s ∧ a ≠ e) as [Has Hae].
  { rewrite fmap_app, fmap_cons in Hnd0. fold a in Hnd0.
    apply NoDup_cons in Hnd0 as [H1 H2]. split.
    - intros ->. apply H1. rewrite <-app_assoc. apply elem_of_app. right. left.
    - rewrite <-app_assoc in H2. apply NoDup_app in H2 as (_ & _ & H2).
      apply NoDup_cons in H2 as [H2 _]. intros Heq. apply H2. rewrite Heq.
      apply elem_of_app. right. left. }
  apply NoDup_app in Hnd as (Hnd1 & Hnd2 & Hnd3).
  assert (p ≠ a ∧ p ≠ nx) as [Hpa Hpnx].
  { specialize (Hnd2 p). rewrite !not_elem_of_cons in Hnd2.
    destruct Hnd2 as (?&?&_); [apply elem_of_app; right; left|done]. }
  assert (a ≠ nx) as Hanx.
  { apply NoDup_cons in Hnd3 as [Hnd3 _]. rewrite not_elem_of_cons in Hnd3.
    by destruct Hnd3. }
  destruct (nodes h !! a) as [[ad at_ ap an]|] eqn:Ha; [|done].
  cbn in Hap, Han, Hcd, Hct. simplify_eq.
  apply fmap_Some_inv in Hpn as ([pd pt pp pn] & Hp & Hpn). cbn in Hpn. subst pn.
  apply fmap_Some_inv in Hnp as ([nd nt np nn] & Hnx & Hnp). cbn in Hnp. subst np.
  assert (∀ h',
    nodes h' = delete a (alter (set_prev (Some p)) nx
                 (alter (set_next (Some nx)) p (nodes h))) →
    values h' = delete (c_val c) (values h) →
    strs h' = match c_tag c with Some t => delete t (strs h) | None => strs h end →
    deques h' !! q = Some (mk_deque (wrap32 (sz - 1)) ts mu (Some s) (Some e)) →
    deque_rep h' q ts s e (wrap32 (sz - 1)) (cs1 ++ cs2) (xs1 ++ xs2)) as Hgoal.
  { intros h' HN HV HS HD.
    destruct (unlink_rep h h' q ts s e _ (wrap32 (sz - 1)) cs1 c cs2
                (xs1 ++ x :: xs2) P p S nx Hrep EP ES HN HV)
      as (xs1' & x1 & xs2'' & E & El & _ & Hr).
    - intros t Ht. rewrite HS. destruct (c_tag c) as [tc|] eqn:Etc; [|done].
      apply lookup_delete_ne. intros <-.
      pose proof (rep_tags _ _ _ _ _ _ _ _ Hrep) as H1.
      rewrite omap_app in H1. cbn in H1. rewrite Etc in H1.
      apply NoDup_app in H1 as (_ & H2 & H3). apply NoDup_cons in H3 as [H3 _].
      rewrite omap_app in Ht. apply elem_of_app in Ht as [Ht|Ht]; [|done].
      apply (H2 tc Ht). left.
    - by exists mu.
    - apply wrap32_range.
    - apply app_inj_1 in E as [<- [= <- <-]]; [done|congruence]. }
  destruct cs1 as [|cp cs1' _] using rev_ind.
  - (* the predecessor is the front sentinel *)
    cbn in EP. destruct P as [|? [|]]; try done. cbn in EP. injection EP as <-.
    destruct (c_tag c) as [tc|] eqn:Etc.
    + cbn in Hcs. apply fmap_Some_inv in Hcs as (str & Hstr & _).
      eexists. split; [done|]. split; [done|]. split; [done|]. split; [done|]. split.
      { unfold pgagroal_deque_iterator_remove. steps'. }
      split.
      { apply Hgoal; try reflexivity. solve_lookup. }
      split; [reflexivity|]. split; [reflexivity|]. split; [reflexivity|].
      split; [reflexivity|].
      heap_simpl. cbn [last]. apply map_eq. intros k.
      destruct (decide (k = it)) as [->|]; lk; base; done.
    + eexists. split; [done|]. split; [done|]. split; [done|]. split; [done|]. split.
      { unfold pgagroal_deque_iterator_remove. steps'. }
      split.
      { apply Hgoal; try reflexivity. solve_lookup. }
      split; [reflexivity|]. split; [reflexivity|]. split; [reflexivity|].
      split; [reflexivity|].
      heap_simpl. cbn [last]. apply map_eq. intros k.
      destruct (decide (k = it)) as [->|]; lk; base; done.
  - (* the predecessor is an element *)
    rewrite fmap_app, fmap_cons, fmap_nil, app_comm_cons in EP.
    apply app_inj_tail in EP as [_ <-].
    assert (c_node cp ≠ s) as Hps.
    { rewrite fmap_app in Hnd0. apply NoDup_cons in Hnd0 as [H1 _].
      intros Heq. apply H1. rewrite <-Heq, fmap_app. rewrite <-!app_assoc.
      apply elem_of_app. right. left. }
    apply Forall2_app_inv_l in HF1 as (xs1a & xs1b & _ & HFp & ->).
    apply Forall2_cons_inv_l in HFp as (xp & ? & (Hpd & Hpt & _) & _ & ->).
    rewrite Hp in Hpd, Hpt. cbn in Hpd, Hpt. simplify_eq.
    destruct (c_tag c) as [tc|] eqn:Etc.
    + cbn in Hcs. apply fmap_Some_inv in Hcs as (str & Hstr & _).
      eexists. split; [done|]. split; [done|]. split; [done|]. split; [done|]. split.
      { unfold pgagroal_deque_iterator_remove. steps'. }
      split.
      { apply Hgoal; try reflexivity. solve_lookup. }
      split; [reflexivity|]. split; [reflexivity|]. split; [reflexivity|].
      split; [reflexivity|].
      heap_simpl. rewrite last_snoc. apply map_eq. intros k.
      destruct (decide (k = it)) as [->|]; lk; base; done.
    + eexists. split; [done|]. split; [done|]. split; [done|]. split; [done|]. split.
      { unfold pgagroal_deque_iterator_remove. steps'. }
      split.
      { apply Hgoal; try reflexivity. solve_lookup. }
      split; [reflexivity|]. split; [reflexivity|]. split; [reflexivity|].
      split; [reflexivity|].
      heap_simpl. rewrite last_snoc. apply map_eq. intros k.
      destruct (decide (k = it)) as [->|]; lk; base; done.
Qed.

Lemma iterator_remove_exact h q ts s e cs1 c cs2 xs it tg vl :
  deque_inv h q ts s e (cs1 ++ c :: cs2) xs →
  iters h !! it = Some (mk_iter (Some q) (Some (c_node c)) tg vl) →
  ∃ xs1 x xs2 p nx h',
    xs = xs1 ++ x :: xs2 ∧ length xs1 = length cs1 ∧
    last (s :: (c_node <$> cs1)) = Some p ∧
    head ((c_node <$> cs2) ++ [e]) = Some nx ∧
    pgagroal_deque_iterator_remove (Some it) h = Ok tt h' ∧
    deque_inv h' q ts s e (cs1 ++ cs2) (xs1 ++ xs2) ∧
    nodes h' = delete (c_node c)
                 (alter (set_prev (Some p)) nx (alter (set_next (Some nx)) p (nodes h))) ∧
    values h' = delete (c_val c) (values h) ∧
    strs h' = match c_tag c with Some t => delete t (strs h) | None => strs h end ∧
    deques h' = alter (set_size (wrap32 (Z.of_nat (length xs) - 1))) q (deques h) ∧
    iters h' =
      <[it := match last cs1 with
              | None => mk_iter (Some q) (Some s) None None
              | Some cp => mk_iter (Some q) (Some (c_node cp)) (c_tag cp) (Some (c_val cp))
              end]> (iters h).
Proof.
  intros [Hrep Hlen] Hit.
  destruct (iterator_remove_gen _ _ _ _ _ _ _ _ _ _ _ _ _ Hrep Hit)
    as (xs1 & x & xs2 & p & nx & h' & -> & Hl1 & Hp & Hnx & Hex & Hrep' & HN & HV & HS & HD & HI).
  assert (wrap32 (Z.of_nat (length (xs1 ++ x :: xs2)) - 1)
          = Z.of_nat (length (xs1 ++ xs2))) as Hsz.
  { rewrite length_app in Hlen. cbn [length] in Hlen.
    rewrite wrap32_small; rewrite !length_app; cbn [length]; lia. }
  rewrite Hsz in Hrep'.
  exists xs1, x, xs2, p, nx, h'.
  split; [done|]. split; [done|]. split; [done|]. split; [done|]. split; [done|].
  split; [|done]. split; [exact Hrep'|].
  rewrite length_app in Hlen. cbn [length] in Hlen. rewrite length_app. lia.
Qed.

Lemma iterator_remove_rep h q ts s e cs1 c cs2 xs it tg vl :
  deque_inv h q ts s e (cs1 ++ c :: cs2) xs →
  iters h !! it = Some (mk_iter (Some q) (Some (c_node c)) tg vl) →
  ∃ xs1 x xs2 h',
    xs = xs1 ++ x :: xs2 ∧ length xs1 = length cs1 ∧
    pgagroal_deque_iterator_remove (Some it) h = Ok tt h' ∧
    deque_inv h' q ts s e (cs1 ++ cs2) (xs1 ++ xs2) ∧
    nodes h' !! c_node c = None ∧
    iters h' =
      <[it := match last cs1 with
              | None => mk_iter (Some q) (Some s) None None
              | Some cp => mk_iter (Some q) (Some (c_node cp)) (c_tag cp) (Some (c_val cp))
              end]> (iters h).
Proof.
  intros Hinv Hit.
  destruct (iterator_remove_exact h q ts s e cs1 c cs2 xs it tg vl Hinv Hit)
    as (xs1 & x & xs2 & p & nx & h' & -> & Hl1 & _ & _ & Hex & Hinv' & HN & _ & _ & _ & HI).
  exists xs1, x, xs2, h'. split_and!; try done.
  rewrite HN. apply lookup_delete_eq.
Qed.

Lemma deque_inv_with_iters f h q ts s e cs xs :
  deque_inv h q ts s e cs xs → deque_inv (with_iters f h) q ts s e cs xs.
Proof.
  intros [[H1 H2 H3 H4 H5 H6 H7] Hlen]. split; [|done]. split; done.
Qed.

Lemma iterator_create_Ok h q d :
  deques h !! q = Some d →
  ∃ it, iters h !! it = None ∧
        pgagroal_deque_iterator_create (Some q) h =
          Ok (0, Some (Some it))
             (with_iters (insert it (mk_iter (Some q) (dq_start d) None None)) h).
Proof.
  intros Hd. exists (fresh (dom (iters h))).
  assert (iters h !! fresh (dom (iters h)) = None) as Hit by apply fresh_lookup.
  split; [done|]. unfold pgagroal_deque_iterator_create.
  set (it := fresh (dom (iters h))) in *.
  eapply bind_Ok; [reflexivity|]. fold it. cbn beta.
  steps. unfold ret. f_equal.
  clear -Hit. destruct h as [N V S D I]. unfold with_iters.
  cbn [nodes values strs deques iters] in *. f_equal.
  apply map_eq. intros k. destruct (decide (k = it)) as [->|]; lk; base; done.
Qed.

(** C5: on a deque whose size field counts its elements (fewer than 2^32 of
    them), removing at the cursor frees exactly the node under the cursor,
    decrements [size] and puts the cursor on the predecessor (with tag and
    value cleared when that is the front sentinel); the next [iterator_next]
    visits the node that followed the removed one, or reports the end when
    there is none. *)
Theorem C5_iterator_remove_then_next (h : heap) (q : positive) (ts : bool)
    (s e : positive) (cs1 : list cell) (c : cell) (cs2 : list cell) (xs : list item)
    (it : positive) (tg vl : option positive) :
  deque_inv h q ts s e (cs1 ++ c :: cs2) xs →
  iters h !! it = Some (mk_iter (Some q) (Some (c_node c)) tg vl) →
  ∃ xs1 x xs2 h1 h2,
    xs = xs1 ++ x :: xs2 ∧ length xs1 = length cs1 ∧
    pgagroal_deque_iterator_remove (Some it) h = Ok tt h1 ∧
    deque_inv h1 q ts s e (cs1 ++ cs2) (xs1 ++ xs2) ∧
    nodes h1 !! c_node c = None ∧
    pgagroal_deque_size (Some q) h1 = Ok (Z.of_nat (length xs) - 1) h1 ∧
    iters h1 !! it =
      Some (match last cs1 with
            | None => mk_iter (Some q) (Some s) None None
            | Some cp => mk_iter (Some q) (Some (c_node cp)) (c_tag cp) (Some (c_val cp))
            end) ∧
    pgagroal_deque_iterator_next (Some it) h1 = Ok (bool_decide (cs2 ≠ [])) h2 ∧
    it_cur <$> iters h2 !! it = Some (c_node <$> head cs2) ∧
    (∀ c2, head cs2 = Some c2 →
       iters h2 !! it =
         Some (mk_iter (Some q) (Some (c_node c2)) (c_tag c2) (Some (c_val c2)))).
Proof.
  intros Hinv Hit.
  destruct (iterator_remove_rep _ _ _ _ _ _ _ _ _ _ _ _ Hinv Hit)
    as (xs1 & x & xs2 & h1 & -> & Hl1 & Hrm & Hinv1 & Hfree & Hit1).
  assert (iters h1 !! it =
            Some (match last cs1 with
                  | None => mk_iter (Some q) (Some s) None None
                  | Some cp => mk_iter (Some q) (Some (c_node cp)) (c_tag cp)
                                 (Some (c_val cp))
                  end)) as Hit1'.
  { rewrite Hit1. apply lookup_insert_eq. }
  assert (pgagroal_deque_size (Some q) h1
          = Ok (Z.of_nat (length (xs1 ++ x :: xs2)) - 1) h1) as Hsize.
  { destruct Hinv1 as [Hrep1 _].
    destruct (rep_deque _ _ _ _ _ _ _ _ Hrep1) as (mu & Hd1 & Hmu1).
    replace (Z.of_nat (length (xs1 ++ x :: xs2)) - 1)
      with (Z.of_nat (length (xs1 ++ xs2))) by (rewrite !length_app; cbn; lia).
    by eapply size_Ok. }
  assert (∀ a tg' vl',
            iters h1 !! it = Some (mk_iter (Some q) (Some a) tg' vl') →
            (a = s ∧ cs2 = cs1 ++ cs2) ∨ (∃ cs0 c0, cs1 ++ cs2 = cs0 ++ c0 :: cs2 ∧ a = c_node c0) →
            ∃ h2, pgagroal_deque_iterator_next (Some it) h1 = Ok (bool_decide (cs2 ≠ [])) h2 ∧
                  it_cur <$> iters h2 !! it = Some (c_node <$> head cs2) ∧
                  (∀ c2, head cs2 = Some c2 →
                     iters h2 !! it =
                       Some (mk_iter (Some q) (Some (c_node c2)) (c_tag c2)
                               (Some (c_val c2))))) as Hstep.
  { intros a tg' vl' Hi Hpos.
    pose proof (iterator_next_Ok h1 q ts s e _ _ it tg' vl' a cs2 Hinv1 Hi Hpos) as Hnext.
    destruct cs2 as [|c2 cs2']; eexists; (split; [exact Hnext|]); split.
    - heap_simpl. by rewrite lookup_insert_eq.
    - intros ? [=].
    - heap_simpl. by rewrite lookup_insert_eq.
    - intros ? [= <-]. heap_simpl. by rewrite lookup_insert_eq. }
  destruct cs1 as [|cp cs1' _] using rev_ind.
  - cbn [last] in Hit1'.
    destruct (Hstep s None None Hit1') as (h2 & Hn & Hc & Hv); [by left|].
    exists xs1, x, xs2, h1, h2. done.
  - rewrite last_snoc in Hit1'.
    destruct (Hstep (c_node cp) (c_tag cp) (Some (c_val cp)) Hit1')
      as (h2 & Hn & Hc & Hv).
    { right. exists cs1', cp. by rewrite <-app_assoc. }
    exists xs1, x, xs2, h1, h2. rewrite last_snoc. done.
Qed.

Lemma C5_iterator_remove_then_next_witness :
  ∃ q h1 h2 it h3 h4 h5 h6,
    pgagroal_deque_create false empty_heap = Ok (0, Some q) h1 ∧
    add_all (Some q)
      [mk_item (Some "a"%string) 11 ValueInt32; mk_item None 22 ValueInt32] h1 = Ok tt h2 ∧
    pgagroal_deque_iterator_create (Some q) h2 = Ok (0, Some (Some it)) h3 ∧
    pgagroal_deque_iterator_next (Some it) h3 = Ok true h4 ∧
    pgagroal_deque_iterator_remove (Some it) h4 = Ok tt h5 ∧
    pgagroal_deque_size (Some q) h5 = Ok 1 h5 ∧
    it_tag <$> iters h5 !! it = Some None ∧
    pgagroal_deque_iterator_next (Some it) h5 = Ok true h6.
Proof.
  destruct (create_adds false empty_heap
              [mk_item (Some "a"%string) 11 ValueInt32; mk_item None 22 ValueInt32])
    as (q & s & e & cs & h1 & h2 & Hc & Ha & Hrep).
  assert (deque_inv h2 q false s e cs
            [mk_item (Some "a"%string) 11 ValueInt32; mk_item None 22 ValueInt32])
    as Hinv by (split; [exact Hrep|cbn; lia]).
  pose proof (cells_length _ _ _ (rep_cells _ _ _ _ _ _ _ _ Hrep)) as Hl.
  destruct cs as [|c1 [|c2 [|? ?]]]; try discriminate Hl.
  destruct (rep_deque _ _ _ _ _ _ _ _ Hrep) as (mu & Hd & _).
  destruct (iterator_create_Ok h2 q _ Hd) as (it & Hfresh & Hcreate).
  cbn [dq_start] in Hcreate.
  set (h3 := with_iters (insert it (mk_iter (Some q) (Some s) None None)) h2) in *.
  assert (iters h3 !! it = Some (mk_iter (Some q) (Some s) None None)) as Hit3
    by apply lookup_insert_eq.
  pose proof (iterator_next_Ok h3 q false s e _ _ it None None s [c1; c2]
                (deque_inv_with_iters _ _ _ _ _ _ _ _ Hinv) Hit3
                (or_introl (conj eq_refl eq_refl))) as Hnext.
  cbv iota in Hnext.
  set (h4 := with_iters
               (insert it (mk_iter (Some q) (Some (c_node c1)) (c_tag c1) (Some (c_val c1))))
               h3) in *.
  assert (iters h4 !! it
          = Some (mk_iter (Some q) (Some (c_node c1)) (c_tag c1) (Some (c_val c1)))) as Hit4
    by apply lookup_insert_eq.
  destruct (C5_iterator_remove_then_next h4 q false s e [] c1 [c2]
              [mk_item (Some "a"%string) 11 ValueInt32; mk_item None 22 ValueInt32]
              it (c_tag c1) (Some (c_val c1)))
    as (xs1 & x & xs2 & h5 & h6 & _ & _ & Hrm & _ & _ & Hsz & Hit5 & Hnx & _).
  { apply deque_inv_with_iters. apply deque_inv_with_iters. exact Hinv. }
  { exact Hit4. }
  exists q, h1, h2, it, h3, h4, h5, h6.
  split; [exact Hc|]. split; [exact Ha|]. split; [exact Hcreate|].
  split; [exact Hnext|]. split; [exact Hrm|]. split; [exact Hsz|].
  split; [|exact Hnx]. rewrite Hit5. reflexivity.
Defined.

(** With a size field of 1 and two elements or more in the chain: the
    iterator reaches the first element, removing it brings the size field to
    0, and the next [iterator_next] reports the end although the second
    element is still in the chain. *)
Lemma iterator_skips_at_size_one h q ts s e c1 c2 cs x1 x2 xs it :
  deque_rep h q ts s e 1 (c1 :: c2 :: cs) (x1 :: x2 :: xs) →
  iters h !! it = Some (mk_iter (Some q) (Some s) None None) →
  ∃ h4 h5 h6,
    pgagroal_deque_iterator_next (Some it) h = Ok true h4 ∧
    it_cur <$> iters h4 !! it = Some (Some (c_node c1)) ∧
    n_next <$> nodes h4 !! c_node c1 = Some (Some (c_node c2)) ∧
    dq_end <$> deques h4 !! q = Some (Some e) ∧ c_node c2 ≠ e ∧
    pgagroal_deque_iterator_remove (Some it) h4 = Ok tt h5 ∧
    pgagroal_deque_size (Some q) h5 = Ok 0 h5 ∧
    pgagroal_deque_iterator_next (Some it) h5 = Ok false h6 ∧
    it_cur <$> iters h6 !! it = Some None ∧
    n_data <$> nodes h6 !! c_node c2 = Some (Some (c_val c2)) ∧
    values h6 !! c_val c2 = Some (mk_value (i_type x2) (i_data x2)).
Proof.
  intros Hrep Hit.
  pose proof (iterator_next_rep h q ts s e 1 _ _ it None None s (c1 :: c2 :: cs)
                Hrep ltac:(lia) Hit (or_introl (conj eq_refl eq_refl))) as Hnext.
  cbv iota in Hnext.
  set (h4 := with_iters
               (insert it (mk_iter (Some q) (Some (c_node c1)) (c_tag c1) (Some (c_val c1))))
               h) in *.
  assert (deque_rep h4 q ts s e 1 ([] ++ c1 :: c2 :: cs) (x1 :: x2 :: xs)) as Hrep4.
  { destruct Hrep as [H1 H2 H3 H4 H5 H6 H7]. split; done. }
  assert (iters h4 !! it
          = Some (mk_iter (Some q) (Some (c_node c1)) (c_tag c1) (Some (c_val c1)))) as Hit4
    by apply lookup_insert_eq.
  destruct (iterator_remove_gen h4 q ts s e 1 [] c1 (c2 :: cs) _ it _ _ Hrep4 Hit4)
    as (xs1 & x & xs2 & p & nx & h5 & Exs & Hl1 & _ & _ & Hrm & Hrep5 & _ & _ & _ & _ & HI5).
  destruct xs1 as [|? ?]; [|discriminate Hl1].
  cbn [app] in Exs, Hrep5. injection Exs as <- <-.
  change (wrap32 (1 - 1)) with 0 in Hrep5.
  cbn [last] in HI5.
  destruct (rep_deque _ _ _ _ _ _ _ _ Hrep5) as (mu5 & Hd5 & Hmu5).
  assert (iters h5 !! it = Some (mk_iter (Some q) (Some s) None None)) as Hit5.
  { rewrite HI5. apply lookup_insert_eq. }
  pose proof (iterator_next_size0 h5 q _ it (Some s) None None Hd5 eq_refl Hit5) as Hnext5.
  destruct (rep_next h q ts s e 1 [] c1 (c2 :: cs) _ Hrep) as (na & Ha & Hnx).
  destruct (rep_deque _ _ _ _ _ _ _ _ Hrep) as (mu & Hd & Hmu).
  pose proof (rep_nodup _ _ _ _ _ _ _ _ Hrep) as Hnd.
  assert (c_node c2 ≠ e) as Hne.
  { cbn in Hnd. apply NoDup_cons in Hnd as [_ Hnd]. apply NoDup_cons in Hnd as [_ Hnd].
    apply NoDup_cons in Hnd as [Hnd _]. intros Heq. apply Hnd. rewrite Heq.
    apply elem_of_app. right. left. }
  pose proof (rep_cells _ _ _ _ _ _ _ _ Hrep5) as HF.
  apply Forall2_cons_1 in HF as [(Hcd & _ & Hcv & _) _].
  eexists h4, h5, _.
  split; [exact Hnext|]. split; [by rewrite Hit4|]. split.
  { change (nodes h4) with (nodes h). rewrite Ha. cbn [fmap option_fmap option_map].
    f_equal. cbn [head fmap option_fmap option_map] in Hnx.
    destruct (ptr_eqb (n_next na) (Some e)); [discriminate Hnx|exact Hnx]. }
  split; [change (deques h4) with (deques h); by rewrite Hd|].
  split; [exact Hne|]. split; [exact Hrm|].
  split; [by eapply size_Ok|]. split; [exact Hnext5|].
  split; [heap_simpl; by rewrite lookup_insert_eq|].
  split; [exact Hcd|exact Hcv].
Qed.

Lemma over_items_size : wrap32 (Z.of_nat (length over_items)) = 1.
Proof.
  unfold over_items. rewrite length_cons, Nat2Z.inj_succ, wrap_items_length.
  reflexivity.
Qed.

(** C5 fails after 2^32 + 1 adds.  The size field has wrapped to 1: the
    iterator reaches the first element, removing it brings the size field to
    0, and the next [iterator_next] returns false with a [NULL] cursor,
    although the node that followed the removed one is still in the chain
    with its payload 1: the successor is skipped. *)
Lemma C5_counterexample :
  ∃ q h1 h2 it h3 h4 a b vb h5 h6,
    pgagroal_deque_create false empty_heap = Ok (0, Some q) h1 ∧
    add_all (Some q) over_items h1 = Ok tt h2 ∧
    pgagroal_deque_iterator_create (Some q) h2 = Ok (0, Some (Some it)) h3 ∧
    pgagroal_deque_iterator_next (Some it) h3 = Ok true h4 ∧
    it_cur <$> iters h4 !! it = Some (Some a) ∧
    n_next <$> nodes h4 !! a = Some (Some b) ∧
    dq_end <$> deques h4 !! q ≠ Some (Some b) ∧
    pgagroal_deque_iterator_remove (Some it) h4 = Ok tt h5 ∧
    pgagroal_deque_size (Some q) h5 = Ok 0 h5 ∧
    pgagroal_deque_iterator_next (Some it) h5 = Ok false h6 ∧
    it_cur <$> iters h6 !! it = Some None ∧
    n_data <$> nodes h6 !! b = Some (Some vb) ∧
    values h6 !! vb = Some (mk_value ValueInt32 1).
Proof.
  destruct (create_adds false empty_heap over_items)
    as (q & s & e & cs & h1 & h2 & Hc & Ha & Hrep).
  rewrite over_items_size in Hrep.
  pose proof (rep_cells _ _ _ _ _ _ _ _ Hrep) as HF.
  unfold over_items in HF. rewrite wrap_items_cons in HF.
  apply Forall2_cons_inv_r in HF as (c1 & cs1 & _ & HF & ->).
  apply Forall2_cons_inv_r in HF as (c2 & cs2 & _ & _ & ->).
  destruct (rep_deque _ _ _ _ _ _ _ _ Hrep) as (mu & Hd & _).
  destruct (iterator_create_Ok h2 q _ Hd) as (it & Hfresh & Hcreate).
  cbn [dq_start] in Hcreate.
  set (h3 := with_iters (insert it (mk_iter (Some q) (Some s) None None)) h2) in *.
  assert (iters h3 !! it = Some (mk_iter (Some q) (Some s) None None)) as Hit3
    by apply lookup_insert_eq.
  assert (deque_rep h3 q false s e 1 (c1 :: c2 :: cs2)
            (mk_item None 11 ValueInt32 :: mk_item None 1 ValueInt32 ::
             replicate (Z.to_nat 4294967295) (mk_item None 1 ValueInt32))) as Hrep3.
  { unfold over_items in Hrep. rewrite wrap_items_cons in Hrep.
    destruct Hrep as [H1 H2 H3 H4 H5 H6 H7]. split; assumption. }
  destruct (iterator_skips_at_size_one h3 q false s e c1 c2 cs2 _ _ _ it Hrep3 Hit3)
    as (h4 & h5 & h6 & Hn4 & Hcur4 & Hnx4 & He4 & Hne & Hrm & Hsz5 & Hn5 & Hcur6 & Hd6 & Hv6).
  exists q, h1, h2, it, h3, h4, (c_node c1), (c_node c2), (c_val c2), h5, h6.
  split; [exact Hc|]. split; [exact Ha|]. split; [exact Hcreate|].
  split; [exact Hn4|]. split; [exact Hcur4|]. split; [exact Hnx4|].
  split; [rewrite He4; intros [= Heq]; exact (Hne (eq_sym Heq))|].
  split; [exact Hrm|]. split; [exact Hsz5|]. split; [exact Hn5|].
  split; [exact Hcur6|]. split; [exact Hd6|exact Hv6].
Qed.

(** ** Exhausted iterators and lookups that find nothing *)

Lemma iterator_next_exhausted h it i :
  iters h !! it = Some i → it_cur i = None →
  (it_deque i = None ∨ ∃ q, it_deque i = Some q ∧ is_Some (deques h !! q)) →
  pgagroal_deque_iterator_next (Some it) h = Ok false h.
Proof.
  intros Hi Hcur Hdq. destruct i as [idq icur itg ivl]. cbn in Hcur, Hdq. subst icur.
  assert (with_iters (alter (set_it_cur NULL) it) h = h) as Hid.
  { rewrite (with_iters_alter _ _ _ _ Hi). by apply with_iters_insert_id. }
  unfold pgagroal_deque_iterator_next. step. step.
  destruct Hdq as [->|(q & -> & [d Hd])].
  - unfold deque_next. step. step. rewrite Hid. step. done.
  - unfold deque_next. step. step.
    destruct (dq_size d =? 0); step; step; rewrite Hid; step; done.
Qed.

(** C10: once the cursor of an iterator is NULL, every further
    [iterator_next] returns false and changes nothing. *)
Theorem C10_exhausted_iterator_stays (h : heap) (it : positive) (i : deque_iterator)
    (n : nat) :
  iters h !! it = Some i → it_cur i = None →
  (it_deque i = None ∨ ∃ q, it_deque i = Some q ∧ is_Some (deques h !! q)) →
  iterator_next_n (Some it) n h = Ok (replicate n false) h.
Proof.
  intros Hi Hcur Hdq. induction n as [|n IH]; [done|].
  cbn [iterator_next_n replicate].
  eapply bind_Ok; [by eapply iterator_next_exhausted|].
  eapply bind_Ok; [exact IH|]. reflexivity.
Qed.

Lemma C10_exhausted_iterator_stays_witness :
  iterator_next_n (Some 1%positive) 3
    (mk_heap ∅ ∅ ∅ ∅ {[1%positive := mk_iter None None None None]})
  = Ok [false; false; false]
      (mk_heap ∅ ∅ ∅ ∅ {[1%positive := mk_iter None None None None]}).
Proof.
  apply (C10_exhausted_iterator_stays
           (mk_heap ∅ ∅ ∅ ∅ {[1%positive := mk_iter None None None None]})
           1%positive (mk_iter None None None None) 3).
  - reflexivity.
  - reflexivity.
  - left. reflexivity.
Defined.

Lemma peek_empty h q ts mu s e wt :
  deques h !! q = Some (mk_deque 0 ts mu s e) → (ts = true → mu = LockFree) →
  pgagroal_deque_peek (Some q) wt h = Ok (0, None) h.
Proof.
  intros Hd Hmu. unfold pgagroal_deque_peek.
  eapply bind_Ok; [by eapply size_Ok|]. reflexivity.
Qed.

(** C6: a lookup that misses, a poll or peek on an empty deque and an
    [iterator_next] at the last element return 0 (or false) and leave the
    deque as it was. *)
Theorem C6_not_found_returns_empty (h : heap) (q : positive) (ts : bool)
    (s e : positive) (cs : list cell) (xs : list item) :
  deque_inv h q ts s e cs xs →
  (∀ t, (∀ x, x ∈ xs → i_tag x ≠ Some t) →
        pgagroal_deque_get (Some q) (Some t) h = Ok 0 h) ∧
  (xs = [] → ∀ want_tag,
     pgagroal_deque_poll (Some q) want_tag h = Ok (0, None) h ∧
     pgagroal_deque_peek (Some q) want_tag h = Ok (0, None) h) ∧
  (∀ it tg vl a,
     iters h !! it = Some (mk_iter (Some q) (Some a) tg vl) →
     (a = s ∧ cs = []) ∨ (∃ cs1 c, cs = cs1 ++ [c] ∧ a = c_node c) →
     ∃ h', pgagroal_deque_iterator_next (Some it) h = Ok false h' ∧
           nodes h' = nodes h ∧ values h' = values h ∧ strs h' = strs h ∧
           deques h' = deques h ∧
           iters h' = <[it := mk_iter (Some q) None tg vl]> (iters h)).
Proof.
  intros Hinv. split; [|split].
  - intros t Ht. rewrite (get_Ok _ _ _ _ _ _ _ (Some t) Hinv). unfold get_spec.
    rewrite (find_none_tag t xs Ht). by destruct (bool_decide _).
  - intros -> wt. destruct Hinv as [Hrep _].
    destruct (rep_deque _ _ _ _ _ _ _ _ Hrep) as (mu & Hd & Hmu).
    split; [by eapply poll_empty|by eapply peek_empty].
  - intros it tg vl a Hit Hpos.
    pose proof (iterator_next_Ok h q ts s e cs xs it tg vl a [] Hinv Hit) as Hnext.
    eexists. split; [apply Hnext|done].
    destruct Hpos as [[-> ->]|(cs1 & c & -> & ->)]; [by left|right; eauto].
Qed.

Lemma C6_not_found_returns_empty_witness :
  ∃ q h1 h2,
    pgagroal_deque_create true empty_heap = Ok (0, Some q) h1 ∧
    add_all (Some q) [mk_item (Some "a"%string) 1 ValueInt32] h1 = Ok tt h2 ∧
    pgagroal_deque_get (Some q) (Some "zz"%string) h2 = Ok 0 h2 ∧
    pgagroal_deque_poll (Some q) true h1 = Ok (0, None) h1 ∧
    pgagroal_deque_peek (Some q) true h1 = Ok (0, None) h1.
Proof.
  destruct (create_Ok true empty_heap) as (q & s & e & h1 & Hc & Hinv1 & _).
  destruct (add_all_rep [mk_item (Some "a"%string) 1 ValueInt32] _ _ _ _ _ _ _ _
              (proj1 Hinv1)) as (cs & h2 & Ha & Hrep & _).
  exists q, h1, h2. split; [exact Hc|]. split; [exact Ha|].
  split.
  - apply (C6_not_found_returns_empty h2 q true s e ([] ++ cs)
             ([] ++ [mk_item (Some "a"%string) 1 ValueInt32])).
    + split; [exact Hrep|cbn; lia].
    + intros x Hx. apply list_elem_of_singleton in Hx. subst x. discriminate.
  - apply (C6_not_found_returns_empty h1 q true s e [] [] Hinv1). reflexivity.
Defined.

(** ** NULL arguments *)

(** C7, add apart: with a NULL deque or a NULL iterator, poll, peek, get,
    size, empty, to_string and the iterator's next, remove and destroy return
    a neutral result and leave the heap as it was.  to_string renders an
    empty deque: in the JSON format [[]] after the indented context tag; in
    the text format [[]] alone when there is no context tag or the tag is
    the bullet point, and [[]] after the indented context tag otherwise,
    provided [indent + INDENT_PER_LEVEL] fits an [int] (the sum is computed
    before the deque is tested; it is undefined when it overflows).
    to_string returns NULL only for a format it does not know;
    iterator_create returns the status 1 and creates nothing. *)
Theorem C7_null_arguments_neutral (h : heap) :
  (∀ want_tag, pgagroal_deque_poll None want_tag h = Ok (0, None) h) ∧
  (∀ want_tag, pgagroal_deque_peek None want_tag h = Ok (0, None) h) ∧
  (∀ tag, pgagroal_deque_get None tag h = Ok 0 h) ∧
  pgagroal_deque_size None h = Ok 0 h ∧
  pgagroal_deque_empty None h = Ok true h ∧
  (∀ FORMAT_JSON FORMAT_TEXT INDENT_PER_LEVEL BULLET_POINT value_to_string tag indent,
     pgagroal_deque_to_string FORMAT_JSON FORMAT_TEXT INDENT_PER_LEVEL BULLET_POINT
       value_to_string None FORMAT_JSON tag indent h
     = Ok (pgagroal_append (pgagroal_indent None tag indent) (Some "[]"%string)) h) ∧
  (∀ FORMAT_JSON FORMAT_TEXT INDENT_PER_LEVEL BULLET_POINT value_to_string tag indent,
     FORMAT_TEXT ≠ FORMAT_JSON →
     (tag = None ∨ tag = Some BULLET_POINT →
      pgagroal_deque_to_string FORMAT_JSON FORMAT_TEXT INDENT_PER_LEVEL BULLET_POINT
        value_to_string None FORMAT_TEXT tag indent h
      = Ok (Some "[]"%string) h) ∧
     (∀ t, tag = Some t → t ≠ BULLET_POINT →
           -2147483648 ≤ indent + INDENT_PER_LEVEL ≤ 2147483647 →
      pgagroal_deque_to_string FORMAT_JSON FORMAT_TEXT INDENT_PER_LEVEL BULLET_POINT
        value_to_string None FORMAT_TEXT tag indent h
      = Ok (pgagroal_append (pgagroal_indent None tag indent) (Some "[]"%string)) h) ∧
     (∀ t, tag = Some t → t ≠ BULLET_POINT →
           ¬ (-2147483648 ≤ indent + INDENT_PER_LEVEL ≤ 2147483647) →
      pgagroal_deque_to_string FORMAT_JSON FORMAT_TEXT INDENT_PER_LEVEL BULLET_POINT
        value_to_string None FORMAT_TEXT tag indent h
      = Undefined)) ∧
  (∀ FORMAT_JSON FORMAT_TEXT INDENT_PER_LEVEL BULLET_POINT value_to_string deque
     format tag indent,
     format ≠ FORMAT_JSON → format ≠ FORMAT_TEXT →
     pgagroal_deque_to_string FORMAT_JSON FORMAT_TEXT INDENT_PER_LEVEL BULLET_POINT
       value_to_string deque format tag indent h
     = Ok None h) ∧
  pgagroal_deque_iterator_next None h = Ok false h ∧
  pgagroal_deque_iterator_remove None h = Ok tt h ∧
  pgagroal_deque_iterator_destroy None h = Ok tt h ∧
  pgagroal_deque_iterator_create None h = Ok (1, None) h.
Proof.
  split_and!; try reflexivity.
  - intros [t|]; [|reflexivity]. unfold pgagroal_deque_get, deque_find. cbn.
    by destruct (strlen_is_zero t).
  - intros FJ FT IPL BP vts tag indent. unfold pgagroal_deque_to_string.
    by rewrite Z.eqb_refl.
  - intros FJ FT IPL BP vts tag indent Hne. unfold pgagroal_deque_to_string.
    rewrite (proj2 (Z.eqb_neq _ _) Hne), Z.eqb_refl.
    unfold to_text_string, pgagroal_compare_string. split; [|split].
    + intros [->| ->].
      * step. reflexivity.
      * rewrite bool_decide_eq_true_2 by done. cbn [negb]. step. reflexivity.
    + intros t -> Ht Hrange.
      rewrite bool_decide_eq_false_2 by congruence. cbn [negb].
      unfold int_add. rewrite bool_decide_eq_true_2 by done.
      rewrite bind_assoc. step. step. reflexivity.
    + intros t -> Ht Hrange.
      rewrite bool_decide_eq_false_2 by congruence. cbn [negb].
      unfold int_add. rewrite bool_decide_eq_false_2 by done. reflexivity.
  - intros FJ FT IPL BP vts dq format tag indent H1 H2.
    unfold pgagroal_deque_to_string.
    by rewrite (proj2 (Z.eqb_neq _ _) H1), (proj2 (Z.eqb_neq _ _) H2).
Qed.

Lemma C7_null_arguments_neutral_witness :
  pgagroal_deque_to_string 0 1 2 "- "%string (λ _ _ _ _, None) None 7 None 0 empty_heap
  = Ok None empty_heap ∧
  pgagroal_deque_to_string 0 1 2 "- "%string (λ _ _ _ _, None) None 1 (Some "k:"%string) 3
    empty_heap
  = Ok (Some "   k:[]"%string) empty_heap ∧
  pgagroal_deque_to_string 0 1 2 "- "%string (λ _ _ _ _, None) None 1 (Some "- "%string) 3
    empty_heap
  = Ok (Some "[]"%string) empty_heap.
Proof.
  destruct (C7_null_arguments_neutral empty_heap)
    as (_ & _ & _ & _ & _ & _ & Htext & Hother & _).
  split; [apply Hother; discriminate|].
  split.
  - apply (proj1 (proj2 (Htext 0 1 2 "- "%string (λ _ _ _ _, None) (Some "k:"%string) 3
                           ltac:(discriminate))) "k:"%string).
    + reflexivity.
    + discriminate.
    + lia.
  - apply (proj1 (Htext 0 1 2 "- "%string (λ _ _ _ _, None) (Some "- "%string) 3
                    ltac:(discriminate))).
    right. reflexivity.
Defined.

(** C7 as stated fails: add dereferences the NULL deque, iterator_create
    answers a NULL deque with the error status 1, and to_string renders a
    NULL deque as [[]], not as a NULL string. *)
Lemma C7_counterexample :
  pgagroal_deque_add None None 0 ValueInt32 empty_heap = Undefined ∧
  pgagroal_deque_iterator_create None empty_heap = Ok (1, None) empty_heap ∧
  pgagroal_deque_to_string 0 1 2 "- "%string (λ _ _ _ _, None) None 0 None 0 empty_heap
  = Ok (Some "[]"%string) empty_heap.
Proof. split; [|split]; reflexivity. Qed.

(** ** The structural invariant *)

Lemma inv_structural h q ts s e cs xs :
  deque_inv h q ts s e cs xs → structural_invariant h q.
Proof.
  intros [Hrep Hlen].
  destruct (rep_deque _ _ _ _ _ _ _ _ Hrep) as (mu & Hd & Hmu).
  pose proof (cells_length _ _ _ (rep_cells _ _ _ _ _ _ _ _ Hrep)) as Hcl.
  pose proof (rep_linked _ _ _ _ _ _ _ _ Hrep) as HL.
  pose proof (rep_nodup _ _ _ _ _ _ _ _ Hrep) as Hnd.
  eexists _, s, e. split; [exact Hd|]. split; [done|]. split; [done|]. split.
  - cbn [dq_size]. split.
    + intros [Hn _]. destruct cs as [|c cs]; [destruct xs; [done|done]|].
      exfalso. cbn in HL. destruct HL as [[Hn' _] _]. rewrite Hn in Hn'.
      injection Hn' as Heq. apply NoDup_cons in Hnd as [_ Hnd]. cbn in Hnd.
      apply NoDup_cons in Hnd as [Hnd _]. apply Hnd. rewrite <-Heq.
      apply elem_of_app. right. left.
    + intros Hz. destruct xs; [|done]. destruct cs; [|done].
      cbn in HL. by destruct HL as [[? ?] _].
  - exists (c_node <$> cs). split; [done|]. split; [done|].
    cbn [dq_size]. rewrite length_fmap. lia.
Qed.

Lemma rep_not_structural h q ts s e c cs xs :
  deque_rep h q ts s e 0 (c :: cs) xs → ¬ structural_invariant h q.
Proof.
  intros Hrep (d & s' & e' & Hd' & Hs' & He' & [_ Hiff] & _).
  destruct (rep_deque _ _ _ _ _ _ _ _ Hrep) as (mu & Hd & Hmu).
  rewrite Hd in Hd'. injection Hd' as <-. cbn in Hs', He', Hiff.
  injection Hs' as <-. injection He' as <-.
  destruct (Hiff eq_refl) as [Hn _].
  pose proof (rep_linked _ _ _ _ _ _ _ _ Hrep) as HL.
  pose proof (rep_nodup _ _ _ _ _ _ _ _ Hrep) as Hnd.
  cbn in HL. destruct HL as [[Hn' _] _]. rewrite Hn in Hn'.
  injection Hn' as Heq. apply NoDup_cons in Hnd as [_ Hnd]. cbn in Hnd.
  apply NoDup_cons in Hnd as [Hnd _]. apply Hnd. rewrite <-Heq.
  apply elem_of_app. right. left.
Qed.

Lemma add_inv h q ts s e cs xs tag data type :
  deque_inv h q ts s e cs xs → Z.of_nat (length xs) < 4294967295 →
  ∃ c h',
    pgagroal_deque_add (Some q) tag data type h = Ok 0 h' ∧
    deque_inv h' q ts s e (cs ++ [c]) (xs ++ [mk_item tag data type]).
Proof.
  intros [Hrep Hlen] Hmax.
  destruct (add_rep _ _ _ _ _ _ _ _ tag data type Hrep) as (c & h' & Hex & Hrep' & _).
  exists c, h'. split; [done|]. rewrite wrap32_small in Hrep' by lia.
  split; rewrite length_app; cbn [length]; [|lia].
  replace (Z.of_nat (length xs + 1)) with (Z.of_nat (length xs) + 1) by lia. done.
Qed.

Lemma poll_inv h q ts s e cs xs wt :
  deque_inv h q ts s e cs xs →
  ∃ r h', pgagroal_deque_poll (Some q) wt h = Ok r h' ∧
          deque_inv h' q ts s e (drop 1 cs) (drop 1 xs).
Proof.
  intros [Hrep Hlen].
  pose proof (cells_length _ _ _ (rep_cells _ _ _ _ _ _ _ _ Hrep)) as Hcl.
  destruct cs as [|c cs].
  - destruct xs; [|done]. destruct (rep_deque _ _ _ _ _ _ _ _ Hrep) as (mu & Hd & Hmu).
    exists (0, None), h. split; [by eapply poll_empty|]. done.
  - destruct (poll_rep _ _ _ _ _ _ _ _ _ wt Hrep)
      as (x & xs' & h' & -> & Hex & Hrep' & _).
    { cbn in Hcl. lia. }
    eexists _, h'. split; [exact Hex|]. cbn [drop length] in *. rewrite !drop_0.
    rewrite wrap32_small in Hrep' by lia.
    replace (Z.of_nat (S (length xs')) - 1) with (Z.of_nat (length xs')) in Hrep' by lia.
    split; [done|lia].
Qed.

Lemma iterator_remove_noop h it q d tg vl cur :
  iters h !! it = Some (mk_iter (Some q) cur tg vl) →
  deques h !! q = Some d →
  cur = None ∨ cur = dq_start d ∨ cur = dq_end d →
  pgagroal_deque_iterator_remove (Some it) h = Ok tt h.
Proof.
  intros Hit Hd Hcur. unfold pgagroal_deque_iterator_remove. step.
  destruct cur as [a|]; [|done]. step. step.
  destruct Hcur as [Hc|[Hc|Hc]]; [done| |].
  - rewrite <-Hc, ptr_eqb_refl. done.
  - destruct (ptr_eqb (Some a) (dq_start d)); [done|]. step.
    rewrite <-Hc, ptr_eqb_refl. done.
Qed.

(** C2, within the range of [size]: the invariant holds after create and is kept by poll, by
    the iterator's remove, and by add as long as [size] is below 2^32 - 1.
    It is proved for [deque_wf], which adds to the invariant of the data
    model what the operations rely on (every node owns a live value cell and
    tag); the invariant in the spec's words follows from it. *)
Theorem C2_structural_invariant :
  (∀ ts h, ∃ q h',
     pgagroal_deque_create ts h = Ok (0, Some q) h' ∧
     deque_wf h' q ∧ structural_invariant h' q) ∧
  (∀ h q tag data type sz h0,
     deque_wf h q →
     pgagroal_deque_size (Some q) h = Ok sz h0 → sz < 4294967295 →
     ∃ h', pgagroal_deque_add (Some q) tag data type h = Ok 0 h' ∧
           deque_wf h' q ∧ structural_invariant h' q) ∧
  (∀ h q want_tag,
     deque_wf h q →
     ∃ r h', pgagroal_deque_poll (Some q) want_tag h = Ok r h' ∧
             deque_wf h' q ∧ structural_invariant h' q) ∧
  (∀ h q ts s e cs xs it tg vl cur,
     deque_inv h q ts s e cs xs →
     iters h !! it = Some (mk_iter (Some q) cur tg vl) →
     (cur = None ∨ ∃ a, cur = Some a ∧ a ∈ s :: (c_node <$> cs) ++ [e]) →
     ∃ h', pgagroal_deque_iterator_remove (Some it) h = Ok tt h' ∧
           deque_wf h' q ∧ structural_invariant h' q).
Proof.
  split; [|split; [|split]].
  - intros ts h. destruct (create_Ok ts h) as (q & s & e & h' & Hc & Hinv & _).
    exists q, h'. split; [done|]. split; [by exists ts, s, e, [], []|].
    by eapply inv_structural.
  - intros h q tag data type sz h0 (ts & s & e & cs & xs & Hinv) Hsize Hmax.
    destruct (rep_deque _ _ _ _ _ _ _ _ (proj1 Hinv)) as (mu & Hd & Hmu).
    rewrite (size_Ok _ _ _ _ _ _ _ Hd Hmu) in Hsize. injection Hsize as <- <-.
    destruct (add_inv _ _ _ _ _ _ _ tag data type Hinv Hmax) as (c & h' & Hex & Hinv').
    exists h'. split; [done|]. split; [by eexists ts, s, e, _, _|].
    by eapply inv_structural.
  - intros h q wt (ts & s & e & cs & xs & Hinv).
    destruct (poll_inv _ _ _ _ _ _ _ wt Hinv) as (r & h' & Hex & Hinv').
    exists r, h'. split; [done|]. split; [by eexists ts, s, e, _, _|].
    by eapply inv_structural.
  - intros h q ts s e cs xs it tg vl cur Hinv Hit Hcur.
    destruct (rep_deque _ _ _ _ _ _ _ _ (proj1 Hinv)) as (mu & Hd & Hmu).
    assert (∀ cur', cur = cur' → cur' = None ∨ cur' = Some s ∨ cur' = Some e →
            ∃ h', pgagroal_deque_iterator_remove (Some it) h = Ok tt h' ∧
                  deque_wf h' q ∧ structural_invariant h' q) as Hnoop.
    { intros cur' -> Hc. exists h. split.
      - by eapply iterator_remove_noop.
      - split; [by exists ts, s, e, cs, xs|by eapply inv_structural]. }
    destruct Hcur as [->|(a & -> & Ha)]; [by eapply Hnoop; eauto|].
    apply elem_of_cons in Ha as [->|Ha]; [by eapply Hnoop; eauto|].
    apply elem_of_app in Ha as [Ha|Ha%list_elem_of_singleton];
      [|subst a; by eapply Hnoop; eauto].
    apply list_elem_of_fmap in Ha as (c & -> & Hc).
    apply list_elem_of_split in Hc as (cs1 & cs2 & ->).
    destruct (iterator_remove_rep _ _ _ _ _ _ _ _ _ _ _ _ Hinv Hit)
      as (xs1 & x & xs2 & h' & -> & _ & Hrm & Hinv' & _).
    exists h'. split; [done|]. split; [by eexists ts, s, e, _, _|].
    by eapply inv_structural.
Qed.

Lemma C2_structural_invariant_witness :
  ∃ q h1 h2,
    pgagroal_deque_create false empty_heap = Ok (0, Some q) h1 ∧
    pgagroal_deque_add (Some q) (Some "a"%string) 5 ValueInt32 h1 = Ok 0 h2 ∧
    structural_invariant h2 q.
Proof.
  destruct C2_structural_invariant as (Hcreate & Hadd & _ & _).
  destruct (Hcreate false empty_heap) as (q & h1 & Hc & Hwf & _).
  destruct (Hadd h1 q (Some "a"%string) 5 ValueInt32 0 h1 Hwf) as (h2 & Ha & _ & Hinv).
  - destruct Hwf as (ts & s & e & cs & xs & Hinv).
    destruct (rep_deque _ _ _ _ _ _ _ _ (proj1 Hinv)) as (mu & Hd & Hmu).
    pose proof (cells_length _ _ _ (rep_cells _ _ _ _ _ _ _ _ (proj1 Hinv))) as Hl.
    rewrite (size_Ok _ _ _ _ _ _ _ Hd Hmu).
    destruct (create_Ok false empty_heap) as (q' & s' & e' & h1' & Hc' & Hinv0 & _).
    rewrite Hc in Hc'. injection Hc' as <- <-.
    destruct (rep_deque _ _ _ _ _ _ _ _ (proj1 Hinv0)) as (mu' & Hd' & _).
    rewrite Hd in Hd'. by injection Hd' as ->.
  - lia.
  - by exists q, h1, h2.
Defined.

Lemma max_items_length : Z.of_nat (length max_items) = 4294967295.
Proof. unfold max_items. rewrite length_replicate. apply Z2Nat.id. lia. Qed.

(** C2 fails for add when [size] is 2^32 - 1: the size field wraps to 0
    while the chain holds 2^32 nodes. *)
Lemma C2_counterexample :
  ∃ q h1 h2 h3,
    pgagroal_deque_create false empty_heap = Ok (0, Some q) h1 ∧
    add_all (Some q) max_items h1 = Ok tt h2 ∧
    structural_invariant h2 q ∧
    pgagroal_deque_add (Some q) None 1 ValueInt32 h2 = Ok 0 h3 ∧
    ¬ structural_invariant h3 q.
Proof.
  destruct (create_adds false empty_heap max_items)
    as (q & s & e & cs & h1 & h2 & Hc & Ha & Hrep).
  rewrite max_items_length in Hrep. change (wrap32 4294967295) with 4294967295 in Hrep.
  assert (deque_inv h2 q false s e cs max_items) as Hinv.
  { split; rewrite max_items_length; [exact Hrep|lia]. }
  destruct (add_rep _ _ _ _ _ _ _ _ None 1 ValueInt32 Hrep) as (c & h3 & Hadd & Hrep3 & _).
  change (wrap32 (4294967295 + 1)) with 0 in Hrep3.
  exists q, h1, h2, h3. split; [exact Hc|]. split; [exact Ha|].
  split; [by eapply inv_structural|]. split; [exact Hadd|].
  destruct cs as [|c0 cs0]; by eapply rep_not_structural.
Qed.

(** ** Serialization to JSON *)

Lemma string_app_assoc (s1 s2 s3 : string) :
  ((s1 +:+ s2) +:+ s3 = s1 +:+ (s2 +:+ s3))%string.
Proof.
  induction s1 as [|a s1 IH]; [done|].
  change (String a ((s1 +:+ s2) +:+ s3) = String a (s1 +:+ (s2 +:+ s3)))%string.
  by rewrite IH.
Qed.

Lemma string_app_nil_r (s : string) : (s +:+ "" = s)%string.
Proof.
  induction s as [|a s IH]; [done|].
  change (String a (s +:+ "") = String a s)%string. by rewrite IH.
Qed.

Lemma indent_iter_Some n acc :
  Nat.iter n (λ s, pgagroal_append s (Some " "%string)) (Some acc)
  = Some (acc +:+ Nat.iter n (λ s, s +:+ " ")%string EmptyString)%string.
Proof.
  induction n as [|n IH]; cbn [Nat.iter nat_rect].
  - by rewrite string_app_nil_r.
  - unfold Nat.iter in IH. rewrite IH. cbn. by rewrite string_app_assoc.
Qed.

Lemma append_Some_l acc o :
  pgagroal_append (Some acc) o = Some (acc +:+ default EmptyString o)%string.
Proof. destruct o; cbn; [done|]. by rewrite string_app_nil_r. Qed.

Lemma indent_acc acc indent :
  pgagroal_indent (Some acc) None indent = Some (acc +:+ spaces indent)%string.
Proof. unfold pgagroal_indent, spaces. cbn. apply indent_iter_Some. Qed.

Lemma rep_has_next h q ts s e sz cs1 c cs2 xs :
  deque_rep h q ts s e sz (cs1 ++ c :: cs2) xs →
  ∃ na, nodes h !! c_node c = Some na ∧
        ptr_eqb (n_next na) (Some e) = (if cs2 is [] then true else false) ∧
        (if ptr_eqb (n_next na) (Some e) then None else n_next na)
        = c_node <$> head cs2.
Proof.
  intros Hrep.
  destruct (rep_neighbours _ _ _ _ _ _ _ _ _ _ Hrep)
    as (P & p & S & nx & EP & ES & Hap & Han & Hpn & Hnp & Hnd & HLP & HLS).
  apply fmap_Some_inv in Han as (na & Ha & Han). exists na. split; [done|].
  rewrite Han. destruct cs2 as [|c2 cs2]; cbn in *.
  - injection ES as <- <-. by rewrite ptr_eqb_refl.
  - injection ES as <- <-. rewrite ptr_eqb_ne; [done|].
    apply NoDup_app in Hnd as (_ & _ & Hnd). apply NoDup_cons in Hnd as [_ Hnd].
    apply NoDup_cons in Hnd as [Hnd _]. intros Heq. apply Hnd. rewrite Heq.
    apply elem_of_app. right. left.
Qed.

Section json_proofs.
Variable FORMAT_JSON : Z.
Variable INDENT_PER_LEVEL : Z.
Variable value_to_string : value → Z → option string → Z → option string.

Lemma json_loop_Ok indent h0 h q ts s e sz cs xs d :
  deque_rep h0 q ts s e sz cs xs →
  nodes h = nodes h0 → strs h = strs h0 → values h = values h0 →
  deques h !! q = Some d → dq_size d ≠ 0 → dq_end d = Some e →
  -2147483648 ≤ indent + INDENT_PER_LEVEL ≤ 2147483647 →
  ∀ cs2 cs1 xs2 fuel acc,
    cs = cs1 ++ cs2 → Forall2 (cell_holds h0) cs2 xs2 →
    (length cs2 ≤ fuel)%nat →
    to_json_string_loop FORMAT_JSON INDENT_PER_LEVEL value_to_string fuel (Some q)
      indent (c_node <$> head cs2) (Some acc) h
    = Ok (Some (acc +:+ json_elements FORMAT_JSON INDENT_PER_LEVEL value_to_string
                         indent xs2)%string) h.
Proof.
  intros Hrep HN HS HV Hd Hsz He Hrange.
  induction cs2 as [|c cs2 IH]; intros cs1 xs2 fuel acc Ecs HF Hfuel.
  - apply Forall2_nil_inv_l in HF as ->. cbn. rewrite string_app_nil_r. by destruct fuel.
  - apply Forall2_cons_inv_l in HF as (x & xs2' & Hc & HF & ->).
    destruct fuel as [|fuel]; [cbn in Hfuel; lia|].
    subst cs.
    destruct (rep_has_next _ _ _ _ _ _ _ _ _ _ Hrep) as (na & Ha & Hhas & Hnext).
    destruct Hc as (Hcd & Hct & Hcv & Hcs).
    rewrite Ha in Hcd, Hct. cbn in Hcd, Hct.
    rewrite <-HN in Ha. rewrite <-HV in Hcv.
    unfold cstr in Hcs. rewrite <-HS in Hcs. fold (cstr h (c_tag c)) in Hcs.
    cbn [head fmap option_fmap option_map to_json_string_loop].
    step. step. rewrite He, Hhas. step.
    injection Hct as Hct. injection Hcd as Hcd. rewrite Hct.
    assert (∀ k : option string → M (option string),
              bind (match c_tag c with
                    | Some _ =>
                        s0 <- read_cstr (c_tag c) ;;
                        ret (pgagroal_append (pgagroal_append None s0) (Some ": "%string))
                    | None => ret None
                    end) k h = k (json_label (i_tag x)) h) as Hlabel.
    { intros k. destruct (c_tag c) as [tp|] eqn:Etp.
      - rewrite bind_assoc. eapply bind_Ok; [by apply read_cstr_Ok|].
        eapply bind_Ok; [apply ret_Ok|].
        cbn in Hcs. apply fmap_Some_inv in Hcs as (str & _ & <-). reflexivity.
      - cbn in Hcs. injection Hcs as <-. reflexivity. }
    rewrite Hlabel. step. rewrite Hcd.
    unfold int_add. rewrite bool_decide_eq_true_2 by done. step.
    unfold pgagroal_value_to_string. step. step. step.
    eapply bind_Ok; [by eapply deque_next_Ok|]. rewrite He, Hnext.
    rewrite !append_Some_l. cbn [id].
    rewrite (IH (cs1 ++ [c]) xs2' fuel).
    + f_equal. f_equal. cbn [json_elements default]. unfold json_element.
      destruct cs2, xs2'; try (by apply Forall2_length in HF);
        cbn [negb]; by rewrite !string_app_assoc.
    + by rewrite <-app_assoc.
    + done.
    + cbn in Hfuel. lia.
Qed.
End json_proofs.

Lemma to_json_string_Ok FORMAT_JSON INDENT_PER_LEVEL value_to_string
    h q ts s e cs xs tag indent :
  deque_inv h q ts s e cs xs →
  (xs ≠ [] → -2147483648 ≤ indent + INDENT_PER_LEVEL ≤ 2147483647) →
  to_json_string FORMAT_JSON INDENT_PER_LEVEL value_to_string (Some q) tag indent h
  = Ok (Some (json_spec FORMAT_JSON INDENT_PER_LEVEL value_to_string tag indent xs)) h.
Proof.
  intros [Hrep Hlen] Hrange.
  destruct (rep_deque _ _ _ _ _ _ _ _ Hrep) as (mu & Hd & Hmu).
  pose proof (cells_length _ _ _ (rep_cells _ _ _ _ _ _ _ _ Hrep)) as Hcl.
  unfold to_json_string, pgagroal_deque_empty.
  rewrite bind_assoc. eapply bind_Ok; [by eapply size_Ok|].
  eapply bind_Ok; [apply ret_Ok|].
  destruct xs as [|x0 xs0] eqn:Exs; [reflexivity|].
  rewrite <-Exs in *.
  assert (Z.of_nat (length xs) ≠ 0) as Hnz by (rewrite Exs; cbn; lia).
  rewrite (proj2 (Z.eqb_neq _ _) Hnz).
  destruct (rep_first _ _ _ _ _ _ _ _ Hrep) as (ns & Hs & Hfirst).
  assert (-2147483648 ≤ indent + INDENT_PER_LEVEL ≤ 2147483647) as Hr
    by (apply Hrange; by rewrite Exs).
  assert (∀ h1 d,
            nodes h1 = nodes h → strs h1 = strs h → values h1 = values h →
            deques h1 !! q = Some d → dq_size d = Z.of_nat (length xs) →
            dq_start d = Some s → dq_end d = Some e →
            ∀ k : option string → M (option string),
            (cur <- deque_next (Some q) (Some s) ;;
             r <- (λ h2, to_json_string_loop FORMAT_JSON INDENT_PER_LEVEL value_to_string
                           (S (size (nodes h2))) (Some q) indent cur
                           (pgagroal_append (pgagroal_indent None tag indent)
                              (Some ("[" +:+ newline)%string)) h2) ;;
             k r) h1
            = k (Some ((default EmptyString (pgagroal_indent None tag indent)
                        +:+ "[" +:+ newline)
                       +:+ json_elements FORMAT_JSON INDENT_PER_LEVEL value_to_string
                             indent xs)%string) h1) as Hloop.
  { intros h1 d HN HS HV Hd1 Hsz1 Hst1 He1 k.
    rewrite <-HN in Hs.
    eapply bind_Ok; [eapply deque_next_Ok; [exact Hd1|by rewrite Hsz1|exact Hs]|].
    rewrite He1, Hfirst.
    eapply bind_Ok; [|reflexivity].
    eapply (json_loop_Ok FORMAT_JSON INDENT_PER_LEVEL value_to_string indent h h1
              q ts s e _ cs xs d Hrep HN HS HV Hd1); try done.
    - by rewrite Hsz1.
    - instantiate (1 := []). done.
    - apply Hrep.
    - rewrite HN. pose proof (rep_fuel _ _ _ _ _ _ _ _ Hrep). lia. }
  assert (Some
            (((default EmptyString (pgagroal_indent None tag indent) +:+ "[" +:+ newline)
              +:+ json_elements FORMAT_JSON INDENT_PER_LEVEL value_to_string indent xs)
             +:+ spaces indent +:+ "]")%string
          = Some (json_spec FORMAT_JSON INDENT_PER_LEVEL value_to_string tag indent xs))
    as Hspec.
  { unfold json_spec. destruct xs as [|? ?]; [discriminate Exs|].
    by rewrite !string_app_assoc. }
  destruct ts; [rewrite (Hmu eq_refl) in Hd|].
  - steps.
    match goal with |- _ ?h1 = _ =>
      rewrite (Hloop h1 (mk_deque (Z.of_nat (length xs)) true (LockRead 0)
                           (Some s) (Some e)))
    end; try done; [|solve_lookup].
    rewrite indent_acc, append_Some_l. cbn [from_option id]. rewrite string_app_assoc.
    steps. unfold ret. rewrite Hspec. f_equal. by eapply lock_roundtrip.
  - steps. rewrite (Hloop h _ eq_refl eq_refl eq_refl Hd); try done.
    rewrite indent_acc, append_Some_l. cbn [from_option id]. rewrite string_app_assoc.
    steps. unfold ret. by rewrite Hspec.
Qed.

(** C9: in the JSON format a NULL deque and an empty deque are rendered,
    with no context tag and no indentation, as exactly [[]]; a deque with
    elements, whose size field counts them (fewer than 2^32), is rendered as
    the array of [json_spec]: the elements in insertion order, each written
    by the value renderer with the label [tag: ] (no quotation marks) when
    the node has a tag and with no label otherwise, separated by a comma and
    a newline, with a newline before the closing bracket. *)
Theorem C9_json_rendering (FORMAT_JSON FORMAT_TEXT INDENT_PER_LEVEL : Z)
    (BULLET_POINT : string)
    (value_to_string : value → Z → option string → Z → option string)
    (h : heap) (q : positive) (ts : bool) (s e : positive)
    (cs : list cell) (xs : list item) (tag : option string) (indent : Z) :
  deque_inv h q ts s e cs xs →
  (xs ≠ [] → -2147483648 ≤ indent + INDENT_PER_LEVEL ≤ 2147483647) →
  pgagroal_deque_to_string FORMAT_JSON FORMAT_TEXT INDENT_PER_LEVEL BULLET_POINT
    value_to_string (Some q) FORMAT_JSON tag indent h
  = Ok (Some (json_spec FORMAT_JSON INDENT_PER_LEVEL value_to_string tag indent xs)) h ∧
  pgagroal_deque_to_string FORMAT_JSON FORMAT_TEXT INDENT_PER_LEVEL BULLET_POINT
    value_to_string None FORMAT_JSON None 0 h
  = Ok (Some "[]"%string) h ∧
  json_spec FORMAT_JSON INDENT_PER_LEVEL value_to_string None 0 [] = "[]"%string.
Proof.
  intros Hinv Hrange. unfold pgagroal_deque_to_string. rewrite Z.eqb_refl.
  split; [by eapply to_json_string_Ok|]. split; reflexivity.
Qed.

Lemma C9_json_rendering_witness :
  ∃ q h1 h2,
    pgagroal_deque_create true empty_heap = Ok (0, Some q) h1 ∧
    add_all (Some q)
      [mk_item (Some "a"%string) 1 ValueInt32; mk_item None 2 ValueInt32] h1 = Ok tt h2 ∧
    pgagroal_deque_to_string 0 1 2 "- "%string digit_to_string (Some q) 0 None 0 h1
    = Ok (Some "[]"%string) h1 ∧
    pgagroal_deque_to_string 0 1 2 "- "%string digit_to_string (Some q) 0 None 0 h2
    = Ok (Some ("[" +:+ newline +:+ "  a: 1," +:+ newline +:+ "  2" +:+ newline +:+ "]")%string)
         h2.
Proof.
  destruct (create_Ok true empty_heap) as (q & s & e & h1 & Hc & Hinv1 & _).
  destruct (add_all_rep [mk_item (Some "a"%string) 1 ValueInt32; mk_item None 2 ValueInt32]
              _ _ _ _ _ _ _ _ (proj1 Hinv1)) as (cs & h2 & Ha & Hrep & _).
  exists q, h1, h2. split; [exact Hc|]. split; [exact Ha|]. split.
  - apply (C9_json_rendering 0 1 2 "- "%string digit_to_string h1 q true s e [] [] None 0
             Hinv1). intros H. by destruct H.
  - apply (C9_json_rendering 0 1 2 "- "%string digit_to_string h2 q true s e ([] ++ cs)
             ([] ++ [mk_item (Some "a"%string) 1 ValueInt32; mk_item None 2 ValueInt32])
             None 0).
    + split; [exact Hrep|cbn; lia].
    + intros _. lia.
Defined.

(** [to_json_string] on a deque whose size field is 0. *)
Lemma to_json_string_size0 FORMAT_JSON INDENT_PER_LEVEL value_to_string
    h q ts mu s e tag indent :
  deques h !! q = Some (mk_deque 0 ts mu s e) → (ts = true → mu = LockFree) →
  to_json_string FORMAT_JSON INDENT_PER_LEVEL value_to_string (Some q) tag indent h
  = Ok (pgagroal_append (pgagroal_indent None tag indent) (Some "[]"%string)) h.
Proof.
  intros Hd Hmu. unfold to_json_string, pgagroal_deque_empty.
  rewrite bind_assoc. eapply bind_Ok; [by eapply size_Ok|].
  eapply bind_Ok; [apply ret_Ok|]. reflexivity.
Qed.

(** C9 as stated fails twice.  The label that [to_json_string] hands to the
    value renderer for an element with the tag [a] is [a: ], with no quotation
    marks, whatever the renderer: a renderer that prints its label as it is
    gives [a: 1].  And after 2^32 adds the size field has wrapped to 0, so a
    deque that is not empty is rendered as [[]]. *)
Lemma C9_counterexample :
  (∃ q h1 h2,
     pgagroal_deque_create true empty_heap = Ok (0, Some q) h1 ∧
     add_all (Some q) [mk_item (Some "a"%string) 1 ValueInt32] h1 = Ok tt h2 ∧
     (∀ value_to_string,
        pgagroal_deque_to_string 0 1 2 "- "%string value_to_string (Some q) 0 None 0 h2
        = Ok (Some ("[" +:+ newline
                    +:+ default EmptyString
                          (value_to_string (mk_value ValueInt32 1) 0 (Some "a: "%string) 2)
                    +:+ newline +:+ "]")%string) h2) ∧
     pgagroal_deque_to_string 0 1 2 "- "%string digit_to_string (Some q) 0 None 0 h2
     = Ok (Some ("[" +:+ newline +:+ "  a: 1" +:+ newline +:+ "]")%string) h2) ∧
  (∃ q h1 h2,
     pgagroal_deque_create false empty_heap = Ok (0, Some q) h1 ∧
     add_all (Some q) wrap_tagged_items h1 = Ok tt h2 ∧
     head wrap_tagged_items = Some (mk_item (Some "a"%string) 1 ValueInt32) ∧
     ∀ value_to_string,
       pgagroal_deque_to_string 0 1 2 "- "%string value_to_string (Some q) 0 None 0 h2
       = Ok (Some "[]"%string) h2).
Proof.
  split.
  - destruct (create_Ok true empty_heap) as (q & s & e & h1 & Hc & Hinv1 & _).
    destruct (add_all_rep [mk_item (Some "a"%string) 1 ValueInt32]
                _ _ _ _ _ _ _ _ (proj1 Hinv1)) as (cs & h2 & Ha & Hrep & _).
    assert (deque_inv h2 q true s e ([] ++ cs)
              ([] ++ [mk_item (Some "a"%string) 1 ValueInt32])) as Hinv
      by (split; [exact Hrep|cbn; lia]).
    assert (∀ value_to_string,
              pgagroal_deque_to_string 0 1 2 "- "%string value_to_string (Some q) 0 None 0 h2
              = Ok (Some ("[" +:+ newline
                          +:+ default EmptyString
                                (value_to_string (mk_value ValueInt32 1) 0
                                   (Some "a: "%string) 2)
                          +:+ newline +:+ "]")%string) h2) as Hall.
    { intros vts. unfold pgagroal_deque_to_string. cbn [Z.eqb].
      rewrite (to_json_string_Ok 0 2 vts h2 q true s e _ _ None 0 Hinv) by (intros _; lia).
      do 2 f_equal. unfold json_spec. cbn [app json_elements].
      change (json_element 0 2 vts 0 (mk_item (Some "a"%string) 1 ValueInt32))
        with (default EmptyString
                (vts (mk_value ValueInt32 1) 0 (Some "a: "%string) 2)).
      generalize (default EmptyString (vts (mk_value ValueInt32 1) 0 (Some "a: "%string) 2)).
      intros r. rewrite string_app_assoc. reflexivity. }
    exists q, h1, h2. split; [exact Hc|]. split; [exact Ha|]. split; [exact Hall|].
    exact (Hall digit_to_string).
  - destruct create_wrap_tagged_items as (q & s & e & cs & h1 & h2 & Hc & Ha & Hrep).
    destruct (rep_deque _ _ _ _ _ _ _ _ Hrep) as (mu & Hd & Hmu).
    exists q, h1, h2. split; [exact Hc|]. split; [exact Ha|].
    split; [exact (f_equal head wrap_tagged_items_cons)|].
    intros vts. unfold pgagroal_deque_to_string. cbn [Z.eqb].
    by rewrite (to_json_string_size0 0 2 vts h2 q false mu (Some s) (Some e) None 0 Hd Hmu).
Qed.

(** ** Destroying a deque *)

Lemma foldr_delete_commute {A} (m : gmap positive A) l a :
  foldr delete (delete a m) l = delete a (foldr delete m l).
Proof.
  induction l as [|b l IH]; [done|]. cbn. rewrite IH. apply delete_delete.
Qed.

Lemma lookup_foldr_delete {A} (m : gmap positive A) l k :
  foldr delete m l !! k = if decide (k ∈ l) then None else m !! k.
Proof.
  induction l as [|b l IH]; cbn.
  - destruct (decide (k ∈ [])) as [H|]; [by apply elem_of_nil in H|done].
  - destruct (decide (k = b)) as [->|Hkb].
    + rewrite lookup_delete_eq. destruct (decide (b ∈ b :: l)) as [|H]; [done|].
      exfalso. apply H. left.
    + rewrite lookup_delete_ne by done. rewrite IH.
      destruct (decide (k ∈ l)), (decide (k ∈ b :: l)) as [H|H]; try done.
      * exfalso. apply H. by right.
      * apply elem_of_cons in H as [?|?]; done.
Qed.

Lemma chain_owned_frame h h' l :
  (∀ c, c ∈ l →
     nodes h' !! c_node c = nodes h !! c_node c ∧
     values h' !! c_val c = values h !! c_val c ∧
     cstr h' (c_tag c) = cstr h (c_tag c)) →
  chain_owned h l → chain_owned h' l.
Proof.
  induction l as [|c l IH]; [done|]. intros Hfr (H1 & H2 & H3 & H4 & H5 & H6).
  destruct (Hfr c) as (E1 & E2 & E3); [left|]. cbn.
  rewrite E1, E2, E3. split_and!; try done.
  apply IH; [|done]. intros c' Hc'. apply Hfr. by right.
Qed.

Lemma destroy_loop_Ok l : ∀ h fuel,
  chain_owned h l →
  NoDup (c_node <$> l) → NoDup (c_val <$> l) → NoDup (omap c_tag l) →
  (length l ≤ fuel)%nat →
  deque_destroy_loop fuel (c_node <$> head l) h =
    Ok tt (mk_heap (foldr delete (nodes h) (c_node <$> l))
                   (foldr delete (values h) (c_val <$> l))
                   (foldr delete (strs h) (omap c_tag l))
                   (deques h) (iters h)).
Proof.
  induction l as [|c l IH]; intros h fuel Hown Hn Hv Ht Hfuel.
  - destruct h, fuel; reflexivity.
  - destruct fuel as [|fuel]; [cbn in Hfuel; lia|].
    destruct Hown as (Hd & Htg & Hnx & [v Hval] & Hstr & Hown).
    cbn [fmap list_fmap] in Hn, Hv. fold (fmap (M:=list) c_node l) in Hn.
    fold (fmap (M:=list) c_val l) in Hv.
    apply NoDup_cons in Hn as [Hn1 Hn2]. apply NoDup_cons in Hv as [Hv1 Hv2].
    destruct (nodes h !! c_node c) as [[nd nt np nn]|] eqn:Ha; [|done].
    cbn in Hd, Htg, Hnx. simplify_eq.
    cbn [head fmap option_fmap option_map deque_destroy_loop].
    assert (∀ h1,
      nodes h1 = delete (c_node c) (nodes h) →
      values h1 = delete (c_val c) (values h) →
      strs h1 = match c_tag c with Some t => delete t (strs h) | None => strs h end →
      deques h1 = deques h → iters h1 = iters h →
      NoDup (omap c_tag l) ∧ (∀ t, c_tag c = Some t → t ∉ omap c_tag l) →
      deque_destroy_loop fuel (c_node <$> head l) h1 =
        Ok tt (mk_heap (foldr delete (nodes h) (c_node <$> c :: l))
                   (foldr delete (values h) (c_val <$> c :: l))
                   (foldr delete (strs h) (omap c_tag (c :: l)))
                   (deques h) (iters h))) as Hrest.
    { intros h1 HN HV HS HD HI [Ht2 Ht1].
      rewrite (IH h1 fuel); [| |done|done|done|cbn in Hfuel; lia].
      - rewrite HN, HV, HS, HD, HI. f_equal. f_equal.
        + cbn. apply foldr_delete_commute.
        + cbn. apply foldr_delete_commute.
        + cbn [omap list_omap]. fold (omap (M:=list) c_tag l).
          destruct (c_tag c); [|done]. cbn. apply foldr_delete_commute.
      - eapply chain_owned_frame; [|exact Hown]. intros c' Hc'. split_and!.
        + rewrite HN. apply lookup_delete_ne. intros Heq. apply Hn1.
          rewrite Heq. by apply list_elem_of_fmap_2.
        + rewrite HV. apply lookup_delete_ne. intros Heq. apply Hv1.
          rewrite Heq. by apply list_elem_of_fmap_2.
        + destruct (c_tag c') as [t'|] eqn:Et'; [|done]. cbn. rewrite HS.
          destruct (c_tag c) as [t|] eqn:Et; [|done].
          rewrite lookup_delete_ne; [done|]. intros <-.
          apply (Ht1 t eq_refl). apply list_elem_of_omap. eauto. }
    assert (NoDup (omap c_tag l) ∧ (∀ t, c_tag c = Some t → t ∉ omap c_tag l)) as Htags.
    { cbn [omap list_omap] in Ht. fold (omap (M:=list) c_tag l) in Ht.
      destruct (c_tag c) as [t|]; [|by split].
      apply NoDup_cons in Ht as [? ?]. split; [done|]. by intros ? [= <-]. }
    destruct (c_tag c) as [t|] eqn:Et.
    + destruct Hstr as [o Hstr]. cbn in Hstr.
      apply fmap_Some_inv in Hstr as (str & Hstr & _).
      steps'. apply Hrest; try reflexivity. done.
    + steps'. apply Hrest; try reflexivity. done.
Qed.

Lemma chain_owned_cells h e ce : ∀ cs xs,
  Forall2 (cell_holds h) cs xs →
  linked (nodes h) ((c_node <$> cs) ++ [e]) →
  c_node ce = e → chain_owned h [ce] →
  chain_owned h (cs ++ [ce]).
Proof.
  intros cs xs HF. induction HF as [|c x cs xs Hc HF IH]; intros HL He Hce; [done|].
  destruct Hc as (Hd & Ht & Hv & Hs).
  cbn [app chain_owned].
  split; [done|]. split; [done|]. split; [|split; [by rewrite Hv|split; [by rewrite Hs|]]].
  - destruct cs as [|c' cs]; cbn in HL |- *.
    + destruct HL as [[Hn _] _]. by rewrite Hn, He.
    + destruct HL as [[Hn _] _]. by rewrite Hn.
  - apply IH; [|done|done]. rewrite fmap_cons in HL. cbn [app] in HL.
    by apply linked_cons in HL as [_ HL].
Qed.

Lemma owned_chain h q ts s e sv ev sz cs xs :
  deque_owned h q ts s e sv ev sz cs xs → chain_owned h (all_cells s e sv ev cs).
Proof.
  intros [Hrep (Hsd & Hst & Hed & Het & Hen & Hvs & Hve & Hnd)].
  pose proof (rep_linked _ _ _ _ _ _ _ _ Hrep) as HL.
  unfold all_cells. cbn [chain_owned c_node c_val c_tag cstr].
  split; [done|]. split; [done|]. split; [|split; [done|split; [done|]]].
  - destruct cs as [|c cs]; cbn in HL |- *; by destruct HL as [[Hn _] _].
  - eapply chain_owned_cells; [apply Hrep| |done|].
    + by apply linked_cons in HL as [_ HL].
    + cbn. split_and!; done.
Qed.

Lemma all_cells_nodes s e sv ev cs :
  c_node <$> all_cells s e sv ev cs = s :: (c_node <$> cs) ++ [e].
Proof. unfold all_cells. by rewrite fmap_cons, fmap_app. Qed.

Lemma all_cells_vals s e sv ev cs :
  c_val <$> all_cells s e sv ev cs = sv :: (c_val <$> cs) ++ [ev].
Proof. unfold all_cells. by rewrite fmap_cons, fmap_app. Qed.

Lemma all_cells_tags s e sv ev cs : omap c_tag (all_cells s e sv ev cs) = omap c_tag cs.
Proof.
  unfold all_cells. cbn. rewrite omap_app. cbn. by rewrite app_nil_r.
Qed.

Lemma free_deque_Ok a h d :
  deques h !! a = Some d → free_deque (Some a) h = Ok tt (with_deques (delete a) h).
Proof. intros H. unfold free_deque. by rewrite H. Qed.

Lemma destroy_Ok h q ts s e sv ev sz cs xs :
  deque_owned h q ts s e sv ev sz cs xs →
  pgagroal_deque_destroy (Some q) h = Ok tt (released h q s e sv ev cs).
Proof.
  intros Hown. pose proof (owned_chain _ _ _ _ _ _ _ _ _ _ Hown) as Hchain.
  destruct Hown as [Hrep Hs].
  destruct (rep_deque _ _ _ _ _ _ _ _ Hrep) as (mu & Hd & Hmu).
  pose proof (rep_fuel _ _ _ _ _ _ _ _ Hrep) as Hfuel.
  unfold pgagroal_deque_destroy. step.
  eapply bind_Ok.
  { apply (destroy_loop_Ok (all_cells s e sv ev cs) h (S (size (nodes h))) Hchain).
    - rewrite all_cells_nodes. apply Hrep.
    - rewrite all_cells_vals. apply Hs.
    - rewrite all_cells_tags. apply Hrep.
    - unfold all_cells. cbn. rewrite length_app. cbn. lia. }
  rewrite all_cells_tags. unfold released.
  destruct ts; [pose proof (Hmu eq_refl) as ->|].
  - step. unfold pthread_rwlock_destroy. steps.
    erewrite free_deque_Ok by solve_lookup.
    unfold with_deques. cbn. f_equal. f_equal.
    apply map_eq. intros k. destruct (decide (k = q)) as [->|]; lk; done.
  - step. step. erewrite free_deque_Ok by solve_lookup. reflexivity.
Qed.

(** ** What a deque owns, from create to destroy *)

Lemma create_owned ts h :
  ∃ q s e sv ev h',
    pgagroal_deque_create ts h = Ok (0, Some q) h' ∧
    deque_owned h' q ts s e sv ev 0 [] [] ∧
    released h' q s e sv ev [] = h.
Proof.
  unfold pgagroal_deque_create.
  set (q := fresh (dom (deques h))).
  assert (deques h !! q = None) as Hq by apply fresh_lookup.
  set (s := fresh (dom (nodes h))).
  assert (nodes h !! s = None) as Hs by apply fresh_lookup.
  set (vs := fresh (dom (values h))).
  assert (values h !! vs = None) as Hvs by apply fresh_lookup.
  remember (fresh (dom (<[s := mk_node (Some vs) None None None]> (nodes h)))) as e eqn:Ee.
  assert (<[s := mk_node (Some vs) None None None]> (nodes h) !! e = None) as He
    by (subst e; apply fresh_lookup).
  remember (fresh (dom (<[vs := mk_value ValueInt32 0]> (values h)))) as ve eqn:Eve.
  assert (<[vs := mk_value ValueInt32 0]> (values h) !! ve = None) as Hve
    by (subst ve; apply fresh_lookup).
  assert (s ≠ e) as Hse.
  { intros <-. by rewrite lookup_insert_eq in He. }
  assert (vs ≠ ve) as Hvv.
  { intros <-. by rewrite lookup_insert_eq in Hve. }
  rewrite lookup_insert_ne in He by done. rewrite lookup_insert_ne in Hve by done.
  exists q, s, e, vs, ve. eexists. split; [|split].
  - eapply bind_Ok; [reflexivity|]. fold q. cbn beta.
    step. step.
    eapply bind_Ok.
    { instantiate (2 := tt).
      instantiate (1 := with_deques (alter (set_mutex (if ts then LockFree else LockUninit)) q) _).
      destruct ts.
      - unfold pthread_rwlock_init. eapply store_deque_Ok. solve_lookup.
      - unfold ret. f_equal. unfold with_deques. cbn. f_equal.
        apply map_eq. intros x. destruct (decide (x = q)) as [->|]; lk; done. }
    cbn beta.
    eapply bind_Ok; [apply deque_node_create_Ok|]. heap_simpl. fold s vs. cbn beta.
    step.
    eapply bind_Ok; [apply deque_node_create_Ok|]. heap_simpl. rewrite <-Ee, <-Eve. cbn beta.
    do 7 step. reflexivity.
  - split.
    + split; cbn [fmap list_fmap app omap list_omap length Z.of_nat].
      * exists (if ts then LockFree else LockUninit). split; [solve_lookup|].
        by intros ->.
      * lia.
      * apply NoDup_cons. split; [by apply not_elem_of_cons; split; [|apply not_elem_of_nil]|].
        apply NoDup_singleton.
      * cbn. split; [|done]. split; solve_lookup.
      * apply NoDup_nil_2.
      * apply NoDup_nil_2.
      * constructor.
    + unfold sentinels_own. split_and!; try solve_lookup.
      * heap_simpl. lk. eauto.
      * heap_simpl. lk. eauto.
      * cbn. apply NoDup_cons. split; [by apply not_elem_of_list_singleton|].
        apply NoDup_singleton.
  - destruct h as [N V S D I]. unfold released, all_cells. cbn in *. f_equal.
    + apply map_eq. intros k.
      destruct (decide (k = s)) as [->|]; lk; [done|].
      destruct (decide (k = e)) as [->|]; lk; done.
    + apply map_eq. intros k.
      destruct (decide (k = vs)) as [->|]; lk; [done|].
      destruct (decide (k = ve)) as [->|]; lk; done.
    + apply map_eq. intros k. destruct (decide (k = q)) as [->|]; lk; done.
Qed.

Lemma lookup_alter_keep {A} (g : deque_node → A) (f : deque_node → deque_node) a
    (N : gmap positive deque_node) k :
  (∀ n, g (f n) = g n) → g <$> alter f a N !! k = g <$> N !! k.
Proof.
  intros Hg. destruct (decide (k = a)) as [->|]; lk; [|done].
  destruct (N !! a); cbn; [by rewrite Hg|done].
Qed.

Lemma NoDup_snoc_between {A} (a b x : A) l :
  NoDup (a :: l ++ [b]) → x ∉ a :: l ++ [b] → NoDup (a :: (l ++ [x]) ++ [b]).
Proof.
  intros Hnd Hx.
  assert (a :: (l ++ [x]) ++ [b] ≡ₚ x :: a :: l ++ [b]) as ->.
  { rewrite <-app_assoc. cbn. rewrite <-Permutation_middle. apply perm_swap. }
  by apply NoDup_cons.
Qed.

Lemma add_owned h q ts s e sv ev sz cs xs tag data type :
  deque_owned h q ts s e sv ev sz cs xs →
  ∃ h',
    pgagroal_deque_add (Some q) tag data type h = Ok 0 h' ∧
    deque_owned h' q ts s e sv ev (wrap32 (sz + 1)) (cs ++ [new_cell h tag])
      (xs ++ [mk_item tag data type]) ∧
    released h' q s e sv ev (cs ++ [new_cell h tag]) = released h q s e sv ev cs.
Proof.
  intros [Hrep (Hsd & Hst & Hed & Het & Hen & Hvs & Hve & Hnd)].
  destruct (offer_exact _ _ _ _ _ _ _ _ tag data type Hrep)
    as (l & mu & h' & Hl & Hd & Hex & Hrep' & HN & HV & HS & HD & HI).
  pose proof (rep_nodup _ _ _ _ _ _ _ _ Hrep) as Hch.
  set (c := new_cell h tag) in *.
  assert (nodes h !! c_node c = None) as Hn by apply fresh_lookup.
  assert (values h !! c_val c = None) as Hv by apply fresh_lookup.
  assert (∀ t, c_tag c = Some t → strs h !! t = None) as Ht.
  { intros t. unfold c, new_cell. cbn. destruct tag; [|done].
    intros [= <-]. apply fresh_lookup. }
  assert (l ∈ s :: (c_node <$> cs) ++ [e]) as Hlin.
  { apply last_Some_elem_of in Hl. rewrite app_comm_cons. apply elem_of_app. by left. }
  assert (∀ k, k ∈ s :: (c_node <$> cs) ++ [e] → k ≠ c_node c) as Hfresh.
  { intros k Hk ->. destruct (rep_chain_alloc _ _ _ _ _ _ _ _ _ Hrep Hk). congruence. }
  assert (s ≠ c_node c) as Hsn by (apply Hfresh; left).
  assert (e ≠ c_node c) as Hen'.
  { apply Hfresh. right. apply elem_of_app. right. left. }
  assert (l ≠ e) as Hle.
  { intros ->. apply last_Some in Hl as [P EP]. rewrite app_comm_cons, EP in Hch.
    apply NoDup_app in Hch as (_ & Hch & _). apply (Hch e); [|left].
    apply elem_of_app. right. left. }
  assert (∀ k, k ∈ sv :: (c_val <$> cs) ++ [ev] → is_Some (values h !! k)) as Hvalloc.
  { intros k [->|Hk]%elem_of_cons; [done|].
    apply elem_of_app in Hk as [Hk|Hk].
    - eapply cells_vals_alloc; [apply Hrep|done].
    - apply list_elem_of_singleton in Hk. by subst k. }
  exists h'. split; [|split].
  - unfold pgagroal_deque_add. eapply bind_Ok; [exact Hex|reflexivity].
  - split; [exact Hrep'|]. unfold sentinels_own. rewrite HN, HV.
    assert (∀ {A} (g : deque_node → A) k,
              (∀ v n, g (set_prev v n) = g n) → (∀ v n, g (set_next v n) = g n) →
              k ≠ c_node c →
              g <$> alter (set_prev (Some (c_node c))) e
                      (alter (set_next (Some e)) (c_node c)
                         (alter (set_prev (Some l)) (c_node c)
                            (alter (set_next (Some (c_node c))) l
                               (<[c_node c := mk_node (Some (c_val c)) (c_tag c) None None]>
                                  (nodes h))))) !! k
              = g <$> nodes h !! k) as Hkeep.
    { intros A g k Hp Hn' Hk. rewrite !lookup_alter_keep by done.
      by rewrite lookup_insert_ne. }
    rewrite !Hkeep by (done || by intros ? []).
    split; [done|]. split; [done|]. split; [done|]. split; [done|]. split.
    { rewrite (lookup_alter_keep n_next) by (by intros []).
      rewrite !lookup_alter_ne by done. by rewrite lookup_insert_ne. }
    assert (c_val c ∉ sv :: (c_val <$> cs) ++ [ev]) as Hvn.
    { intros Hin. destruct (Hvalloc _ Hin). congruence. }
    split; [|split].
    + rewrite lookup_insert_ne; [done|]. intros Heq. apply Hvn. rewrite Heq. left.
    + rewrite lookup_insert_ne; [done|]. intros Heq. apply Hvn. rewrite Heq.
      right. apply elem_of_app. right. left.
    + rewrite fmap_app. cbn [fmap list_fmap]. by apply NoDup_snoc_between.
  - unfold released. rewrite !all_cells_nodes, !all_cells_vals, HD, HI. f_equal.
    + apply map_eq. intros k. rewrite !lookup_foldr_delete.
      rewrite fmap_app. cbn [fmap list_fmap].
      destruct (decide (k ∈ s :: ((c_node <$> cs) ++ [c_node c]) ++ [e])) as [Hin|Hout];
        destruct (decide (k ∈ s :: (c_node <$> cs) ++ [e])) as [Hin'|Hout']; try done.
      * assert (k = c_node c) as ->; [|done].
        apply elem_of_cons in Hin as [->|Hin]; [exfalso; apply Hout'; left|].
        rewrite <-app_assoc in Hin. apply elem_of_app in Hin as [Hin|Hin].
        { exfalso. apply Hout'. right. apply elem_of_app. by left. }
        apply elem_of_cons in Hin as [->|Hin]; [done|].
        exfalso. apply Hout'. right. apply elem_of_app. by right.
      * exfalso. apply Hout. apply elem_of_cons in Hin' as [->|Hin']; [left|right].
        rewrite <-app_assoc. apply elem_of_app in Hin' as [?|?]; apply elem_of_app;
          [by left|right; by right].
      * assert (k ≠ e ∧ k ≠ c_node c ∧ k ≠ l) as (?&?&?).
        { split_and!; intros ->.
          - apply Hout'. right. apply elem_of_app. right. left.
          - apply Hout. right. rewrite <-app_assoc. apply elem_of_app. right. left.
          - by apply Hout'. }
        rewrite HN. by lk.
    + apply map_eq. intros k. rewrite !lookup_foldr_delete.
      rewrite fmap_app. cbn [fmap list_fmap].
      destruct (decide (k ∈ sv :: ((c_val <$> cs) ++ [c_val c]) ++ [ev])) as [Hin|Hout];
        destruct (decide (k ∈ sv :: (c_val <$> cs) ++ [ev])) as [Hin'|Hout']; try done.
      * assert (k = c_val c) as ->; [|done].
        apply elem_of_cons in Hin as [->|Hin]; [exfalso; apply Hout'; left|].
        rewrite <-app_assoc in Hin. apply elem_of_app in Hin as [Hin|Hin].
        { exfalso. apply Hout'. right. apply elem_of_app. by left. }
        apply elem_of_cons in Hin as [->|Hin]; [done|].
        exfalso. apply Hout'. right. apply elem_of_app. by right.
      * exfalso. apply Hout. apply elem_of_cons in Hin' as [->|Hin']; [left|right].
        rewrite <-app_assoc. apply elem_of_app in Hin' as [?|?]; apply elem_of_app;
          [by left|right; by right].
      * assert (k ≠ c_val c).
        { intros ->. apply Hout. right. rewrite <-app_assoc. apply elem_of_app. right. left. }
        rewrite HV. by lk.
    + apply map_eq. intros k. rewrite !lookup_foldr_delete.
      rewrite omap_app. rewrite HS.
      destruct tag as [str|]; unfold c, new_cell in *; cbn [c_tag omap list_omap] in *.
      * rewrite app_nil_r || idtac.
        destruct (decide (k ∈ omap c_tag cs ++ [fresh (dom (strs h))])) as [Hin|Hout];
          destruct (decide (k ∈ omap c_tag cs)) as [Hin'|Hout']; try done.
        -- apply elem_of_app in Hin as [?|Hin]; [done|].
           apply list_elem_of_singleton in Hin. subst k.
           symmetry. apply fresh_lookup.
        -- exfalso. apply Hout. apply elem_of_app. by left.
        -- rewrite lookup_insert_ne; [done|]. intros <-. apply Hout.
           apply elem_of_app. right. left.
      * by rewrite app_nil_r.
    + apply map_eq. intros k. destruct (decide (k = q)) as [->|]; lk; done.
Qed.

Lemma poll_owned h q ts s e sv ev sz c cs xs wt :
  deque_owned h q ts s e sv ev sz (c :: cs) xs → sz ≠ 0 →
  ∃ x xs' h',
    xs = x :: xs' ∧
    pgagroal_deque_poll (Some q) wt h =
      Ok (i_data x, if wt then Some (c_tag c) else None) h' ∧
    deque_owned h' q ts s e sv ev (wrap32 (sz - 1)) cs xs' ∧
    cstr h' (c_tag c) = Some (i_tag x) ∧
    nodes h' !! c_node c = None ∧ values h' !! c_val c = None ∧
    strs h' = strs h ∧ iters h' = iters h ∧
    nodes (released h' q s e sv ev cs) = nodes (released h q s e sv ev (c :: cs)) ∧
    values (released h' q s e sv ev cs) = values (released h q s e sv ev (c :: cs)) ∧
    deques (released h' q s e sv ev cs) = deques (released h q s e sv ev (c :: cs)).
Proof.
  intros [Hrep (Hsd & Hst & Hed & Het & Hen & Hvs & Hve & Hnd)] Hsz.
  destruct (poll_exact _ _ _ _ _ _ _ _ _ wt Hrep Hsz)
    as (x & xs' & nx & mu & h' & -> & Hnx & Hd & Hex & Hrep' & Htag & HN & HV & HS & HD & HI).
  pose proof (rep_nodup _ _ _ _ _ _ _ _ Hrep) as Hch.
  rewrite fmap_cons in Hch. cbn [app] in Hch.
  apply NoDup_cons in Hch as [Hs1 Hch]. apply NoDup_cons in Hch as [Hc1 Hch].
  assert (s ≠ c_node c) as Hsc by (intros ->; apply Hs1; left).
  assert (e ≠ c_node c) as Hec.
  { intros ->. apply Hc1. apply elem_of_app. right. left. }
  assert (s ≠ e) as Hse.
  { intros ->. apply Hs1. right. apply elem_of_app. right. left. }
  rewrite fmap_cons in Hnd. cbn [app] in Hnd.
  apply NoDup_cons in Hnd as [Hv1 Hnd]. apply NoDup_cons in Hnd as [Hv2 Hnd].
  assert (sv ≠ c_val c) as Hsvc by (intros ->; apply Hv1; left).
  assert (ev ≠ c_val c) as Hevc.
  { intros ->. apply Hv2. apply elem_of_app. right. left. }
  assert (nx ∈ (c_node <$> cs) ++ [e]) as Hnxin.
  { destruct ((c_node <$> cs) ++ [e]); [done|]. injection Hnx as ->. left. }
  exists x, xs', h'. split; [done|]. split; [exact Hex|]. split; [split; [exact Hrep'|]|].
  - unfold sentinels_own. rewrite HN, HV.
    rewrite !lookup_delete_ne by done.
    rewrite !(lookup_alter_keep n_data), !(lookup_alter_keep n_tag) by (by intros []).
    split; [done|]. split; [done|]. split; [done|]. split; [done|]. split.
    { rewrite (lookup_alter_keep n_next) by (by intros []).
      by rewrite lookup_alter_ne. }
    split; [done|]. split; [done|].
    apply NoDup_cons. split; [|done]. intros Hin. apply Hv1. by right.
  - split; [exact Htag|]. split; [rewrite HN; apply lookup_delete_eq|].
    split; [rewrite HV; apply lookup_delete_eq|]. split; [exact HS|]. split; [exact HI|].
    unfold released. heap_simpl. rewrite !all_cells_nodes, !all_cells_vals, HD.
    split; [|split].
    + apply map_eq. intros k. rewrite !lookup_foldr_delete.
      rewrite fmap_cons. cbn [app].
      destruct (decide (k ∈ s :: (c_node <$> cs) ++ [e])) as [Hin|Hout];
        destruct (decide (k ∈ s :: c_node c :: (c_node <$> cs) ++ [e])) as [Hin'|Hout'];
        try done.
      * exfalso. apply Hout'. apply elem_of_cons in Hin as [->|Hin]; [left|right; by right].
      * assert (k = c_node c) as ->.
        { apply elem_of_cons in Hin' as [->|Hin']; [exfalso; apply Hout; left|].
          apply elem_of_cons in Hin' as [->|Hin']; [done|].
          exfalso. apply Hout. by right. }
        rewrite HN. apply lookup_delete_eq.
      * assert (k ≠ c_node c ∧ k ≠ s ∧ k ≠ nx) as (?&?&?).
        { split_and!; intros ->.
          - apply Hout'. right. left.
          - apply Hout. left.
          - apply Hout. by right. }
        rewrite HN. by lk.
    + apply map_eq. intros k. rewrite !lookup_foldr_delete.
      rewrite fmap_cons. cbn [app].
      destruct (decide (k ∈ sv :: (c_val <$> cs) ++ [ev])) as [Hin|Hout];
        destruct (decide (k ∈ sv :: c_val c :: (c_val <$> cs) ++ [ev])) as [Hin'|Hout'];
        try done.
      * exfalso. apply Hout'. apply elem_of_cons in Hin as [->|Hin]; [left|right; by right].
      * assert (k = c_val c) as ->.
        { apply elem_of_cons in Hin' as [->|Hin']; [exfalso; apply Hout; left|].
          apply elem_of_cons in Hin' as [->|Hin']; [done|].
          exfalso. apply Hout. by right. }
        rewrite HV. apply lookup_delete_eq.
      * assert (k ≠ c_val c) by (intros ->; apply Hout'; right; left).
        rewrite HV. by lk.
    + apply map_eq. intros k. destruct (decide (k = q)) as [->|]; lk; done.
Qed.

Lemma add_all_owned ys : ∀ h q ts s e sv ev sz cs xs,
  deque_owned h q ts s e sv ev sz cs xs →
  ∃ cs' h',
    add_all (Some q) ys h = Ok tt h' ∧
    deque_owned h' q ts s e sv ev (wrap32 (sz + Z.of_nat (length ys))) (cs ++ cs')
      (xs ++ ys) ∧
    released h' q s e sv ev (cs ++ cs') = released h q s e sv ev cs.
Proof.
  induction ys as [|[tag data type] ys IH]; intros h q ts s e sv ev sz cs xs Hown.
  - exists [], h. split; [done|]. rewrite !app_nil_r. cbn [length Z.of_nat].
    rewrite Z.add_0_r, wrap32_small by apply Hown. done.
  - destruct (add_owned _ _ _ _ _ _ _ _ _ _ tag data type Hown) as (h1 & Hex & Hown1 & Hrel1).
    destruct (IH _ _ _ _ _ _ _ _ _ _ Hown1) as (cs' & h2 & Hex2 & Hown2 & Hrel2).
    exists (new_cell h tag :: cs'), h2. split; [|split].
    + cbn [add_all i_tag i_data i_type]. eapply bind_Ok; [exact Hex|exact Hex2].
    + rewrite wrap32_add_l in Hown2. rewrite <-!app_assoc in Hown2. cbn [app] in Hown2.
      replace (sz + Z.of_nat (length (mk_item tag data type :: ys)))
        with (sz + 1 + Z.of_nat (length ys)) by (cbn [length]; lia).
      exact Hown2.
    + rewrite <-Hrel1, <-Hrel2. by rewrite <-app_assoc.
Qed.

Lemma create_adds_owned ts h0 xs :
  ∃ q s e sv ev cs h1 h2,
    pgagroal_deque_create ts h0 = Ok (0, Some q) h1 ∧
    add_all (Some q) xs h1 = Ok tt h2 ∧
    deque_owned h2 q ts s e sv ev (wrap32 (Z.of_nat (length xs))) cs xs ∧
    released h2 q s e sv ev cs = h0.
Proof.
  destruct (create_owned ts h0) as (q & s & e & sv & ev & h1 & Hc & Hown & Hrel).
  destruct (add_all_owned xs _ _ _ _ _ _ _ _ _ _ Hown) as (cs & h2 & Ha & Hown2 & Hrel2).
  exists q, s, e, sv, ev, cs, h1, h2. split; [done|]. split; [done|].
  cbn [app] in *. rewrite Z.add_0_l in Hown2. split; [done|]. by rewrite Hrel2.
Qed.

Lemma poll_n_owned n : ∀ h q ts s e sv ev cs xs,
  deque_owned h q ts s e sv ev (Z.of_nat (length xs)) cs xs →
  (n ≤ length xs)%nat →
  ∃ rs h',
    poll_n (Some q) n h = Ok rs h' ∧
    fst <$> rs = i_data <$> take n xs ∧
    snd <$> rs = (λ c, Some (c_tag c)) <$> take n cs ∧
    Forall2 (λ c x, cstr h (c_tag c) = Some (i_tag x)) (take n cs) (take n xs) ∧
    deque_owned h' q ts s e sv ev (Z.of_nat (length xs) - Z.of_nat n) (drop n cs)
      (drop n xs) ∧
    strs h' = strs h ∧ iters h' = iters h ∧
    nodes (released h' q s e sv ev (drop n cs)) = nodes (released h q s e sv ev cs) ∧
    values (released h' q s e sv ev (drop n cs)) = values (released h q s e sv ev cs) ∧
    deques (released h' q s e sv ev (drop n cs)) = deques (released h q s e sv ev cs).
Proof.
  induction n as [|n IH]; intros h q ts s e sv ev cs xs Hown Hn.
  - exists [], h. cbn [drop take Z.of_nat]. rewrite Z.sub_0_r.
    split_and!; done.
  - pose proof (rep_size _ _ _ _ _ _ _ _ (proj1 Hown)) as Hsz.
    pose proof (cells_length _ _ _ (rep_cells _ _ _ _ _ _ _ _ (proj1 Hown))) as Hlen.
    destruct cs as [|c cs]; [cbn in Hlen; lia|].
    destruct (poll_owned _ _ _ _ _ _ _ _ _ _ _ true Hown)
      as (x & xs' & h1 & -> & Hex & Hown1 & Htag & _ & _ & Hs1 & Hi1 & HN1 & HV1 & HD1);
      [lia|].
    cbn [length] in *.
    rewrite wrap32_small in Hown1 by lia.
    replace (Z.of_nat (S (length xs')) - 1) with (Z.of_nat (length xs')) in Hown1 by lia.
    destruct (IH _ _ _ _ _ _ _ _ _ Hown1)
      as (rs & h2 & Hex2 & Hd & Hsn & Ht & Hown2 & Hs2 & Hi2 & HN2 & HV2 & HD2); [lia|].
    exists ((i_data x, Some (c_tag c)) :: rs), h2.
    split; [|split; [|split; [|split; [|split; [|split; [|split; [|split; [|split]]]]]]]].
    + cbn [poll_n]. eapply bind_Ok; [exact Hex|].
      eapply bind_Ok; [exact Hex2|reflexivity].
    + cbn. by rewrite Hd.
    + cbn. by rewrite Hsn.
    + cbn [take]. constructor.
      * unfold cstr in *. by rewrite <-Hs1.
      * eapply Forall2_impl; [exact Ht|]. intros c' x' Hc'.
        unfold cstr in *. by rewrite <-Hs1.
    + cbn [drop]. replace (Z.of_nat (S (length xs')) - Z.of_nat (S n))
        with (Z.of_nat (length xs') - Z.of_nat n) by lia. done.
    + congruence.
    + congruence.
    + cbn [drop]. congruence.
    + cbn [drop]. congruence.
    + cbn [drop]. congruence.
Qed.

(** X1: [pgagroal_deque_destroy] frees all that the deque owns and nothing
    else: both sentinels and every node in between, their value cells, the
    tags, and the deque record.  It leaves the caller's pointer dangling: a
    second destroy is a double free. *)
Theorem X1_destroy_releases_all (h : heap) (q : positive) (ts : bool)
    (s e sv ev : positive) (sz : Z) (cs : list cell) (xs : list item) :
  deque_owned h q ts s e sv ev sz cs xs →
  pgagroal_deque_destroy (Some q) h = Ok tt (released h q s e sv ev cs) ∧
  (∀ c, c ∈ all_cells s e sv ev cs →
     nodes (released h q s e sv ev cs) !! c_node c = None ∧
     values (released h q s e sv ev cs) !! c_val c = None ∧
     ∀ t, c_tag c = Some t → strs (released h q s e sv ev cs) !! t = None) ∧
  deques (released h q s e sv ev cs) !! q = None ∧
  pgagroal_deque_destroy (Some q) (released h q s e sv ev cs) = Undefined.
Proof.
  intros Hown. split; [by eapply destroy_Ok|]. split; [|split].
  - intros c Hc. unfold released. heap_simpl. rewrite !lookup_foldr_delete.
    split; [|split].
    + rewrite decide_True; [done|]. by apply list_elem_of_fmap_2.
    + rewrite decide_True; [done|]. by apply list_elem_of_fmap_2.
    + intros t Et. rewrite lookup_foldr_delete, decide_True; [done|].
      rewrite <-(all_cells_tags s e sv ev). apply list_elem_of_omap. eauto.
  - unfold released. heap_simpl. apply lookup_delete_eq.
  - unfold pgagroal_deque_destroy, bind, load_deque, released. heap_simpl.
    by rewrite lookup_delete_eq.
Qed.

Lemma X1_destroy_releases_all_witness :
  ∃ q s e sv ev cs h1 h2,
    pgagroal_deque_create true empty_heap = Ok (0, Some q) h1 ∧
    add_all (Some q) [mk_item (Some "a"%string) 1 ValueInt32; mk_item None 2 ValueJSON] h1
      = Ok tt h2 ∧
    pgagroal_deque_destroy (Some q) h2 = Ok tt (released h2 q s e sv ev cs) ∧
    released h2 q s e sv ev cs = empty_heap.
Proof.
  destruct (create_adds_owned true empty_heap
              [mk_item (Some "a"%string) 1 ValueInt32; mk_item None 2 ValueJSON])
    as (q & s & e & sv & ev & cs & h1 & h2 & Hc & Ha & Hown & Hrel).
  exists q, s, e, sv, ev, cs, h1, h2.
  split; [exact Hc|]. split; [exact Ha|]. split; [|exact Hrel].
  exact (proj1 (X1_destroy_releases_all h2 q true s e sv ev _ cs _ Hown)).
Defined.

(** X2: a deque that is created, filled by any number of adds and then
    destroyed leaves the heap exactly as it was before the create: nothing
    leaks and nothing else is touched. *)
Theorem X2_create_add_destroy_restores (ts : bool) (h0 : heap) (xs : list item) :
  ∃ q h1 h2,
    pgagroal_deque_create ts h0 = Ok (0, Some q) h1 ∧
    add_all (Some q) xs h1 = Ok tt h2 ∧
    pgagroal_deque_destroy (Some q) h2 = Ok tt h0.
Proof.
  destruct (create_adds_owned ts h0 xs)
    as (q & s & e & sv & ev & cs & h1 & h2 & Hc & Ha & Hown & Hrel).
  exists q, h1, h2. split; [done|]. split; [done|].
  rewrite <-Hrel. by eapply destroy_Ok.
Qed.

(** X3: the tags that [poll] hands out belong to the caller.  After a
    create, N adds, M polls (M ≤ N < 2^32) and the destroy, every polled tag
    still points to the string that was added, while the nodes, the value
    cells and the deque record are all gone; the heap differs from the one
    before the create by the polled tags only. *)
Theorem X3_polled_tags_outlive_destroy (ts : bool) (h0 : heap) (xs : list item) (m : nat) :
  Z.of_nat (length xs) < 4294967296 → (m ≤ length xs)%nat →
  ∃ q h1 h2 rs h3 h4,
    pgagroal_deque_create ts h0 = Ok (0, Some q) h1 ∧
    add_all (Some q) xs h1 = Ok tt h2 ∧
    poll_n (Some q) m h2 = Ok rs h3 ∧
    pgagroal_deque_destroy (Some q) h3 = Ok tt h4 ∧
    Forall2 (λ r x, fst r = i_data x ∧ ∃ t, snd r = Some t ∧ cstr h4 t = Some (i_tag x))
      rs (take m xs) ∧
    nodes h4 = nodes h0 ∧ values h4 = values h0 ∧ deques h4 = deques h0 ∧
    iters h4 = iters h0 ∧
    foldr delete (strs h4) (omap (λ r, default None (snd r)) rs) = strs h0.
Proof.
  intros Hlen Hm.
  destruct (create_adds_owned ts h0 xs)
    as (q & s & e & sv & ev & cs & h1 & h2 & Hc & Ha & Hown & Hrel).
  rewrite wrap32_small in Hown by lia.
  destruct (poll_n_owned m _ _ _ _ _ _ _ _ _ Hown Hm)
    as (rs & h3 & Hp & Hfst & Hsnd & Htags & Hown3 & Hs3 & Hi3 & HN3 & HV3 & HD3).
  pose proof (destroy_Ok _ _ _ _ _ _ _ _ _ _ Hown3) as Hdes.
  pose proof (rep_tags _ _ _ _ _ _ _ _ (proj1 Hown)) as Hnd.
  rewrite <-(take_drop m cs), omap_app in Hnd.
  apply NoDup_app in Hnd as (_ & Hdis & _).
  assert (omap (λ r : Z * option (option positive), default None (snd r)) rs
          = omap c_tag (take m cs)) as Hpolled.
  { clear -Hsnd. revert Hsnd. generalize (take m cs). induction rs as [|[z o] rs IH];
      intros [|c l] Hl; try done.
    cbn in Hl. injection Hl as -> Hl. cbn. rewrite (IH l Hl). done. }
  exists q, h1, h2, rs, h3, (released h3 q s e sv ev (drop m cs)).
  split; [done|]. split; [done|]. split; [done|]. split; [done|].
  split; [|split; [|split; [|split; [|split]]]].
  - clear Hpolled. revert Hfst Hsnd Htags Hdis.
    generalize (take m cs) (take m xs). clear -Hs3.
    induction rs as [|[z o] rs IH]; intros [|c l] [|x l'] Hf Hsn Ht Hdis; try done.
    cbn in Hf, Hsn. injection Hf as -> Hf. injection Hsn as -> Hsn.
    apply Forall2_cons_1 in Ht as [Hc Ht]. constructor.
    + split; [done|]. exists (c_tag c). split; [done|].
      destruct (c_tag c) as [t|] eqn:Et; [|done]. cbn [cstr] in *.
      unfold released. heap_simpl. rewrite lookup_foldr_delete, decide_False, Hs3; [done|].
      apply Hdis. cbn. rewrite Et. left.
    + apply (IH l); try done. intros t Hin. apply Hdis. cbn.
      destruct (c_tag c); [by right|done].
  - rewrite HN3, Hrel. done.
  - rewrite HV3, Hrel. done.
  - rewrite HD3, Hrel. done.
  - unfold released. heap_simpl. rewrite Hi3. by rewrite <-Hrel.
  - rewrite Hpolled. unfold released at 1. heap_simpl. rewrite Hs3.
    rewrite <-foldr_app, <-omap_app, take_drop. by rewrite <-Hrel.
Qed.

Lemma X3_polled_tags_outlive_destroy_witness :
  ∃ q h1 h2 rs h3 h4,
    pgagroal_deque_create false empty_heap = Ok (0, Some q) h1 ∧
    add_all (Some q) [mk_item (Some "a"%string) 1 ValueInt32; mk_item None 2 ValueInt32] h1
      = Ok tt h2 ∧
    poll_n (Some q) 1 h2 = Ok rs h3 ∧
    pgagroal_deque_destroy (Some q) h3 = Ok tt h4 ∧
    Forall2 (λ r x, fst r = i_data x ∧ ∃ t, snd r = Some t ∧ cstr h4 t = Some (i_tag x))
      rs [mk_item (Some "a"%string) 1 ValueInt32] ∧
    nodes h4 = ∅ ∧ values h4 = ∅ ∧ deques h4 = ∅.
Proof.
  destruct (X3_polled_tags_outlive_destroy false empty_heap
              [mk_item (Some "a"%string) 1 ValueInt32; mk_item None 2 ValueInt32] 1)
    as (q & h1 & h2 & rs & h3 & h4 & Hc & Ha & Hp & Hd & Ht & HN & HV & HD & _).
  - cbn. lia.
  - cbn. lia.
  - exists q, h1, h2, rs, h3, h4. done.
Defined.

(** ** Walking a deque with an iterator *)


Lemma collect_Ok rest : ∀ h q ts s e cs xs it tg vl a fuel,
  deque_inv h q ts s e cs xs →
  iters h !! it = Some (mk_iter (Some q) (Some a) tg vl) →
  (a = s ∧ rest = cs) ∨ (∃ cs1 c, cs = cs1 ++ c :: rest ∧ a = c_node c) →
  (length rest < fuel)%nat →
  iterator_collect fuel (Some it) h =
    Ok ((λ c, (c_tag c, Some (c_val c))) <$> rest)
       (with_iters
          (insert it (match last rest with
                      | None => mk_iter (Some q) None tg vl
                      | Some c => mk_iter (Some q) None (c_tag c) (Some (c_val c))
                      end)) h).
Proof.
  induction rest as [|c' rest IH]; intros h q ts s e cs xs it tg vl a fuel Hinv Hit Hpos Hfuel;
    (destruct fuel as [|fuel]; [cbn in Hfuel; lia|]); cbn [iterator_collect].
  - eapply bind_Ok;
      [exact (iterator_next_Ok h q ts s e cs xs it tg vl a [] Hinv Hit Hpos)|].
    reflexivity.
  - eapply bind_Ok;
      [exact (iterator_next_Ok h q ts s e cs xs it tg vl a (c' :: rest) Hinv Hit Hpos)|].
    cbv iota.
    step. step.
    match goal with |- bind _ _ ?h1 = _ => set (h' := h1) end.
    assert (deque_inv h' q ts s e cs xs) as Hinv' by (by apply deque_inv_with_iters).
    erewrite (bind_Ok _ _ h'); [reflexivity| |reflexivity].
    erewrite (IH h' q ts s e cs xs it _ _ (c_node c') fuel Hinv').
    + unfold h'. rewrite with_iters_insert_insert. rewrite last_cons.
      cbn [fmap list_fmap]. f_equal. f_equal. f_equal. by destruct (last rest).
    + unfold h'. heap_simpl. by rewrite lookup_insert_eq.
    + right. destruct Hpos as [[-> <-]|(cs1 & c & -> & ->)].
      * by exists [], c'.
      * exists (cs1 ++ [c]), c'. by rewrite <-app_assoc.
    + cbn in Hfuel. lia.
Qed.






(** ** Interleaved producers and consumers *)

Lemma add_inv_strs h q ts s e cs xs tag data type :
  deque_inv h q ts s e cs xs → Z.of_nat (length xs) < 4294967295 →
  ∃ c h',
    pgagroal_deque_add (Some q) tag data type h = Ok 0 h' ∧
    deque_inv h' q ts s e (cs ++ [c]) (xs ++ [mk_item tag data type]) ∧
    (∀ p o, cstr h p = Some o → cstr h' p = Some o).
Proof.
  intros [Hrep Hlen] Hmax.
  destruct (offer_exact _ _ _ _ _ _ _ _ tag data type Hrep)
    as (l & mu & h' & _ & _ & Hex & Hrep' & _ & _ & HS & _ & _).
  exists (new_cell h tag), h'. split; [|split].
  - unfold pgagroal_deque_add. eapply bind_Ok; [exact Hex|reflexivity].
  - rewrite wrap32_small in Hrep' by lia.
    split; rewrite length_app; cbn [length]; [|lia].
    replace (Z.of_nat (length xs + 1)) with (Z.of_nat (length xs) + 1) by lia. done.
  - intros [p|] o; [|done]. cbn [cstr]. rewrite HS.
    unfold new_cell. cbn [c_tag]. destruct tag as [str|]; [|done].
    intros Hp. rewrite lookup_insert_ne; [done|]. intros <-.
    rewrite fresh_lookup in Hp. done.
Qed.

Lemma run_ops_Ok os : ∀ h q ts s e cs xs,
  deque_inv h q ts s e cs xs →
  Z.of_nat (length xs + count_adds os) < 4294967296 →
  ∃ rs h' cs',
    run_ops (Some q) os h = Ok rs h' ∧
    deque_inv h' q ts s e cs' (fst (queue_ops xs os)) ∧
    Forall2 (agrees h') rs (snd (queue_ops xs os)) ∧
    (∀ p o, cstr h p = Some o → cstr h' p = Some o).
Proof.
  induction os as [|o os IH]; intros h q ts s e cs xs Hinv Hbound.
  - exists [], h, cs. split; [done|]. split; [done|]. split; [constructor|done].
  - assert (∀ a ex h1 cs1 xs1,
              run_op (Some q) o h = Ok a h1 →
              queue_op xs o = (xs1, ex) →
              deque_inv h1 q ts s e cs1 xs1 →
              agrees h1 a ex →
              (∀ p o, cstr h p = Some o → cstr h1 p = Some o) →
              Z.of_nat (length xs1 + count_adds os) < 4294967296 →
              ∃ rs h' cs',
                run_ops (Some q) (o :: os) h = Ok rs h' ∧
                deque_inv h' q ts s e cs' (fst (queue_ops xs (o :: os))) ∧
                Forall2 (agrees h') rs (snd (queue_ops xs (o :: os))) ∧
                (∀ p o, cstr h p = Some o → cstr h' p = Some o)) as Hstep.
    { intros a ex h1 cs1 xs1 Hrun Hq Hinv1 Hag Hmono Hb1.
      destruct (IH h1 q ts s e cs1 xs1 Hinv1 Hb1) as (rs & h' & cs' & Hex & Hinv' & HF & Hm').
      exists (a :: rs), h', cs'. cbn [run_ops queue_ops]. rewrite Hq. cbn [fst snd].
      split; [|split; [exact Hinv'|split]].
      - eapply bind_Ok; [exact Hrun|]. eapply bind_Ok; [exact Hex|reflexivity].
      - constructor; [|exact HF].
        destruct a as [z|b|z [p|]], ex as [z'|b'|z' [t|]]; try done.
        destruct Hag as [-> Hp]. split; [done|]. by apply Hm'.
      - intros p o' Hp. by apply Hm', Hmono. }
    destruct (rep_deque _ _ _ _ _ _ _ _ (proj1 Hinv)) as (mu & Hd & Hmu).
    pose proof (cells_length _ _ _ (rep_cells _ _ _ _ _ _ _ _ (proj1 Hinv))) as Hcl.
    destruct o as [[tag data type]| | |tag| |]; cbn [count_adds] in Hbound.
    + destruct (add_inv_strs _ _ _ _ _ _ _ tag data type Hinv) as (c & h1 & Hex & Hinv1 & Hm);
        [lia|].
      eapply (Hstep (AInt 0) (EInt 0) h1); try done.
      * cbn [run_op i_tag i_data i_type]. eapply bind_Ok; [exact Hex|reflexivity].
      * rewrite length_app. cbn [length]. lia.
    + destruct cs as [|c cs]; destruct xs as [|x xs]; try discriminate Hcl.
      * eapply (Hstep (AData 0 None) (EData 0 None) h); try done.
        cbn [run_op]. eapply bind_Ok; [by eapply poll_empty|reflexivity].
      * destruct Hinv as [Hrep Hlen].
        destruct (poll_rep _ _ _ _ _ _ _ _ _ true Hrep)
          as (x' & xs' & h1 & [= <- <-] & Hex & Hrep1 & Htag & Hs1 & _); [cbn; lia|].
        cbn [length] in *. rewrite wrap32_small in Hrep1 by lia.
        replace (Z.of_nat (S (length xs)) - 1) with (Z.of_nat (length xs)) in Hrep1 by lia.
        eapply (Hstep (AData (i_data x) (Some (c_tag c)))
                  (EData (i_data x) (Some (i_tag x))) h1 cs xs); try done.
        -- cbn [run_op]. eapply bind_Ok; [exact Hex|reflexivity].
        -- split; [done|lia].
        -- intros p o. unfold cstr. by rewrite Hs1.
        -- lia.
    + destruct cs as [|c cs]; destruct xs as [|x xs]; try discriminate Hcl.
      * eapply (Hstep (AData 0 None) (EData 0 None) h); try done.
        cbn [run_op]. eapply bind_Ok; [by eapply peek_empty|reflexivity].
      * pose proof (rep_cells _ _ _ _ _ _ _ _ (proj1 Hinv)) as HF.
        apply Forall2_cons_1 in HF as [(_ & _ & _ & Hcs) _].
        eapply (Hstep (AData (i_data x) (Some (c_tag c)))
                  (EData (i_data x) (Some (i_tag x))) h (c :: cs) (x :: xs)); try done.
        cbn [run_op].
        eapply bind_Ok; [eapply peek_Ok; [apply Hinv|cbn; lia]|reflexivity].
    + eapply (Hstep (AInt (get_spec tag xs)) (EInt (get_spec tag xs)) h); try done.
      cbn [run_op]. eapply bind_Ok; [by eapply get_Ok|reflexivity].
    + eapply (Hstep (AInt (Z.of_nat (length xs))) (EInt (Z.of_nat (length xs))) h);
        try done.
      cbn [run_op]. eapply bind_Ok; [by eapply size_Ok|reflexivity].
    + eapply (Hstep (ABool (Z.of_nat (length xs) =? 0))
                (EBool (Z.of_nat (length xs) =? 0)) h); try done.
      cbn [run_op]. unfold pgagroal_deque_empty. rewrite bind_assoc.
      eapply bind_Ok; [by eapply size_Ok|reflexivity].
Qed.

(** X6: under any interleaving of add, poll, peek, get, size and empty the
    deque answers as a first-in first-out queue does: run on a well-formed
    deque that holds [xs], the calls [os] return what [queue_ops] computes on
    the list [xs], and leave a well-formed deque that holds the list
    [queue_ops] ends with, as long as the elements never number 2^32. *)
Theorem X6_answers_as_fifo_queue (h : heap) (q : positive) (ts : bool) (s e : positive)
    (cs : list cell) (xs : list item) (os : list op) :
  deque_inv h q ts s e cs xs →
  Z.of_nat (length xs + count_adds os) < 4294967296 →
  ∃ rs h' cs',
    run_ops (Some q) os h = Ok rs h' ∧
    Forall2 (agrees h') rs (snd (queue_ops xs os)) ∧
    deque_inv h' q ts s e cs' (fst (queue_ops xs os)).
Proof.
  intros Hinv Hbound.
  destruct (run_ops_Ok os h q ts s e cs xs Hinv Hbound) as (rs & h' & cs' & H1 & H2 & H3 & _).
  by exists rs, h', cs'.
Qed.

Lemma X6_answers_as_fifo_queue_witness :
  ∃ q h1 rs h2,
    pgagroal_deque_create true empty_heap = Ok (0, Some q) h1 ∧
    run_ops (Some q)
      [OpAdd (mk_item (Some "a"%string) 1 ValueInt32);
       OpAdd (mk_item (Some "b"%string) 2 ValueInt32);
       OpPeek; OpPoll; OpGet (Some "b"%string); OpSize; OpPoll; OpPoll; OpEmpty] h1
      = Ok rs h2 ∧
    Forall2 (agrees h2) rs
      [EInt 0; EInt 0; EData 1 (Some (Some "a"%string)); EData 1 (Some (Some "a"%string));
       EInt 2; EInt 1; EData 2 (Some (Some "b"%string)); EData 0 None; EBool true].
Proof.
  destruct (create_Ok true empty_heap) as (q & s & e & h1 & Hc & Hinv & _).
  destruct (X6_answers_as_fifo_queue h1 q true s e [] []
              [OpAdd (mk_item (Some "a"%string) 1 ValueInt32);
               OpAdd (mk_item (Some "b"%string) 2 ValueInt32);
               OpPeek; OpPoll; OpGet (Some "b"%string); OpSize; OpPoll; OpPoll; OpEmpty] Hinv)
    as (rs & h2 & cs' & Hrun & Hag & _).
  - cbn. lia.
  - exists q, h1, rs, h2. split; [exact Hc|]. split; [exact Hrun|exact Hag].
Defined.

Lemma find_snoc {A} (f : A → bool) l x :
  List.find f (l ++ [x]) =
    match List.find f l with
    | Some y => Some y
    | None => if f x then Some x else None
    end.
Proof.
  induction l as [|y l IH]; cbn; [done|]. by destruct (f y).
Qed.

(** X7: add never replaces an element.  After [add(tag, data)] with a tag
    that is not empty, [get(tag)] returns [data] when no element had that tag
    before, and keeps returning the payload of the earlier element when one
    had; [get] of any other tag returns what it returned before the add. *)
Theorem X7_get_after_add (h : heap) (q : positive) (ts : bool) (s e : positive)
    (cs : list cell) (xs : list item) (t : string) (data : Z) (type : value_type) :
  deque_inv h q ts s e cs xs → Z.of_nat (length xs) < 4294967295 → t ≠ EmptyString →
  ∃ h',
    pgagroal_deque_add (Some q) (Some t) data type h = Ok 0 h' ∧
    ((∀ y, y ∈ xs → i_tag y ≠ Some t) →
     pgagroal_deque_get (Some q) (Some t) h' = Ok data h') ∧
    (∀ y, y ∈ xs → i_tag y = Some t →
     ∃ v, pgagroal_deque_get (Some q) (Some t) h = Ok v h ∧
          pgagroal_deque_get (Some q) (Some t) h' = Ok v h') ∧
    (∀ t', t' ≠ t →
     ∃ v, pgagroal_deque_get (Some q) (Some t') h = Ok v h ∧
          pgagroal_deque_get (Some q) (Some t') h' = Ok v h').
Proof.
  intros Hinv Hmax Hne.
  destruct (add_inv _ _ _ _ _ _ _ (Some t) data type Hinv Hmax) as (c & h' & Hex & Hinv').
  exists h'. split; [exact Hex|].
  pose proof (λ tag, get_Ok _ _ _ _ _ _ _ tag Hinv) as Hget.
  pose proof (λ tag, get_Ok _ _ _ _ _ _ _ tag Hinv') as Hget'.
  split; [|split].
  - intros Hnone. rewrite Hget'. unfold get_spec.
    rewrite bool_decide_eq_false_2 by done.
    rewrite find_snoc, (find_none_tag t xs Hnone). cbn [i_tag i_data].
    by rewrite bool_decide_eq_true_2.
  - intros y Hy Hty. exists (get_spec (Some t) xs). split; [apply Hget|].
    rewrite Hget'. f_equal. unfold get_spec. rewrite bool_decide_eq_false_2 by done.
    rewrite find_snoc.
    destruct (List.find _ xs) as [z|] eqn:Ef; [done|].
    exfalso. pose proof (List.find_none _ _ Ef y (proj1 (list_elem_of_In _ _) Hy)) as Hf.
    cbv beta in Hf. by rewrite bool_decide_eq_true_2 in Hf.
  - intros t' Ht'. exists (get_spec (Some t') xs). split; [apply Hget|].
    rewrite Hget'. f_equal. unfold get_spec. destruct (bool_decide (t' = EmptyString)); [done|].
    rewrite find_snoc. cbn [i_tag]. destruct (List.find _ xs); [done|].
    rewrite bool_decide_eq_false_2; [done|]. congruence.
Qed.

Lemma X7_get_after_add_witness :
  ∃ q h1 h2 h3,
    pgagroal_deque_create false empty_heap = Ok (0, Some q) h1 ∧
    pgagroal_deque_add (Some q) (Some "k"%string) 5 ValueInt32 h1 = Ok 0 h2 ∧
    pgagroal_deque_get (Some q) (Some "k"%string) h2 = Ok 5 h2 ∧
    pgagroal_deque_add (Some q) (Some "k"%string) 6 ValueInt32 h2 = Ok 0 h3 ∧
    pgagroal_deque_get (Some q) (Some "k"%string) h3 = Ok 5 h3.
Proof.
  destruct (create_Ok false empty_heap) as (q & s & e & h1 & Hc & Hinv1 & _).
  destruct (X7_get_after_add h1 q false s e [] [] "k"%string 5 ValueInt32 Hinv1)
    as (h2 & Ha2 & Hnew & _); [cbn; lia|discriminate|].
  destruct (add_inv _ _ _ _ _ _ _ (Some "k"%string) 5 ValueInt32 Hinv1) as (c & h2' & Ha2' & Hinv2);
    [cbn; lia|].
  rewrite Ha2 in Ha2'. injection Ha2' as <-.
  destruct (X7_get_after_add h2 q false s e ([] ++ [c])
              ([] ++ [mk_item (Some "k"%string) 5 ValueInt32]) "k"%string 6 ValueInt32 Hinv2)
    as (h3 & Ha3 & _ & Hold & _); [cbn; lia|discriminate|].
  destruct (Hold (mk_item (Some "k"%string) 5 ValueInt32)) as (v & Hv & Hv'); [left|done|].
  rewrite (Hnew ltac:(intros y Hy; by apply elem_of_nil in Hy)) in Hv. injection Hv as <-.
  exists q, h1, h2, h3. split; [exact Hc|]. split; [exact Ha2|]. split; [|split; [exact Ha3|exact Hv']].
  apply Hnew. intros y Hy. by apply elem_of_nil in Hy.
Defined.

(** ** What poll frees *)

(** X8: [poll] frees the node and its value cell but never the tag.  When
    the caller passes no [tag] pointer the string is not handed to anyone
    and stays allocated: destroying the deque after such a poll leaves one
    string more in the heap than destroying it before the poll. *)
Theorem X8_poll_without_tag_leaks_string (h : heap) (q : positive) (ts : bool)
    (s e sv ev : positive) (c : cell) (cs : list cell) (xs : list item) (t : positive) :
  deque_owned h q ts s e sv ev (Z.of_nat (length xs)) (c :: cs) xs →
  Z.of_nat (length xs) < 4294967296 → c_tag c = Some t →
  ∃ x xs' str h',
    xs = x :: xs' ∧ i_tag x = Some str ∧
    pgagroal_deque_poll (Some q) false h = Ok (i_data x, None) h' ∧
    nodes h' !! c_node c = None ∧ values h' !! c_val c = None ∧
    strs h' !! t = Some str ∧
    pgagroal_deque_destroy (Some q) h = Ok tt (released h q s e sv ev (c :: cs)) ∧
    strs (released h q s e sv ev (c :: cs)) !! t = None ∧
    pgagroal_deque_destroy (Some q) h'
    = Ok tt (with_strs (insert t str) (released h q s e sv ev (c :: cs))).
Proof.
  intros Hown Hlen Ht.
  pose proof (cells_length _ _ _ (rep_cells _ _ _ _ _ _ _ _ (proj1 Hown))) as Hcl.
  destruct (poll_owned _ _ _ _ _ _ _ _ _ _ _ false Hown)
    as (x & xs' & h' & -> & Hex & Hown' & Htag & Hn & Hv & HS & HI & HN & HV & HD).
  { destruct xs; cbn in Hcl |- *; [discriminate|lia]. }
  rewrite Ht in Htag. cbn [cstr] in Htag.
  apply fmap_Some_inv in Htag as (str & Hstr & Etag).
  exists x, xs', str, h'. split; [done|]. split; [done|]. split; [exact Hex|].
  split; [exact Hn|]. split; [exact Hv|]. split; [exact Hstr|].
  split; [by eapply destroy_Ok|].
  pose proof (rep_tags _ _ _ _ _ _ _ _ (proj1 Hown)) as Hnd.
  cbn [omap list_omap] in Hnd. rewrite Ht in Hnd. fold (omap (M:=list) c_tag cs) in Hnd.
  apply NoDup_cons in Hnd as [Hnot _].
  assert (strs (released h q s e sv ev (c :: cs)) !! t = None) as Hgone.
  { unfold released. heap_simpl. rewrite lookup_foldr_delete, decide_True; [done|].
    cbn [omap list_omap]. rewrite Ht. left. }
  split; [exact Hgone|].
  rewrite (destroy_Ok _ _ _ _ _ _ _ _ _ _ Hown'). f_equal.
  unfold released in HN, HV, HD. cbn [nodes values deques] in HN, HV, HD.
  unfold released, with_strs. heap_simpl. rewrite HN, HV, HD, HI. f_equal.
  apply map_eq. intros k. cbn [omap list_omap]. rewrite Ht.
  fold (omap (M:=list) c_tag cs). cbn [foldr].
  destruct (decide (k = t)) as [->|Hk]; lk.
  - rewrite lookup_foldr_delete, decide_False by done. exact Hstr.
  - by rewrite HS.
Qed.

Lemma X8_poll_without_tag_leaks_string_witness :
  ∃ q h1 h2 h3 h4 t,
    pgagroal_deque_create false empty_heap = Ok (0, Some q) h1 ∧
    pgagroal_deque_add (Some q) (Some "a"%string) 7 ValueInt32 h1 = Ok 0 h2 ∧
    pgagroal_deque_poll (Some q) false h2 = Ok (7, None) h3 ∧
    pgagroal_deque_destroy (Some q) h3 = Ok tt h4 ∧
    h4 = with_strs (insert t "a"%string) empty_heap.
Proof.
  destruct (create_owned false empty_heap) as (q & s & e & sv & ev & h1 & Hc & Hown1 & Hrel1).
  destruct (add_owned _ _ _ _ _ _ _ _ _ _ (Some "a"%string) 7 ValueInt32 Hown1)
    as (h2 & Ha & Hown2 & Hrel2).
  change (wrap32 (0 + 1)) with (Z.of_nat (length [mk_item (Some "a"%string) 7 ValueInt32]))
    in Hown2.
  destruct (X8_poll_without_tag_leaks_string h2 q false s e sv ev
              (new_cell h1 (Some "a"%string)) [] _ (fresh (dom (strs h1))) Hown2)
    as (x & xs' & str & h3 & Exs & Etag & Hpoll & _ & _ & _ & _ & _ & Hdes).
  - cbn. lia.
  - reflexivity.
  - injection Exs as <- <-. injection Etag as <-.
    cbn [app] in Hrel2. rewrite Hrel2, Hrel1 in Hdes.
    exists q, h1, h2, h3, (with_strs (insert (fresh (dom (strs h1))) "a"%string) empty_heap),
      (fresh (dom (strs h1))).
    split; [exact Hc|]. split; [exact Ha|]. split; [exact Hpoll|]. split; [exact Hdes|].
    reflexivity.
Defined.

(** ** Iterators at the edges *)

(** X9: [iterator_remove] removes nothing unless the cursor is on an
    element: with the cursor [NULL] (an exhausted iterator), with no deque,
    and with the cursor on a sentinel (a fresh iterator stands on the front
    one) it returns without touching the heap. *)
Theorem X9_iterator_remove_off_element (h : heap) (it : positive)
    (dq cur tg vl : option positive) :
  iters h !! it = Some (mk_iter dq cur tg vl) →
  cur = None ∨ dq = None ∨
    (∃ q d, dq = Some q ∧ deques h !! q = Some d ∧ (cur = dq_start d ∨ cur = dq_end d)) →
  pgagroal_deque_iterator_remove (Some it) h = Ok tt h.
Proof.
  intros Hit Hcase. unfold pgagroal_deque_iterator_remove. step.
  destruct cur as [a|]; [|done]. step.
  destruct dq as [q|]; [|done].
  destruct Hcase as [?|[?|(q' & d & [= <-] & Hd & Hcur)]]; try done.
  step. destruct Hcur as [Hc|Hc].
  - rewrite <-Hc, ptr_eqb_refl. done.
  - destruct (ptr_eqb (Some a) (dq_start d)); [done|]. step.
    rewrite <-Hc, ptr_eqb_refl. done.
Qed.

Lemma X9_iterator_remove_off_element_witness :
  ∃ q h1 it h2,
    pgagroal_deque_create false empty_heap = Ok (0, Some q) h1 ∧
    pgagroal_deque_iterator_create (Some q) h1 = Ok (0, Some (Some it)) h2 ∧
    pgagroal_deque_iterator_remove (Some it) h2 = Ok tt h2.
Proof.
  destruct (create_Ok false empty_heap) as (q & s & e & h1 & Hc & Hinv & _).
  destruct (rep_deque _ _ _ _ _ _ _ _ (proj1 Hinv)) as (mu & Hd & _).
  destruct (iterator_create_Ok h1 q _ Hd) as (it & _ & Hcr).
  eexists q, h1, it, _. split; [exact Hc|]. split; [exact Hcr|].
  eapply (X9_iterator_remove_off_element _ it (Some q) (Some s) None None).
  - apply lookup_insert_eq.
  - right. right. eexists q, _. split; [done|]. split; [exact Hd|]. by left.
Defined.

(** X10: an iterator does not survive a poll of the element under its
    cursor.  The poll frees the node, and the iterator still points to it:
    [iterator_remove] then reads the freed node, and so does [iterator_next]
    unless the poll emptied the deque, in which case [deque_next] returns
    [NULL] on [size == 0] before it looks at the node. *)
Theorem X10_poll_invalidates_iterator (h : heap) (q : positive) (ts : bool)
    (s e : positive) (c : cell) (cs : list cell) (xs : list item) (it : positive)
    (tg vl : option positive) (want_tag : bool) :
  deque_inv h q ts s e (c :: cs) xs →
  iters h !! it = Some (mk_iter (Some q) (Some (c_node c)) tg vl) →
  ∃ r h',
    pgagroal_deque_poll (Some q) want_tag h = Ok r h' ∧
    pgagroal_deque_iterator_remove (Some it) h' = Undefined ∧
    (cs ≠ [] → pgagroal_deque_iterator_next (Some it) h' = Undefined) ∧
    (cs = [] →
     pgagroal_deque_iterator_next (Some it) h'
     = Ok false (with_iters (insert it (mk_iter (Some q) None tg vl)) h')).
Proof.
  intros [Hrep Hlen] Hit.
  pose proof (cells_length _ _ _ (rep_cells _ _ _ _ _ _ _ _ Hrep)) as Hcl.
  pose proof (rep_nodup _ _ _ _ _ _ _ _ Hrep) as Hnd.
  rewrite fmap_cons in Hnd. cbn [app] in Hnd.
  apply NoDup_cons in Hnd as [Hs1 Hnd]. apply NoDup_cons in Hnd as [Hc1 _].
  assert (c_node c ≠ s) as Hcs by (intros Heq; apply Hs1; rewrite <-Heq; left).
  assert (c_node c ≠ e) as Hce.
  { intros Heq. apply Hc1. rewrite Heq. apply elem_of_app. right. left. }
  destruct (poll_exact _ _ _ _ _ _ _ _ _ want_tag Hrep)
    as (x & xs' & nx & mu & h' & -> & _ & _ & Hex & Hrep' & _ & HN & _ & _ & HD & HI).
  { destruct xs; cbn in Hcl |- *; [discriminate|lia]. }
  assert (nodes h' !! c_node c = None) as Hgone by (rewrite HN; apply lookup_delete_eq).
  assert (iters h' !! it = Some (mk_iter (Some q) (Some (c_node c)) tg vl)) as Hit'
    by (by rewrite HI).
  assert (deques h' !! q =
            Some (mk_deque (wrap32 (Z.of_nat (length (x :: xs')) - 1)) ts mu (Some s) (Some e)))
    as Hd' by (rewrite HD; apply lookup_insert_eq).
  cbn [length] in *. rewrite wrap32_small in Hd' by lia.
  eexists _, h'. split; [exact Hex|]. split; [|split].
  - unfold pgagroal_deque_iterator_remove. step. step. step.
    rewrite ptr_eqb_ne by done. step. rewrite ptr_eqb_ne by done.
    unfold deque_remove. rewrite bind_assoc. step. rewrite ptr_eqb_ne by done.
    rewrite bind_assoc. step. rewrite ptr_eqb_ne by done.
    unfold bind, load_node. by rewrite Hgone.
  - intros Hne. unfold pgagroal_deque_iterator_next. step. step.
    unfold deque_next. rewrite bind_assoc. step.
    destruct (Z.eqb_spec (Z.of_nat (S (length xs')) - 1) 0) as [Hz|_].
    { destruct cs; [done|]. cbn in Hcl. lia. }
    unfold bind, load_node. by rewrite Hgone.
  - intros ->. destruct xs'; [|discriminate Hcl].
    unfold pgagroal_deque_iterator_next. step. step.
    eapply bind_Ok; [by eapply deque_next_empty|]. steps.
    unfold ret. f_equal. by rewrite (with_iters_alter _ _ _ _ Hit').
Qed.

Lemma X10_poll_invalidates_iterator_witness :
  ∃ q h1 h2 it h3 h4 r h5,
    pgagroal_deque_create false empty_heap = Ok (0, Some q) h1 ∧
    add_all (Some q) [mk_item None 1 ValueInt32; mk_item None 2 ValueInt32] h1 = Ok tt h2 ∧
    pgagroal_deque_iterator_create (Some q) h2 = Ok (0, Some (Some it)) h3 ∧
    pgagroal_deque_iterator_next (Some it) h3 = Ok true h4 ∧
    pgagroal_deque_poll (Some q) true h4 = Ok r h5 ∧
    pgagroal_deque_iterator_next (Some it) h5 = Undefined.
Proof.
  destruct (create_adds false empty_heap
              [mk_item None 1 ValueInt32; mk_item None 2 ValueInt32])
    as (q & s & e & cs & h1 & h2 & Hc & Ha & Hrep).
  assert (deque_inv h2 q false s e cs
            [mk_item None 1 ValueInt32; mk_item None 2 ValueInt32])
    as Hinv by (split; [exact Hrep|cbn; lia]).
  pose proof (cells_length _ _ _ (rep_cells _ _ _ _ _ _ _ _ Hrep)) as Hl.
  destruct cs as [|c1 [|c2 [|? ?]]]; try discriminate Hl.
  destruct (rep_deque _ _ _ _ _ _ _ _ Hrep) as (mu & Hd & _).
  destruct (iterator_create_Ok h2 q _ Hd) as (it & Hfresh & Hcreate).
  cbn [dq_start] in Hcreate.
  set (h3 := with_iters (insert it (mk_iter (Some q) (Some s) None None)) h2) in *.
  assert (iters h3 !! it = Some (mk_iter (Some q) (Some s) None None)) as Hit3
    by apply lookup_insert_eq.
  pose proof (iterator_next_Ok h3 q false s e _ _ it None None s [c1; c2]
                (deque_inv_with_iters _ _ _ _ _ _ _ _ Hinv) Hit3
                (or_introl (conj eq_refl eq_refl))) as Hnext.
  cbv iota in Hnext.
  set (h4 := with_iters
               (insert it (mk_iter (Some q) (Some (c_node c1)) (c_tag c1) (Some (c_val c1))))
               h3) in *.
  destruct (X10_poll_invalidates_iterator h4 q false s e c1 [c2]
              [mk_item None 1 ValueInt32; mk_item None 2 ValueInt32]
              it (c_tag c1) (Some (c_val c1)) true)
    as (r & h5 & Hpoll & _ & Hund & _).
  { apply deque_inv_with_iters. apply deque_inv_with_iters. exact Hinv. }
  { apply lookup_insert_eq. }
  exists q, h1, h2, it, h3, h4, r, h5.
  split; [exact Hc|]. split; [exact Ha|]. split; [exact Hcreate|].
  split; [exact Hnext|]. split; [exact Hpoll|]. apply Hund. discriminate.
Defined.

(** ** The size counter *)

(** X11: [size] counts the adds modulo 2^32, whatever their number: after N
    adds on a fresh deque it returns N mod 2^32, and [empty] is true exactly
    when that is 0. *)
Theorem X11_size_counts_modulo_2_32 (ts : bool) (h0 : heap) (xs : list item) :
  ∃ q h1 h2,
    pgagroal_deque_create ts h0 = Ok (0, Some q) h1 ∧
    add_all (Some q) xs h1 = Ok tt h2 ∧
    pgagroal_deque_size (Some q) h2 = Ok (Z.of_nat (length xs) mod 4294967296) h2 ∧
    pgagroal_deque_empty (Some q) h2
    = Ok (Z.of_nat (length xs) mod 4294967296 =? 0) h2.
Proof.
  destruct (create_adds ts h0 xs) as (q & s & e & cs & h1 & h2 & Hc & Ha & Hrep).
  destruct (rep_deque _ _ _ _ _ _ _ _ Hrep) as (mu & Hd & Hmu).
  exists q, h1, h2. split; [exact Hc|]. split; [exact Ha|]. split.
  - by eapply size_Ok.
  - unfold pgagroal_deque_empty. eapply bind_Ok; [by eapply size_Ok|reflexivity].
Qed.

(** ** Serialization to text *)




Section text_proofs.
Variable FORMAT_TEXT : Z.
Variable INDENT_PER_LEVEL : Z.
Variable BULLET_POINT : string.
Variable value_to_string : value → Z → option string → Z → option string.

End text_proofs.




(** ** Readers and writers *)

Lemma with_lock_lookup mu q h d :
  deques h !! q = Some d →
  deques (with_lock mu q h) !! q = Some (set_mutex mu d).
Proof. intros Hd. unfold with_lock. heap_simpl. lk. by rewrite Hd. Qed.

Lemma size_shared h q sz mu0 s e n :
  deques h !! q = Some (mk_deque sz true mu0 s e) →
  pgagroal_deque_size (Some q) (with_lock (LockRead n) q h)
  = Ok sz (with_lock (LockRead n) q h).
Proof.
  intros Hd. pose proof (with_lock_lookup (LockRead n) q h _ Hd) as Hd'.
  cbn [set_mutex dq_size dq_thread_safe dq_start dq_end] in Hd'.
  unfold pgagroal_deque_size. steps. unfold ret. f_equal.
  by eapply lock_roundtrip.
Qed.

Lemma peek_shared h q s e c cs x xs wt n :
  deque_inv h q true s e (c :: cs) (x :: xs) →
  pgagroal_deque_peek (Some q) wt (with_lock (LockRead n) q h)
  = Ok (i_data x, if wt then Some (c_tag c) else None) (with_lock (LockRead n) q h).
Proof.
  intros [Hrep Hlen].
  destruct (rep_first _ _ _ _ _ _ _ _ Hrep) as (ns & Hs & Hfirst).
  destruct (rep_deque _ _ _ _ _ _ _ _ Hrep) as (mu & Hd & Hmu).
  pose proof (with_lock_lookup (LockRead n) q h _ Hd) as Hd'.
  cbn [set_mutex dq_size dq_thread_safe dq_start dq_end] in Hd'.
  pose proof (rep_cells _ _ _ _ _ _ _ _ Hrep) as HF.
  apply Forall2_cons_1 in HF as [(Hcd & Hct & Hcv & Hcs) _].
  apply fmap_Some_inv in Hcd as ([ad at_ ap an] & Ha & Hcd). cbn in Hcd, Hct.
  rewrite Ha in Hct. cbn in Hct. simplify_eq.
  assert (n_next ns = Some (c_node c)) as Hn.
  { cbn in Hfirst. destruct (ptr_eqb (n_next ns) (Some e)); [done|]. done. }
  assert (c_node c ≠ e) as Hce.
  { pose proof (rep_nodup _ _ _ _ _ _ _ _ Hrep) as H1.
    apply NoDup_cons in H1 as [_ H1]. cbn in H1. apply NoDup_cons in H1 as [H1 _].
    intros Heq. apply H1. rewrite <-Heq. apply elem_of_app. right. left. }
  destruct ns as [sd st sp sn]. cbn in Hn. subst sn.
  unfold pgagroal_deque_peek.
  eapply bind_Ok; [by eapply size_shared|].
  assert ((Z.of_nat (length (x :: xs)) =? 0) = false) as -> by (apply Z.eqb_neq; cbn; lia).
  unfold with_lock in *.
  destruct wt; steps; rewrite ptr_eqb_ne by done; steps;
    unfold ret; f_equal; by eapply lock_roundtrip.
Qed.

Lemma get_shared h q s e cs xs tag n :
  deque_inv h q true s e cs xs →
  pgagroal_deque_get (Some q) tag (with_lock (LockRead n) q h)
  = Ok (get_spec tag xs) (with_lock (LockRead n) q h).
Proof.
  intros [Hrep Hlen].
  destruct (rep_deque _ _ _ _ _ _ _ _ Hrep) as (mu & Hd & Hmu).
  pose proof (with_lock_lookup (LockRead n) q h _ Hd) as Hd'.
  cbn [set_mutex dq_size dq_thread_safe dq_start dq_end] in Hd'.
  unfold pgagroal_deque_get. unfold with_lock in *.
  steps.
  match goal with |- bind _ _ ?h1 = _ =>
    destruct (find_Ok tag h h1 q true s e cs xs
                (mk_deque (Z.of_nat (length xs)) true (LockRead (S n)) (Some s) (Some e)) Hrep)
      as (r & Hr & Hres); [done|done|solve_lookup|done|done|done|]
  end.
  eapply bind_Ok; [exact Hr|].
  destruct r as [a|].
  - destruct Hres as (c & x & -> & (Hcd & Hct & Hcv & Hcs) & ->).
    apply fmap_Some_inv in Hcd as (na & Ha & Hcd).
    steps. rewrite Hcd. steps. unfold ret. f_equal. by eapply lock_roundtrip.
  - rewrite Hres. steps. unfold ret. f_equal. by eapply lock_roundtrip.
Qed.

Lemma add_waits h q sz mu0 s e mu tag data type :
  deques h !! q = Some (mk_deque sz true mu0 s e) →
  mu = LockWrite ∨ (∃ n, mu = LockRead n) →
  pgagroal_deque_add (Some q) tag data type (with_lock mu q h) = Diverges.
Proof.
  intros Hd Hmu. unfold pgagroal_deque_add, deque_offer. rewrite !bind_assoc.
  eapply bind_Ok; [apply deque_node_create_Ok|]. unfold with_lock. heap_simpl.
  unfold deque_write_lock, pthread_rwlock_wrlock.
  destruct Hmu as [->|[n ->]]; steps; reflexivity.
Qed.

Lemma size_waits h q sz mu0 s e :
  deques h !! q = Some (mk_deque sz true mu0 s e) →
  pgagroal_deque_size (Some q) (with_lock LockWrite q h) = Diverges.
Proof.
  intros Hd. unfold pgagroal_deque_size, with_lock.
  unfold deque_read_lock, pthread_rwlock_rdlock. steps. reflexivity.
Qed.

(** X13: the lock of a thread-safe deque is a readers-writer lock, and the
    operations use it as one.  While other threads hold it for reading,
    [size], [empty], [peek] and [get] return what they return on the unlocked
    deque and leave the lock as they found it, but [add] and a [poll] that
    has something to remove wait for it.  While another thread holds it for
    writing, every one of them waits. *)
Theorem X13_readers_share_writers_wait (h : heap) (q : positive) (s e : positive)
    (cs : list cell) (xs : list item) (n : nat) :
  deque_inv h q true s e cs xs →
  pgagroal_deque_size (Some q) (with_lock (LockRead n) q h)
  = Ok (Z.of_nat (length xs)) (with_lock (LockRead n) q h) ∧
  pgagroal_deque_empty (Some q) (with_lock (LockRead n) q h)
  = Ok (Z.of_nat (length xs) =? 0) (with_lock (LockRead n) q h) ∧
  (∀ tag, pgagroal_deque_get (Some q) tag (with_lock (LockRead n) q h)
          = Ok (get_spec tag xs) (with_lock (LockRead n) q h)) ∧
  (∀ c cs' x xs' want_tag, cs = c :: cs' → xs = x :: xs' →
     pgagroal_deque_peek (Some q) want_tag (with_lock (LockRead n) q h)
     = Ok (i_data x, if want_tag then Some (c_tag c) else None)
          (with_lock (LockRead n) q h)) ∧
  (∀ tag data type,
     pgagroal_deque_add (Some q) tag data type (with_lock (LockRead n) q h) = Diverges) ∧
  (∀ want_tag, xs ≠ [] →
     pgagroal_deque_poll (Some q) want_tag (with_lock (LockRead n) q h) = Diverges) ∧
  (∀ tag data type,
     pgagroal_deque_add (Some q) tag data type (with_lock LockWrite q h) = Diverges) ∧
  pgagroal_deque_size (Some q) (with_lock LockWrite q h) = Diverges ∧
  pgagroal_deque_empty (Some q) (with_lock LockWrite q h) = Diverges ∧
  (∀ want_tag, pgagroal_deque_poll (Some q) want_tag (with_lock LockWrite q h) = Diverges) ∧
  (∀ want_tag, pgagroal_deque_peek (Some q) want_tag (with_lock LockWrite q h) = Diverges) ∧
  (∀ tag, pgagroal_deque_get (Some q) tag (with_lock LockWrite q h) = Diverges).
Proof.
  intros Hinv.
  destruct (rep_deque _ _ _ _ _ _ _ _ (proj1 Hinv)) as (mu & Hd & Hmu).
  pose proof (size_shared h q _ _ _ _ n Hd) as Hsize.
  pose proof (size_waits h q _ _ _ _ Hd) as Hwait.
  split; [exact Hsize|]. split.
  { unfold pgagroal_deque_empty. eapply bind_Ok; [exact Hsize|reflexivity]. }
  split; [intros tag; by eapply get_shared|]. split.
  { intros c cs' x xs' wt -> ->. by eapply peek_shared. }
  split.
  { intros tag data type. eapply add_waits; [exact Hd|right; eauto]. }
  split.
  { intros wt Hne. unfold pgagroal_deque_poll.
    eapply bind_Ok; [exact Hsize|].
    assert ((Z.of_nat (length xs) =? 0) = false) as ->.
    { apply Z.eqb_neq. destruct xs; [done|cbn; lia]. }
    unfold with_lock, deque_write_lock, pthread_rwlock_wrlock. steps. reflexivity. }
  split.
  { intros tag data type. eapply add_waits; [exact Hd|by left]. }
  split; [exact Hwait|]. split.
  { unfold pgagroal_deque_empty, bind. by rewrite Hwait. }
  split.
  { intros wt. unfold pgagroal_deque_poll, bind. by rewrite Hwait. }
  split.
  { intros wt. unfold pgagroal_deque_peek, bind. by rewrite Hwait. }
  intros tag. unfold pgagroal_deque_get, with_lock, deque_read_lock, pthread_rwlock_rdlock.
  steps. reflexivity.
Qed.

Lemma X13_readers_share_writers_wait_witness :
  ∃ q h1 h2,
    pgagroal_deque_create true empty_heap = Ok (0, Some q) h1 ∧
    pgagroal_deque_add (Some q) None 4 ValueInt32 h1 = Ok 0 h2 ∧
    pgagroal_deque_size (Some q) (with_lock (LockRead 0) q h2)
    = Ok 1 (with_lock (LockRead 0) q h2) ∧
    pgagroal_deque_poll (Some q) true (with_lock (LockRead 0) q h2) = Diverges.
Proof.
  destruct (create_Ok true empty_heap) as (q & s & e & h1 & Hc & Hinv1 & _).
  destruct (add_inv _ _ _ _ _ _ _ None 4 ValueInt32 Hinv1) as (c & h2 & Ha & Hinv2);
    [cbn; lia|].
  destruct (X13_readers_share_writers_wait h2 q s e _ _ 0 Hinv2)
    as (Hsize & _ & _ & _ & _ & Hpoll & _).
  exists q, h1, h2. split; [exact Hc|]. split; [exact Ha|]. split; [exact Hsize|].
  apply Hpoll. discriminate.
Defined.

(** ** Listing *)

(** X14: [pgagroal_deque_list] never changes the heap.  With the DEBUG5 level
    enabled it hands the logger the JSON rendering of the deque, [[]] for a
    NULL deque; with the level disabled it does not look at the deque at
    all, whatever the pointer is. *)
Theorem X14_list_logs_json (FORMAT_JSON FORMAT_TEXT INDENT_PER_LEVEL : Z)
    (BULLET_POINT : string)
    (value_to_string : value → Z → option string → Z → option string)
    (h : heap) (q : positive) (ts : bool) (s e : positive)
    (cs : list cell) (xs : list item) :
  deque_inv h q ts s e cs xs →
  (xs ≠ [] → -2147483648 ≤ 0 + INDENT_PER_LEVEL ≤ 2147483647) →
  pgagroal_deque_list FORMAT_JSON FORMAT_TEXT INDENT_PER_LEVEL BULLET_POINT value_to_string
    true (Some q) h
  = Ok (Some (Some (json_spec FORMAT_JSON INDENT_PER_LEVEL value_to_string None 0 xs))) h ∧
  pgagroal_deque_list FORMAT_JSON FORMAT_TEXT INDENT_PER_LEVEL BULLET_POINT value_to_string
    true None h
  = Ok (Some (Some "[]"%string)) h ∧
  (∀ deque h',
     pgagroal_deque_list FORMAT_JSON FORMAT_TEXT INDENT_PER_LEVEL BULLET_POINT
       value_to_string false deque h'
     = Ok None h').
Proof.
  intros Hinv Hrange. unfold pgagroal_deque_list, pgagroal_deque_to_string.
  rewrite Z.eqb_refl. split; [|split; reflexivity].
  eapply bind_Ok; [by eapply to_json_string_Ok|reflexivity].
Qed.

Lemma X14_list_logs_json_witness :
  ∃ q h1 h2,
    pgagroal_deque_create false empty_heap = Ok (0, Some q) h1 ∧
    pgagroal_deque_add (Some q) (Some "a"%string) 1 ValueInt32 h1 = Ok 0 h2 ∧
    pgagroal_deque_list 0 1 2 "- "%string digit_to_string true (Some q) h2
    = Ok (Some (Some ("[" +:+ newline +:+ "  a: 1" +:+ newline +:+ "]")%string)) h2.
Proof.
  destruct (create_Ok false empty_heap) as (q & s & e & h1 & Hc & Hinv1 & _).
  destruct (add_inv _ _ _ _ _ _ _ (Some "a"%string) 1 ValueInt32 Hinv1)
    as (c & h2 & Ha & Hinv2); [cbn; lia|].
  exists q, h1, h2. split; [exact Hc|]. split; [exact Ha|].
  apply (X14_list_logs_json 0 1 2 "- "%string digit_to_string h2 q false s e _ _ Hinv2).
  intros _. lia.
Defined.

(** ** What removing through an iterator frees *)

Lemma elem_of_middle {A} (k a : A) l1 l2 :
  k ∈ l1 ++ a :: l2 ↔ k = a ∨ k ∈ l1 ++ l2.
Proof.
  rewrite !elem_of_app, elem_of_cons. tauto.
Qed.

Lemma iterator_remove_owned h q ts s e sv ev cs1 c cs2 xs it tg vl :
  deque_owned h q ts s e sv ev (Z.of_nat (length xs)) (cs1 ++ c :: cs2) xs →
  Z.of_nat (length xs) < 4294967296 →
  iters h !! it = Some (mk_iter (Some q) (Some (c_node c)) tg vl) →
  ∃ xs1 x xs2 h',
    xs = xs1 ++ x :: xs2 ∧ length xs1 = length cs1 ∧
    pgagroal_deque_iterator_remove (Some it) h = Ok tt h' ∧
    deque_owned h' q ts s e sv ev (Z.of_nat (length (xs1 ++ xs2))) (cs1 ++ cs2)
      (xs1 ++ xs2) ∧
    same_but_iters (released h' q s e sv ev (cs1 ++ cs2))
      (released h q s e sv ev (cs1 ++ c :: cs2)) ∧
    iters h' =
      <[it := match last cs1 with
              | None => mk_iter (Some q) (Some s) None None
              | Some cp => mk_iter (Some q) (Some (c_node cp)) (c_tag cp) (Some (c_val cp))
              end]> (iters h).
Proof.
  intros [Hrep (Hsd & Hst & Hed & Het & Hen & Hvs & Hve & Hnd)] Hlen Hit.
  destruct (iterator_remove_exact h q ts s e cs1 c cs2 xs it tg vl (conj Hrep Hlen) Hit)
    as (xs1 & x & xs2 & p & nx & h' & -> & Hl1 & Hp & Hnx & Hex & Hinv' & HN & HV & HS & HD & HI).
  pose proof (rep_nodup _ _ _ _ _ _ _ _ Hrep) as Hch.
  pose proof (rep_tags _ _ _ _ _ _ _ _ Hrep) as Htg.
  rewrite fmap_app, fmap_cons in Hch, Hnd.
  assert (p ∈ s :: (c_node <$> cs1)) as Hpin by (by apply last_Some_elem_of).
  assert (nx ∈ (c_node <$> cs2) ++ [e]) as Hnxin.
  { destruct ((c_node <$> cs2) ++ [e]); [done|]. injection Hnx as ->. left. }
  assert (c_node c ∉ s :: ((c_node <$> cs1) ++ (c_node <$> cs2)) ++ [e]) as Hcout.
  { apply NoDup_cons in Hch as [Hs1 Hch]. rewrite <-app_assoc in Hch. cbn [app] in Hch.
    apply NoDup_app in Hch as (_ & Hdis & Hch). apply NoDup_cons in Hch as [Hc1 _].
    rewrite <-app_assoc. rewrite not_elem_of_cons, not_elem_of_app. split_and!.
    - intros Heq. apply Hs1. rewrite <-Heq. rewrite <-app_assoc.
      apply elem_of_app. right. left.
    - intros Hin. apply (Hdis _ Hin). left.
    - done. }
  assert (c_val c ∉ sv :: ((c_val <$> cs1) ++ (c_val <$> cs2)) ++ [ev]) as Hvout.
  { apply NoDup_cons in Hnd as [Hs1 Hnd]. rewrite <-app_assoc in Hnd. cbn [app] in Hnd.
    apply NoDup_app in Hnd as (_ & Hdis & Hnd). apply NoDup_cons in Hnd as [Hc1 _].
    rewrite <-app_assoc. rewrite not_elem_of_cons, not_elem_of_app. split_and!.
    - intros Heq. apply Hs1. rewrite <-Heq. rewrite <-app_assoc.
      apply elem_of_app. right. left.
    - intros Hin. apply (Hdis _ Hin). left.
    - done. }
  assert (s ≠ c_node c ∧ e ≠ c_node c) as [Hsc Hec].
  { split; intros Heq; apply Hcout; rewrite <-Heq; [left|].
    right. apply elem_of_app. right. left. }
  assert (sv ≠ c_val c ∧ ev ≠ c_val c) as [Hsvc Hevc].
  { split; intros Heq; apply Hvout; rewrite <-Heq; [left|].
    right. apply elem_of_app. right. left. }
  assert (p ≠ e) as Hpe.
  { intros ->. apply NoDup_cons in Hch as [Hs1 Hch].
    apply elem_of_cons in Hpin as [->|Hpin].
    - apply Hs1. apply elem_of_app. right. left.
    - rewrite <-app_assoc in Hch. apply NoDup_app in Hch as (_ & Hdis & _).
      apply (Hdis _ Hpin). right. apply elem_of_app. right. left. }
  exists xs1, x, xs2, h'. split; [done|]. split; [done|]. split; [exact Hex|].
  split; [|split; [|exact HI]].
  - split; [apply Hinv'|]. unfold sentinels_own. rewrite HN, HV.
    rewrite !lookup_delete_ne by done.
    rewrite !(lookup_alter_keep n_data), !(lookup_alter_keep n_tag) by (by intros []).
    split; [done|]. split; [done|]. split; [done|]. split; [done|]. split.
    { rewrite (lookup_alter_keep n_next) by (by intros []).
      by rewrite lookup_alter_ne. }
    split; [done|]. split; [done|].
    rewrite fmap_app. apply NoDup_cons in Hnd as [Hs1 Hnd].
    apply NoDup_cons. split.
    + intros Hin. apply Hs1. rewrite <-app_assoc in Hin |- *.
      apply elem_of_middle. by right.
    + rewrite <-app_assoc in Hnd |- *. cbn [app] in Hnd.
      apply NoDup_app in Hnd as (H1 & H2 & H3). apply NoDup_cons in H3 as [_ H3].
      apply NoDup_app. split; [done|]. split; [|done].
      intros k Hk Hk'. apply (H2 k Hk). by right.
  - unfold same_but_iters, released. heap_simpl.
    rewrite !all_cells_nodes, !all_cells_vals, !fmap_app, !fmap_cons.
    split; [|split; [|split]].
    + apply map_eq. intros k. rewrite !lookup_foldr_delete.
      destruct (decide (k ∈ s :: ((c_node <$> cs1) ++ (c_node <$> cs2)) ++ [e]))
        as [Hin|Hout];
        destruct (decide (k ∈ s :: ((c_node <$> cs1) ++ c_node c :: (c_node <$> cs2)) ++ [e]))
          as [Hin'|Hout']; try done.
      * exfalso. apply Hout'. rewrite <-app_assoc in Hin |- *. cbn [app].
        apply elem_of_cons in Hin as [->|Hin]; [left|right].
        apply elem_of_middle. by right.
      * assert (k = c_node c) as ->.
        { rewrite <-app_assoc in Hin', Hout. cbn [app] in Hin'.
          apply elem_of_cons in Hin' as [->|Hin']; [exfalso; apply Hout; left|].
          apply elem_of_middle in Hin' as [?|Hin']; [done|].
          exfalso. apply Hout. by right. }
        rewrite HN. apply lookup_delete_eq.
      * assert (k ≠ c_node c ∧ k ≠ p ∧ k ≠ nx) as (?&?&?).
        { rewrite <-app_assoc in Hout, Hout'. cbn [app] in Hout'.
          split_and!; intros ->.
          - apply Hout'. right. apply elem_of_middle. by left.
          - apply Hout. apply elem_of_cons in Hpin as [->|Hpin]; [left|right].
            apply elem_of_app. by left.
          - apply Hout. right. apply elem_of_app. by right. }
        rewrite HN. by lk.
    + apply map_eq. intros k. rewrite !lookup_foldr_delete.
      destruct (decide (k ∈ sv :: ((c_val <$> cs1) ++ (c_val <$> cs2)) ++ [ev]))
        as [Hin|Hout];
        destruct (decide (k ∈ sv :: ((c_val <$> cs1) ++ c_val c :: (c_val <$> cs2)) ++ [ev]))
          as [Hin'|Hout']; try done.
      * exfalso. apply Hout'. rewrite <-app_assoc in Hin |- *. cbn [app].
        apply elem_of_cons in Hin as [->|Hin]; [left|right].
        apply elem_of_middle. by right.
      * assert (k = c_val c) as ->.
        { rewrite <-app_assoc in Hin', Hout. cbn [app] in Hin'.
          apply elem_of_cons in Hin' as [->|Hin']; [exfalso; apply Hout; left|].
          apply elem_of_middle in Hin' as [?|Hin']; [done|].
          exfalso. apply Hout. by right. }
        rewrite HV. apply lookup_delete_eq.
      * assert (k ≠ c_val c).
        { rewrite <-app_assoc in Hout'. cbn [app] in Hout'. intros ->.
          apply Hout'. right. apply elem_of_middle. by left. }
        rewrite HV. by lk.
    + apply map_eq. intros k. rewrite !lookup_foldr_delete, !omap_app, HS.
      cbn [omap list_omap]. fold (omap (M:=list) c_tag cs2).
      destruct (c_tag c) as [t|] eqn:Et; [|done].
      destruct (decide (k ∈ omap c_tag cs1 ++ omap c_tag cs2)) as [Hin|Hout];
        destruct (decide (k ∈ omap c_tag cs1 ++ t :: omap c_tag cs2)) as [Hin'|Hout'];
        try done.
      * exfalso. apply Hout'. apply elem_of_middle. by right.
      * apply elem_of_middle in Hin' as [->|?]; [|done]. apply lookup_delete_eq.
      * rewrite lookup_delete_ne; [done|]. intros <-. apply Hout'.
        apply elem_of_middle. by left.
    + rewrite HD. apply map_eq. intros k. destruct (decide (k = q)) as [->|]; lk; done.
Qed.

Lemma deque_owned_with_iters f h q ts s e sv ev sz cs xs :
  deque_owned h q ts s e sv ev sz cs xs →
  deque_owned (with_iters f h) q ts s e sv ev sz cs xs.
Proof.
  intros [[H1 H2 H3 H4 H5 H6 H7] Hs]. split; [by split|exact Hs].
Qed.

Lemma same_but_iters_trans h1 h2 h3 :
  same_but_iters h1 h2 → same_but_iters h2 h3 → same_but_iters h1 h3.
Proof. intros (?&?&?&?) (?&?&?&?). unfold same_but_iters. split_and!; congruence. Qed.

Lemma remove_if_owned P q ts s e sv ev it rest : ∀ kept h xs_kept xs_rest tg vl a fuel,
  deque_owned h q ts s e sv ev (Z.of_nat (length (xs_kept ++ xs_rest))) (kept ++ rest)
    (xs_kept ++ xs_rest) →
  Z.of_nat (length (xs_kept ++ xs_rest)) < 4294967296 →
  length kept = length xs_kept →
  iters h !! it = Some (mk_iter (Some q) (Some a) tg vl) →
  (kept = [] ∧ a = s) ∨ (∃ kept' c, kept = kept' ++ [c] ∧ a = c_node c) →
  (length rest < fuel)%nat →
  ∃ h' cs' i',
    iterator_remove_if P fuel (Some it) h = Ok tt h' ∧
    deque_owned h' q ts s e sv ev
      (Z.of_nat (length (xs_kept ++ filter (keep_item P) xs_rest))) (kept ++ cs')
      (xs_kept ++ filter (keep_item P) xs_rest) ∧
    same_but_iters (released h' q s e sv ev (kept ++ cs'))
      (released h q s e sv ev (kept ++ rest)) ∧
    iters h' = <[it := i']> (iters h).
Proof.
  induction rest as [|c' rest IH];
    intros kept h xs_kept xs_rest tg vl a fuel Hown Hbound Hlen Hit Hpos Hfuel;
    (destruct fuel as [|fuel]; [cbn in Hfuel; lia|]); cbn [iterator_remove_if];
    pose proof (conj (proj1 Hown) Hbound : deque_inv h q ts s e _ _) as Hinv;
    pose proof (rep_cells _ _ _ _ _ _ _ _ (proj1 Hown)) as HF;
    apply Forall2_app_inv in HF as [HFk HFr]; try done.
  - apply Forall2_nil_inv_l in HFr as ->.
    assert ((a = s ∧ [] = kept ++ []) ∨
            (∃ cs1 c, kept ++ [] = cs1 ++ [c] ∧ a = c_node c)) as Hpos'.
    { destruct Hpos as [[-> ->]|(k' & c & -> & ->)]; [by left|right].
      exists k', c. by rewrite app_nil_r. }
    eexists _, [], _. split; [|split; [|split]].
    + eapply bind_Ok;
        [exact (iterator_next_Ok h q ts s e _ _ it tg vl a [] Hinv Hit Hpos')|].
      reflexivity.
    + by apply deque_owned_with_iters.
    + done.
    + reflexivity.
  - apply Forall2_cons_inv_l in HFr as (x' & xs_rest' & Hc & HFr & ->).
    destruct Hc as (Hcd & Hct & Hcv & Hcs).
    assert ((a = s ∧ c' :: rest = kept ++ c' :: rest) ∨
            (∃ cs1 c, kept ++ c' :: rest = cs1 ++ c :: c' :: rest ∧ a = c_node c)) as Hpos'.
    { destruct Hpos as [[-> ->]|(k' & c & -> & ->)]; [by left|right].
      exists k', c. by rewrite <-app_assoc. }
    set (h1 := with_iters
                 (insert it (mk_iter (Some q) (Some (c_node c')) (c_tag c')
                               (Some (c_val c')))) h).
    assert (deque_owned h1 q ts s e sv ev (Z.of_nat (length (xs_kept ++ x' :: xs_rest')))
              (kept ++ c' :: rest) (xs_kept ++ x' :: xs_rest'))
      as Hown1 by (by apply deque_owned_with_iters).
    assert (iters h1 !! it =
              Some (mk_iter (Some q) (Some (c_node c')) (c_tag c') (Some (c_val c'))))
      as Hit1 by apply lookup_insert_eq.
    assert (∀ k : unit → M unit,
              (b <- pgagroal_deque_iterator_next (Some it) ;;
               if b : bool then
                 t <- load_iter it_tag (Some it) ;;
                 s0 <- read_cstr t ;;
                 v <- load_iter it_value (Some it) ;;
                 vv <- load_value id v ;;
                 (if P s0 vv then pgagroal_deque_iterator_remove (Some it) else ret tt) ;;
                 k tt
               else ret tt) h
              = ((if P (i_tag x') (mk_value (i_type x') (i_data x'))
                  then pgagroal_deque_iterator_remove (Some it) else ret tt) ;; k tt) h1)
      as Hhead.
    { intros k.
      eapply bind_Ok;
        [exact (iterator_next_Ok h q ts s e _ _ it tg vl a (c' :: rest) Hinv Hit Hpos')|].
      cbv iota. step.
      eapply bind_Ok; [apply read_cstr_Ok; exact Hcs|].
      step. step. reflexivity. }
    rewrite (Hhead (λ _, iterator_remove_if P fuel (Some it))).
    destruct (P (i_tag x') (mk_value (i_type x') (i_data x'))) eqn:EP.
    + destruct (iterator_remove_owned h1 q ts s e sv ev kept c' rest _ it _ _ Hown1 Hbound Hit1)
        as (xs1 & x & xs2 & h2 & Exs & Hl1 & Hrm & Hown2 & Hsame2 & Hit2).
      apply app_inj_1 in Exs as [<- [= <- <-]]; [|lia].
      rewrite filter_cons_False by (unfold keep_item; rewrite EP; exact id).
      destruct (IH kept h2 xs_kept xs_rest'
                  (match last kept with None => None | Some cp => c_tag cp end)
                  (match last kept with None => None | Some cp => Some (c_val cp) end)
                  (match last kept with None => s | Some cp => c_node cp end) fuel Hown2)
        as (h' & cs' & i' & Hex & Hown' & Hsame' & Hit').
      * rewrite !length_app in *. cbn [length] in Hbound. lia.
      * done.
      * rewrite Hit2, lookup_insert_eq. by destruct (last kept).
      * destruct Hpos as [[-> _]|(k' & c & -> & _)]; [by left|right].
        exists k', c. by rewrite last_snoc.
      * cbn in Hfuel. lia.
      * exists h', cs', i'. split; [|split; [exact Hown'|split]].
        -- eapply bind_Ok; [exact Hrm|exact Hex].
        -- eapply same_but_iters_trans; [exact Hsame'|].
           eapply same_but_iters_trans; [exact Hsame2|]. done.
        -- rewrite Hit', Hit2. unfold h1. heap_simpl. by rewrite !insert_insert_eq.
    + rewrite filter_cons_True by (unfold keep_item; rewrite EP; exact I).
      destruct (IH (kept ++ [c']) h1 (xs_kept ++ [x']) xs_rest' (c_tag c')
                  (Some (c_val c')) (c_node c') fuel)
        as (h' & cs' & i' & Hex & Hown' & Hsame' & Hit').
      * by rewrite <-!app_assoc.
      * by rewrite <-!app_assoc.
      * rewrite !length_app. cbn. lia.
      * exact Hit1.
      * right. by exists kept, c'.
      * cbn in Hfuel. lia.
      * exists h', (c' :: cs'), i'. split; [|split; [|split]].
        -- eapply bind_Ok; [reflexivity|exact Hex].
        -- by rewrite <-!app_assoc in Hown'.
        -- rewrite <-!app_assoc in Hsame'. exact Hsame'.
        -- rewrite Hit'. unfold h1. heap_simpl. by rewrite insert_insert_eq.
Qed.

(** X15: what an iterator removes is freed completely.  A deque that is
    created, filled, filtered by a traversal that removes the elements
    satisfying any test [P], and destroyed after its iterator leaves the
    heap exactly as it was before the create: unlike [poll], which keeps the
    tag alive for the caller, [iterator_remove] frees the node, the value
    cell and the tag. *)
Theorem X15_iterator_removal_leaks_nothing (P : option string → value → bool)
    (ts : bool) (h0 : heap) (xs : list item) (fuel : nat) :
  Z.of_nat (length xs) < 4294967296 → (length xs < fuel)%nat →
  ∃ q h1 h2 it h3 h4 h5,
    pgagroal_deque_create ts h0 = Ok (0, Some q) h1 ∧
    add_all (Some q) xs h1 = Ok tt h2 ∧
    pgagroal_deque_iterator_create (Some q) h2 = Ok (0, Some (Some it)) h3 ∧
    iterator_remove_if P fuel (Some it) h3 = Ok tt h4 ∧
    pgagroal_deque_iterator_destroy (Some it) h4 = Ok tt h5 ∧
    pgagroal_deque_destroy (Some q) h5 = Ok tt h0.
Proof.
  intros Hlen Hfuel.
  destruct (create_adds_owned ts h0 xs)
    as (q & s & e & sv & ev & cs & h1 & h2 & Hc & Ha & Hown & Hrel).
  rewrite wrap32_small in Hown by lia.
  destruct (rep_deque _ _ _ _ _ _ _ _ (proj1 Hown)) as (mu & Hd & Hmu).
  destruct (iterator_create_Ok h2 q _ Hd) as (it & Hfresh & Hcreate).
  cbn [dq_start] in Hcreate.
  set (h3 := with_iters (insert it (mk_iter (Some q) (Some s) None None)) h2) in *.
  destruct (remove_if_owned P q ts s e sv ev it cs [] h3 [] xs None None s fuel)
    as (h4 & cs' & i' & Hex & Hown4 & Hsame & Hit4).
  { by apply deque_owned_with_iters. }
  { done. }
  { done. }
  { apply lookup_insert_eq. }
  { by left. }
  { pose proof (cells_length _ _ _ (rep_cells _ _ _ _ _ _ _ _ (proj1 Hown))). lia. }
  cbn [app] in *.
  exists q, h1, h2, it, h3, h4, (with_iters (delete it) h4).
  split; [exact Hc|]. split; [exact Ha|]. split; [exact Hcreate|]. split; [exact Hex|].
  split.
  { unfold pgagroal_deque_iterator_destroy, free_iter. by rewrite Hit4, lookup_insert_eq. }
  rewrite (destroy_Ok _ _ _ _ _ _ _ _ _ _ (deque_owned_with_iters (delete it) _ _ _ _ _ _ _ _ _ _
                                             Hown4)).
  f_equal. rewrite <-Hrel. destruct Hsame as (HN & HV & HS & HD).
  unfold released in *. cbn [nodes values strs deques iters] in HN, HV, HS, HD.
  heap_simpl. rewrite HN, HV, HS, HD. f_equal.
  rewrite Hit4. unfold h3. heap_simpl.
  apply map_eq. intros k. destruct (decide (k = it)) as [->|]; lk; done.
Qed.

Lemma X15_iterator_removal_leaks_nothing_witness :
  ∃ q h1 h2 it h3 h4 h5,
    pgagroal_deque_create false empty_heap = Ok (0, Some q) h1 ∧
    add_all (Some q)
      [mk_item (Some "a"%string) 1 ValueInt32; mk_item (Some "b"%string) 2 ValueInt32] h1
      = Ok tt h2 ∧
    pgagroal_deque_iterator_create (Some q) h2 = Ok (0, Some (Some it)) h3 ∧
    iterator_remove_if (λ _ v, v_data v =? 1) 3 (Some it) h3 = Ok tt h4 ∧
    pgagroal_deque_iterator_destroy (Some it) h4 = Ok tt h5 ∧
    pgagroal_deque_destroy (Some q) h5 = Ok tt empty_heap.
Proof.
  apply (X15_iterator_removal_leaks_nothing (λ _ v, v_data v =? 1) false empty_heap
           [mk_item (Some "a"%string) 1 ValueInt32; mk_item (Some "b"%string) 2 ValueInt32] 3).
  - cbn. lia.
  - cbn. lia.
Defined.

(** ** Two deques in one heap *)

Lemma deque_rep_frame h h' q ts s e sz cs xs :
  deque_rep h q ts s e sz cs xs →
  deques h' !! q = deques h !! q →
  (∀ k, k ∈ s :: (c_node <$> cs) ++ [e] → nodes h' !! k = nodes h !! k) →
  (∀ c, c ∈ cs → values h' !! c_val c = values h !! c_val c ∧
                 cstr h' (c_tag c) = cstr h (c_tag c)) →
  deque_rep h' q ts s e sz cs xs.
Proof.
  intros [H1 H2 H3 H4 H5 H6 H7] HD HN HC. split; try done.
  - by rewrite HD.
  - eapply linked_frame; [exact H3| | |exact H4].
    + intros x Hx _. by rewrite HN.
    + intros x Hx _. by rewrite HN.
  - eapply cells_frame; [|exact H7]. intros c Hc.
    assert (nodes h' !! c_node c = nodes h !! c_node c) as ->.
    { apply HN. right. apply elem_of_app. left. by apply list_elem_of_fmap_2. }
    destruct (HC c Hc) as [-> ->]. done.
Qed.

Lemma head_elem_of {A} (l : list A) x : head l = Some x → x ∈ l.
Proof. destruct l; [done|]. intros [= ->]. left. Qed.

Lemma create_second h q ts s e sz cs xs ts2 :
  deque_rep h q ts s e sz cs xs →
  ∃ q2 s2 e2 h',
    pgagroal_deque_create ts2 h = Ok (0, Some q2) h' ∧
    deque_inv h' q2 ts2 s2 e2 [] [] ∧
    deque_rep h' q ts s e sz cs xs ∧
    q2 ≠ q ∧ (s2 ∉ s :: (c_node <$> cs) ++ [e]) ∧ (e2 ∉ s :: (c_node <$> cs) ++ [e]).
Proof.
  intros Hrep.
  destruct (create_owned ts2 h) as (q2 & s2 & e2 & sv2 & ev2 & h' & Hc & [Hrep2 _] & Hrel).
  destruct (rep_deque _ _ _ _ _ _ _ _ Hrep) as (mu & Hd & _).
  assert (nodes h = foldr delete (nodes h') [s2; e2]) as HN by (by rewrite <-Hrel).
  assert (values h = foldr delete (values h') [sv2; ev2]) as HV by (by rewrite <-Hrel).
  assert (strs h = strs h') as HS by (by rewrite <-Hrel).
  assert (deques h = delete q2 (deques h')) as HD by (by rewrite <-Hrel).
  assert (∀ k, is_Some (nodes h !! k) → (k ∉ [s2; e2]) ∧ nodes h' !! k = nodes h !! k)
    as Hnode.
  { intros k [n Hk]. rewrite HN, lookup_foldr_delete in Hk |- *.
    by destruct (decide (k ∈ [s2; e2])). }
  assert (∀ k, is_Some (values h !! k) → values h' !! k = values h !! k) as Hval.
  { intros k [n Hk]. rewrite HV, lookup_foldr_delete in Hk |- *.
    by destruct (decide (k ∈ [sv2; ev2])). }
  assert (q2 ≠ q) as Hq.
  { intros ->. rewrite HD, lookup_delete_eq in Hd. done. }
  exists q2, s2, e2, h'. split; [exact Hc|]. split; [by split|]. split; [|split; [done|split]].
  - eapply deque_rep_frame; [exact Hrep| | |].
    + rewrite HD. by rewrite lookup_delete_ne.
    + intros k Hk. apply Hnode. by eapply rep_chain_alloc.
    + intros c Hc'. split.
      * apply Hval. eapply cells_vals_alloc; [apply Hrep|]. by apply list_elem_of_fmap_2.
      * unfold cstr. by rewrite HS.
  - intros Hin. destruct (Hnode s2) as [Hout _]; [by eapply rep_chain_alloc|].
    apply Hout. left.
  - intros Hin. destruct (Hnode e2) as [Hout _]; [by eapply rep_chain_alloc|].
    apply Hout. right. left.
Qed.

(** X16: deques do not interfere.  An add or a poll on one deque leaves
    every other deque of the heap as it was, provided the two do not share
    nodes or value cells: the other deque holds the same elements in the
    same cells. *)
Theorem X16_other_deque_untouched (h : heap) (q q' : positive) (ts ts' : bool)
    (s e s' e' : positive) (sz' : Z) (cs cs' : list cell) (xs xs' : list item) :
  deque_inv h q ts s e cs xs →
  deque_rep h q' ts' s' e' sz' cs' xs' →
  q ≠ q' →
  (∀ k, k ∈ s :: (c_node <$> cs) ++ [e] → k ∉ s' :: (c_node <$> cs') ++ [e']) →
  (∀ v, v ∈ c_val <$> cs → v ∉ c_val <$> cs') →
  (∀ tag data type h1,
     pgagroal_deque_add (Some q) tag data type h = Ok 0 h1 →
     deque_rep h1 q' ts' s' e' sz' cs' xs') ∧
  (∀ want_tag r h1,
     pgagroal_deque_poll (Some q) want_tag h = Ok r h1 →
     deque_rep h1 q' ts' s' e' sz' cs' xs').
Proof.
  intros [Hrep Hlen] Hrep' Hq Hnodes Hvals.
  pose proof (cells_length _ _ _ (rep_cells _ _ _ _ _ _ _ _ Hrep)) as Hcl.
  split.
  - intros tag data type h1 Hadd.
    destruct (offer_exact _ _ _ _ _ _ _ _ tag data type Hrep)
      as (l & mu & h1' & Hl & Hd & Hex & _ & HN & HV & HS & HD & _).
    unfold pgagroal_deque_add, bind in Hadd. rewrite Hex in Hadd.
    injection Hadd as <-.
    assert (l ∈ s :: (c_node <$> cs) ++ [e]) as Hlin.
    { apply last_Some_elem_of in Hl. rewrite app_comm_cons. apply elem_of_app. by left. }
    assert (e ∈ s :: (c_node <$> cs) ++ [e]) as Hein.
    { right. apply elem_of_app. right. left. }
    eapply deque_rep_frame; [exact Hrep'| | |].
    + rewrite HD. by apply lookup_insert_ne.
    + intros k Hk. rewrite HN.
      assert (k ≠ e) by (intros ->; by apply (Hnodes e)).
      assert (k ≠ l) by (intros ->; by apply (Hnodes l)).
      assert (k ≠ c_node (new_cell h tag)).
      { intros ->. destruct (rep_chain_alloc _ _ _ _ _ _ _ _ _ Hrep' Hk) as [? Hx].
        unfold new_cell in Hx. cbn in Hx. by rewrite fresh_lookup in Hx. }
      by lk.
    + intros c Hc. split.
      * rewrite HV. apply lookup_insert_ne. intros Heq.
        destruct (cells_vals_alloc _ _ _ (c_val c) (rep_cells _ _ _ _ _ _ _ _ Hrep'))
          as [? Hx]; [by apply list_elem_of_fmap_2|].
        rewrite <-Heq in Hx. unfold new_cell in Hx. cbn in Hx. by rewrite fresh_lookup in Hx.
      * destruct (c_tag c) as [t|] eqn:Et; [|done]. cbn [cstr]. rewrite HS.
        unfold new_cell. cbn [c_tag]. destruct tag as [str|]; [|done].
        rewrite lookup_insert_ne; [done|]. intros <-.
        destruct (cells_tags_alloc _ _ _ (fresh (dom (strs h)))
                    (rep_cells _ _ _ _ _ _ _ _ Hrep')) as [? Hx];
          [apply list_elem_of_omap; eauto|].
        by rewrite fresh_lookup in Hx.
  - intros wt r h1 Hpoll.
    destruct (rep_deque _ _ _ _ _ _ _ _ Hrep) as (mu & Hd & Hmu).
    destruct cs as [|c cs].
    { destruct xs; [|discriminate Hcl].
      rewrite (poll_empty h q ts mu _ _ wt Hd Hmu) in Hpoll. by injection Hpoll as <- <-. }
    destruct (poll_exact _ _ _ _ _ _ _ _ _ wt Hrep)
      as (x & xs0 & nx & mu' & h1' & -> & Hnx & _ & Hex & _ & _ & HN & HV & HS & HD & _).
    { destruct xs; cbn in Hcl |- *; [discriminate|lia]. }
    rewrite Hex in Hpoll. injection Hpoll as <- <-.
    assert (nx ∈ s :: (c_node <$> c :: cs) ++ [e]) as Hnxin.
    { right. rewrite fmap_cons. cbn [app]. right. by apply head_elem_of. }
    eapply deque_rep_frame; [exact Hrep'| | |].
    + rewrite HD. by apply lookup_insert_ne.
    + intros k Hk. rewrite HN.
      assert (k ≠ c_node c).
      { intros ->. apply (Hnodes (c_node c)); [|done]. right. left. }
      assert (k ≠ nx) by (intros ->; by apply (Hnodes nx)).
      assert (k ≠ s) by (intros ->; apply (Hnodes s); [left|done]).
      by lk.
    + intros c0 Hc0. split.
      * rewrite HV. apply lookup_delete_ne. intros Heq.
        apply (Hvals (c_val c)); [left|]. rewrite Heq. by apply list_elem_of_fmap_2.
      * unfold cstr. by rewrite HS.
Qed.

Lemma X16_other_deque_untouched_witness :
  ∃ q1 h1 q2 h2 h3,
    pgagroal_deque_create false empty_heap = Ok (0, Some q1) h1 ∧
    pgagroal_deque_create true h1 = Ok (0, Some q2) h2 ∧
    pgagroal_deque_add (Some q2) (Some "a"%string) 3 ValueInt32 h2 = Ok 0 h3 ∧
    pgagroal_deque_size (Some q1) h3 = Ok 0 h3.
Proof.
  destruct (create_Ok false empty_heap) as (q1 & s1 & e1 & h1 & Hc1 & [Hrep1 _] & _).
  destruct (create_second h1 q1 false s1 e1 _ [] [] true Hrep1)
    as (q2 & s2 & e2 & h2 & Hc2 & Hinv2 & Hrep1' & Hq & Hs2 & He2).
  destruct (add_inv _ _ _ _ _ _ _ (Some "a"%string) 3 ValueInt32 Hinv2) as (c & h3 & Ha & _);
    [cbn; lia|].
  destruct (X16_other_deque_untouched h2 q2 q1 true false s2 e2 s1 e1 _ [] [] [] []
              Hinv2 Hrep1' Hq) as [Hadd _].
  - intros k Hk. cbn in Hk. apply elem_of_cons in Hk as [->|Hk]; [exact Hs2|].
    apply list_elem_of_singleton in Hk. subst k. exact He2.
  - intros v Hv. by apply elem_of_nil in Hv.
  - pose proof (Hadd _ _ _ _ Ha) as Hrep3.
    destruct (rep_deque _ _ _ _ _ _ _ _ Hrep3) as (mu & Hd & Hmu).
    exists q1, h1, q2, h2, h3. split; [exact Hc1|]. split; [exact Hc2|]. split; [exact Ha|].
    by eapply size_Ok.
Defined.

(** ** Adding during a traversal *)

(** X17: an iterator is a live view, not a snapshot.  An element that is
    added while a traversal is under way is appended behind the elements
    the iterator has still to visit, and the traversal visits it last. *)
Theorem X17_iterator_sees_later_add (h : heap) (q : positive) (ts : bool)
    (s e : positive) (cs : list cell) (xs : list item) (it : positive)
    (tg vl : option positive) (a : positive) (rest : list cell)
    (tag : option string) (data : Z) (type : value_type) (fuel : nat) :
  deque_inv h q ts s e cs xs → Z.of_nat (length xs) < 4294967295 →
  iters h !! it = Some (mk_iter (Some q) (Some a) tg vl) →
  (a = s ∧ rest = cs) ∨ (∃ cs1 c, cs = cs1 ++ c :: rest ∧ a = c_node c) →
  (length rest + 1 < fuel)%nat →
  ∃ h1 rs h2 t v,
    pgagroal_deque_add (Some q) tag data type h = Ok 0 h1 ∧
    iterator_collect fuel (Some it) h1 = Ok rs h2 ∧
    rs = ((λ c, (c_tag c, Some (c_val c))) <$> rest) ++ [(t, Some v)] ∧
    cstr h2 t = Some tag ∧ values h2 !! v = Some (mk_value type data).
Proof.
  intros [Hrep Hlen] Hmax Hit Hpos Hfuel.
  destruct (offer_exact _ _ _ _ _ _ _ _ tag data type Hrep)
    as (l & mu & h1 & _ & _ & Hex & Hrep1 & _ & _ & _ & _ & HI).
  set (c := new_cell h tag) in *.
  rewrite wrap32_small in Hrep1 by lia.
  assert (deque_inv h1 q ts s e (cs ++ [c]) (xs ++ [mk_item tag data type])) as Hinv1.
  { split; rewrite length_app; cbn [length]; [|lia].
    replace (Z.of_nat (length xs + 1)) with (Z.of_nat (length xs) + 1) by lia. done. }
  pose proof (rep_cells _ _ _ _ _ _ _ _ Hrep1) as HF.
  apply Forall2_app_inv in HF as [_ HF];
    [|exact (cells_length _ _ _ (rep_cells _ _ _ _ _ _ _ _ Hrep))].
  apply Forall2_cons_1 in HF as [(_ & _ & Hcv & Hcs) _]. cbn [i_tag i_data i_type] in *.
  pose proof (collect_Ok (rest ++ [c]) h1 q ts s e _ _ it tg vl a fuel Hinv1) as Hcol.
  rewrite HI in Hcol. specialize (Hcol Hit).
  eexists h1, _, _, (c_tag c), (c_val c). split; [|split; [apply Hcol|split; [|split]]].
  - unfold pgagroal_deque_add. eapply bind_Ok; [exact Hex|reflexivity].
  - destruct Hpos as [[-> ->]|(cs1 & c0 & -> & ->)]; [by left|right].
    exists cs1, c0. by rewrite <-app_assoc.
  - rewrite length_app. cbn. lia.
  - by rewrite fmap_app.
  - exact Hcs.
  - exact Hcv.
Qed.

Lemma X17_iterator_sees_later_add_witness :
  ∃ q h1 it h2 h3 rs h4 t v,
    pgagroal_deque_create false empty_heap = Ok (0, Some q) h1 ∧
    pgagroal_deque_iterator_create (Some q) h1 = Ok (0, Some (Some it)) h2 ∧
    pgagroal_deque_add (Some q) (Some "late"%string) 9 ValueInt32 h2 = Ok 0 h3 ∧
    iterator_collect 2 (Some it) h3 = Ok rs h4 ∧
    rs = [(t, Some v)] ∧ cstr h4 t = Some (Some "late"%string).
Proof.
  destruct (create_Ok false empty_heap) as (q & s & e & h1 & Hc & Hinv1 & _).
  destruct (rep_deque _ _ _ _ _ _ _ _ (proj1 Hinv1)) as (mu & Hd & _).
  destruct (iterator_create_Ok h1 q _ Hd) as (it & _ & Hcr). cbn [dq_start] in Hcr.
  destruct (X17_iterator_sees_later_add
              (with_iters (insert it (mk_iter (Some q) (Some s) None None)) h1)
              q false s e [] [] it None None s [] (Some "late"%string) 9 ValueInt32 2)
    as (h3 & rs & h4 & t & v & Ha & Hcol & Hrs & Ht & _).
  - by apply deque_inv_with_iters.
  - cbn. lia.
  - apply lookup_insert_eq.
  - by left.
  - cbn. lia.
  - eexists q, h1, it, _, h3, rs, h4, t, v.
    split; [exact Hc|]. split; [exact Hcr|]. split; [exact Ha|]. split; [exact Hcol|].
    split; [exact Hrs|exact Ht].
Defined.

(** ** The defensive branch of poll and peek *)

Lemma rep_set_size h q ts s e sz sz' cs xs :
  deque_rep h q ts s e sz cs xs → 0 ≤ sz' < 4294967296 →
  deque_rep (with_deques (alter (set_size sz') q) h) q ts s e sz' cs xs.
Proof.
  intros [(mu & Hd & Hmu) H2 H3 H4 H5 H6 H7] Hsz. split; try done.
  exists mu. split; [|done]. heap_simpl. lk. by rewrite Hd.
Qed.

(** X18: [poll] and [peek] guard against a size field that says the deque
    is not empty when the chain holds no element: both find the back
    sentinel behind the front one, release the lock they took and return 0
    without touching the heap. *)
Theorem X18_poll_peek_guard_empty_chain (h : heap) (q : positive) (ts : bool)
    (s e : positive) (sz : Z) (want_tag : bool) :
  deque_rep h q ts s e sz [] [] → sz ≠ 0 →
  pgagroal_deque_poll (Some q) want_tag h = Ok (0, None) h ∧
  pgagroal_deque_peek (Some q) want_tag h = Ok (0, None) h.
Proof.
  intros Hrep Hsz.
  destruct (rep_deque _ _ _ _ _ _ _ _ Hrep) as (mu & Hd & Hmu).
  pose proof (rep_linked _ _ _ _ _ _ _ _ Hrep) as HL. cbn in HL.
  destruct HL as [[Hn _] _]. apply fmap_Some_inv in Hn as ([sd st sp sn] & Hs & Hn).
  cbn in Hn. subst sn.
  assert ((sz =? 0) = false) as Hszb by (by apply Z.eqb_neq).
  split.
  - unfold pgagroal_deque_poll. eapply bind_Ok; [by eapply size_Ok|]. rewrite Hszb.
    destruct ts; [rewrite (Hmu eq_refl) in Hd|]; steps; rewrite ptr_eqb_refl; steps;
      unfold ret; f_equal; by eapply lock_roundtrip.
  - unfold pgagroal_deque_peek. eapply bind_Ok; [by eapply size_Ok|]. rewrite Hszb.
    destruct ts; [rewrite (Hmu eq_refl) in Hd|]; steps; rewrite ptr_eqb_refl; steps;
      unfold ret; f_equal; by eapply lock_roundtrip.
Qed.

Lemma X18_poll_peek_guard_empty_chain_witness :
  ∃ q h1,
    pgagroal_deque_create true empty_heap = Ok (0, Some q) h1 ∧
    pgagroal_deque_poll (Some q) true (with_deques (alter (set_size 3) q) h1)
    = Ok (0, None) (with_deques (alter (set_size 3) q) h1).
Proof.
  destruct (create_Ok true empty_heap) as (q & s & e & h1 & Hc & [Hrep _] & _).
  exists q, h1. split; [exact Hc|].
  apply (X18_poll_peek_guard_empty_chain _ q true s e 3 true).
  - eapply rep_set_size; [exact Hrep|lia].
  - discriminate.
Defined.
